(** * kili-playground: the GraphQL clients of [kili/graphql_client.py]

    A shallow embedding of the two clients of the module:
    [GraphQLClient] (JSON over HTTP, with a fixed number of trials) and
    [SubscriptionGraphQLClient] (the Apollo [graphql-ws] protocol over a
    websocket), together with the identifier generator [gen_id] and the
    part of Python's [json] module that the clients call.

    Python values are modelled as follows.
    - [str] is a list of Unicode code points ([pystr]);
    - [int] is [Z];
    - the values that [json.dumps] accepts and [json.loads] produces are
      the inductive type [json]; a [dict] is an association list in
      insertion order;
    - every effect (send, recv, print, sleep, thread start and join, HTTP
      post) is an [event] appended to the [trace] of the [world];
    - a method is a function in the monad [M], whose outcome is a value,
      a raised exception, or [Blocked] when [recv] waits on a transport
      that has delivered all its frames. *)

From Stdlib Require Import List ZArith NArith Lia Bool Ascii String.
From Stdlib Require DecimalFacts DecimalZ.
Import ListNotations.

Set Warnings "-register-all".

(** ** Text *)

Module Text.

(** A Python [str]: its code points, in order. *)
Abbreviation pystr := (list N) (only parsing).

(** The [str] denoted by a literal of the source. *)
Definition lit (s : string) : pystr := map N_of_ascii (list_ascii_of_string s).

Fixpoint str_eqb (a b : pystr) : bool :=
  match a, b with
  | [], [] => true
  | x :: a', y :: b' => N.eqb x y && str_eqb a' b'
  | _, _ => false
  end.

(** [s[:len(p)] == p] *)
Fixpoint starts_with (p s : pystr) : bool :=
  match p, s with
  | [], _ => true
  | x :: p', y :: s' => N.eqb x y && starts_with p' s'
  | _ :: _, [] => false
  end.

Definition QUOTE : N := 34.
Definition BACKSLASH : N := 92.
Definition SLASH : N := 47.
Definition LBRACE : N := 123.
Definition RBRACE : N := 125.
Definition LBRACKET : N := 91.
Definition RBRACKET : N := 93.
Definition COMMA : N := 44.
Definition COLON : N := 58.
Definition SPACE : N := 32.
Definition MINUS : N := 45.
Definition PLUS : N := 43.
Definition DOT : N := 46.

End Text.
Export Text.

(** ** The [json] module *)

Module Json.

(** The values exchanged with [json.dumps] and [json.loads].  A float is
    kept as the literal it was read from: floating-point arithmetic and
    [repr] are outside the model, and so are the size limits of the
    interpreter (depth of recursion, digits of an integer).  The
    functions follow the accelerated scanner and encoder of the
    library, which are the ones in use. *)
Inductive json : Type :=
| JNull
| JBool (b : bool)
| JInt (z : Z)
| JFloat (literal : pystr)
| JStr (s : pystr)
| JArr (items : list json)
| JObj (members : list (pystr * json)).

(** *** [dict] as an insertion-ordered association list *)

Fixpoint dict_get (k : pystr) (d : list (pystr * json)) : option json :=
  match d with
  | [] => None
  | (k', v) :: d' => if str_eqb k k' then Some v else dict_get k d'
  end.

(** [d[k] = v]: an existing key keeps its position. *)
Fixpoint dict_set (k : pystr) (v : json) (d : list (pystr * json))
  : list (pystr * json) :=
  match d with
  | [] => [(k, v)]
  | (k', v') :: d' =>
      if str_eqb k k' then (k, v) :: d' else (k', v') :: dict_set k v d'
  end.

(** [dict(pairs)] *)
Definition dict_of_pairs (pairs : list (pystr * json)) : list (pystr * json) :=
  fold_left (fun d kv => dict_set (fst kv) (snd kv) d) pairs [].

(** *** [json.dumps], default arguments
    ([ensure_ascii=True], separators [', '] and [': ']) *)

Definition hexdigit (d : N) : N :=
  if (d <? 10)%N then (48 + d)%N else (87 + d)%N.

(** ['{0:04x}'.format(n)] for [n < 0x10000] *)
Definition hex4 (n : N) : pystr :=
  [ hexdigit ((n / 4096) mod 16); hexdigit ((n / 256) mod 16);
    hexdigit ((n / 16) mod 16); hexdigit (n mod 16) ]%N.

Definition u_escape (n : N) : pystr := BACKSLASH :: 117%N :: hex4 n.

(** [replace] of [py_encode_basestring_ascii]: the text put for one
    character. *)
Definition escape_char (c : N) : pystr :=
  if (c =? QUOTE)%N then [BACKSLASH; QUOTE]
  else if (c =? BACKSLASH)%N then [BACKSLASH; BACKSLASH]
  else if (c =? 8)%N then [BACKSLASH; 98%N]
  else if (c =? 12)%N then [BACKSLASH; 102%N]
  else if (c =? 10)%N then [BACKSLASH; 110%N]
  else if (c =? 13)%N then [BACKSLASH; 114%N]
  else if (c =? 9)%N then [BACKSLASH; 116%N]
  else if ((32 <=? c) && (c <=? 126))%N then [c]
  else if (c <? 65536)%N then u_escape c
  else
    let n := (c - 65536)%N in
    u_escape (N.lor 55296 (N.land (N.shiftr n 10) 1023))
      ++ u_escape (N.lor 56320 (N.land n 1023)).

Definition encode_basestring_ascii (s : pystr) : pystr :=
  QUOTE :: flat_map escape_char s ++ [QUOTE].

Fixpoint uint_chars (u : Decimal.uint) : pystr :=
  match u with
  | Decimal.Nil => []
  | Decimal.D0 r => 48%N :: uint_chars r
  | Decimal.D1 r => 49%N :: uint_chars r
  | Decimal.D2 r => 50%N :: uint_chars r
  | Decimal.D3 r => 51%N :: uint_chars r
  | Decimal.D4 r => 52%N :: uint_chars r
  | Decimal.D5 r => 53%N :: uint_chars r
  | Decimal.D6 r => 54%N :: uint_chars r
  | Decimal.D7 r => 55%N :: uint_chars r
  | Decimal.D8 r => 56%N :: uint_chars r
  | Decimal.D9 r => 57%N :: uint_chars r
  end.

(** [int.__repr__] *)
Definition int_repr (z : Z) : pystr :=
  match Z.to_int z with
  | Decimal.Pos u => uint_chars u
  | Decimal.Neg u => MINUS :: uint_chars u
  end.

(** [', '.join(parts)] *)
Fixpoint join_comma (parts : list pystr) : pystr :=
  match parts with
  | [] => []
  | [p] => p
  | p :: ps => p ++ COMMA :: SPACE :: join_comma ps
  end.

Fixpoint dumps (v : json) : pystr :=
  match v with
  | JNull => lit "null"
  | JBool true => lit "true"
  | JBool false => lit "false"
  | JInt z => int_repr z
  | JFloat l => l
  | JStr s => encode_basestring_ascii s
  | JArr items => LBRACKET :: join_comma (map dumps items) ++ [RBRACKET]
  | JObj members =>
      LBRACE ::
        join_comma
          (map (fun kv => encode_basestring_ascii (fst kv)
                            ++ COLON :: SPACE :: dumps (snd kv)) members)
        ++ [RBRACE]
  end.

(** *** [json.loads], default arguments ([strict=True]) *)

Definition is_ws (c : N) : bool :=
  ((c =? 32) || (c =? 9) || (c =? 10) || (c =? 13))%N.

(** [WHITESPACE.match(s, idx).end()] *)
Fixpoint skip_ws (s : pystr) : pystr :=
  match s with
  | c :: r => if is_ws c then skip_ws r else s
  | [] => []
  end.

Definition is_digit (c : N) : bool := ((48 <=? c) && (c <=? 57))%N.

Definition hexval (c : N) : option N :=
  if is_digit c then Some (c - 48)%N
  else if ((97 <=? c) && (c <=? 102))%N then Some (c - 87)%N
  else if ((65 <=? c) && (c <=? 70))%N then Some (c - 55)%N
  else None.

(** Four hexadecimal digits, as after [\u]. *)
Definition scan_hex4 (s : pystr) : option (N * pystr) :=
  match s with
  | a :: b :: c :: d :: r =>
      match hexval a, hexval b, hexval c, hexval d with
      | Some x, Some y, Some z, Some w =>
          Some ((((x * 16 + y) * 16 + z) * 16 + w)%N, r)
      | _, _, _, _ => None
      end
  | _ => None
  end.

Definition is_high_surrogate (c : N) : bool := ((55296 <=? c) && (c <=? 56319))%N.
Definition is_low_surrogate (c : N) : bool := ((56320 <=? c) && (c <=? 57343))%N.

(** [scanstring(s, end, strict=True)], entered after the opening quote:
    the decoded string and the text after the closing quote.  The
    recursion is on [fuel], which [scanstring] takes as the length of
    its input. *)
Fixpoint scanstring_aux (fuel : nat) (s : pystr) : option (pystr * pystr) :=
  match fuel with
  | O => None
  | S f =>
      match s with
      | [] => None
      | c :: r =>
          if (c =? QUOTE)%N then Some ([], r)
          else if (c =? BACKSLASH)%N then
            match r with
            | [] => None
            | e :: r1 =>
                let simple (x : N) :=
                  match scanstring_aux f r1 with
                  | Some (str, rest) => Some (x :: str, rest)
                  | None => None
                  end in
                if (e =? QUOTE)%N then simple QUOTE
                else if (e =? BACKSLASH)%N then simple BACKSLASH
                else if (e =? SLASH)%N then simple SLASH
                else if (e =? 98)%N then simple 8%N
                else if (e =? 102)%N then simple 12%N
                else if (e =? 110)%N then simple 10%N
                else if (e =? 114)%N then simple 13%N
                else if (e =? 116)%N then simple 9%N
                else if (e =? 117)%N then
                  match scan_hex4 r1 with
                  | None => None
                  | Some (uni, r2) =>
                      let single :=
                        match scanstring_aux f r2 with
                        | Some (str, rest) => Some (uni :: str, rest)
                        | None => None
                        end in
                      if is_high_surrogate uni then
                        match r2 with
                        | b :: u :: r3 =>
                            if ((b =? BACKSLASH) && (u =? 117))%N then
                              match scan_hex4 r3 with
                              | None => None
                              | Some (uni2, r4) =>
                                  if is_low_surrogate uni2 then
                                    match scanstring_aux f r4 with
                                    | Some (str, rest) =>
                                        Some ((65536 + N.lor (N.shiftl (uni - 55296) 10)
                                                            (uni2 - 56320))%N :: str,
                                              rest)
                                    | None => None
                                    end
                                  else single
                              end
                            else single
                        | _ => single
                        end
                      else single
                  end
                else None
            end
          else if (c <? 32)%N then None
          else
            match scanstring_aux f r with
            | Some (str, rest) => Some (c :: str, rest)
            | None => None
            end
      end
  end.

Definition scanstring (s : pystr) : option (pystr * pystr) :=
  scanstring_aux (S (List.length s)) s.

(** The longest prefix of decimal digits, and what follows it. *)
Fixpoint span_digits (s : pystr) : pystr * pystr :=
  match s with
  | c :: r =>
      if is_digit c then let (ds, rest) := span_digits r in (c :: ds, rest)
      else ([], s)
  | [] => ([], [])
  end.

Fixpoint uint_of_chars (ds : pystr) : Decimal.uint :=
  match ds with
  | [] => Decimal.Nil
  | c :: r =>
      let u := uint_of_chars r in
      if (c =? 48)%N then Decimal.D0 u
      else if (c =? 49)%N then Decimal.D1 u
      else if (c =? 50)%N then Decimal.D2 u
      else if (c =? 51)%N then Decimal.D3 u
      else if (c =? 52)%N then Decimal.D4 u
      else if (c =? 53)%N then Decimal.D5 u
      else if (c =? 54)%N then Decimal.D6 u
      else if (c =? 55)%N then Decimal.D7 u
      else if (c =? 56)%N then Decimal.D8 u
      else Decimal.D9 u
  end.

(** The integer part of [NUMBER_RE] (an optional minus sign, then a
    single zero or a digit run that does not start with zero): sign,
    digits, rest. *)
Definition scan_integer (s : pystr) : option (bool * pystr * pystr) :=
  let (neg, s1) :=
    match s with
    | c :: r => if (c =? MINUS)%N then (true, r) else (false, s)
    | [] => (false, s)
    end in
  match s1 with
  | c :: r =>
      if (c =? 48)%N then Some (neg, [c], r)
      else if is_digit c then
        let (ds, rest) := span_digits r in Some (neg, c :: ds, rest)
      else None
  | [] => None
  end.

(** The optional fraction: a dot and at least one digit. *)
Definition scan_frac (s : pystr) : pystr * pystr :=
  match s with
  | p :: d :: r =>
      if ((p =? DOT)%N && is_digit d)%bool then
        let (ds, rest) := span_digits r in (p :: d :: ds, rest)
      else ([], s)
  | _ => ([], s)
  end.

(** The optional exponent: [e] or [E], an optional sign, at least one
    digit; without a digit the scanner backtracks. *)
Definition scan_exp (s : pystr) : pystr * pystr :=
  match s with
  | e :: r =>
      if ((e =? 101) || (e =? 69))%N then
        let (sign, r1) :=
          match r with
          | c :: r' => if ((c =? MINUS) || (c =? PLUS))%N then ([c], r') else ([], r)
          | [] => ([], r)
          end in
        match span_digits r1 with
        | ([], _) => ([], s)
        | (ds, rest) => (e :: sign ++ ds, rest)
        end
      else ([], s)
  | [] => ([], s)
  end.

(** [match_number] and the conversion of its groups. *)
Definition scan_number (s : pystr) : option (json * pystr) :=
  match scan_integer s with
  | None => None
  | Some (neg, ds, r0) =>
      let (frac, r1) := scan_frac r0 in
      let (exp, r2) := scan_exp r1 in
      match frac, exp with
      | [], [] =>
          let u := uint_of_chars ds in
          Some (JInt (Z.of_int (if neg then Decimal.Neg u else Decimal.Pos u)), r2)
      | _, _ =>
          Some (JFloat ((if neg then [MINUS] else []) ++ ds ++ frac ++ exp), r2)
      end
  end.

(** [s] without the prefix [p], when it starts with it. *)
Fixpoint strip_prefix (p s : pystr) : option pystr :=
  match p, s with
  | [], _ => Some s
  | x :: p', y :: s' => if (x =? y)%N then strip_prefix p' s' else None
  | _ :: _, [] => None
  end.

(** The constants and numbers of [_scan_once]. *)
Definition scan_atom (s : pystr) : option (json * pystr) :=
  match strip_prefix (lit "null") s with
  | Some r => Some (JNull, r)
  | None =>
  match strip_prefix (lit "true") s with
  | Some r => Some (JBool true, r)
  | None =>
  match strip_prefix (lit "false") s with
  | Some r => Some (JBool false, r)
  | None =>
  match strip_prefix (lit "NaN") s with
  | Some r => Some (JFloat (lit "NaN"), r)
  | None =>
  match strip_prefix (lit "Infinity") s with
  | Some r => Some (JFloat (lit "Infinity"), r)
  | None =>
  match strip_prefix (lit "-Infinity") s with
  | Some r => Some (JFloat (lit "-Infinity"), r)
  | None => scan_number s
  end end end end end end.

(** [_scan_once], [JSONArray] and [JSONObject].  [array_items] is
    entered at the first character of an item and returns the items up
    to the closing bracket; [object_members] is entered after the
    opening quote of a key and returns the pairs up to the closing
    brace.  An exhausted [fuel] is reported as a failure; [loads] gives
    more fuel than its input has characters. *)
Fixpoint scan_once (fuel : nat) (s : pystr) {struct fuel} : option (json * pystr) :=
  match fuel with
  | O => None
  | S f =>
      match s with
      | [] => None
      | c :: r =>
          if (c =? QUOTE)%N then
            match scanstring r with
            | Some (str, rest) => Some (JStr str, rest)
            | None => None
            end
          else if (c =? LBRACE)%N then
            match skip_ws r with
            | c1 :: r1 =>
                if (c1 =? RBRACE)%N then Some (JObj [], r1)
                else if (c1 =? QUOTE)%N then
                  match object_members f r1 with
                  | Some (pairs, rest) => Some (JObj (dict_of_pairs pairs), rest)
                  | None => None
                  end
                else None
            | [] => None
            end
          else if (c =? LBRACKET)%N then
            match skip_ws r with
            | c1 :: r1 =>
                if (c1 =? RBRACKET)%N then Some (JArr [], r1)
                else
                  match array_items f (c1 :: r1) with
                  | Some (items, rest) => Some (JArr items, rest)
                  | None => None
                  end
            | [] => None
            end
          else scan_atom s
      end
  end

with array_items (fuel : nat) (s : pystr) {struct fuel}
  : option (list json * pystr) :=
  match fuel with
  | O => None
  | S f =>
      match scan_once f s with
      | None => None
      | Some (v, r) =>
          match skip_ws r with
          | c :: r1 =>
              if (c =? RBRACKET)%N then Some ([v], r1)
              else if (c =? COMMA)%N then
                match array_items f (skip_ws r1) with
                | Some (vs, rest) => Some (v :: vs, rest)
                | None => None
                end
              else None
          | [] => None
          end
      end
  end

with object_members (fuel : nat) (s : pystr) {struct fuel}
  : option (list (pystr * json) * pystr) :=
  match fuel with
  | O => None
  | S f =>
      match scanstring s with
      | None => None
      | Some (key, r) =>
          match skip_ws r with
          | c :: r1 =>
              if (c =? COLON)%N then
                match scan_once f (skip_ws r1) with
                | None => None
                | Some (v, r2) =>
                    match skip_ws r2 with
                    | c2 :: r3 =>
                        if (c2 =? RBRACE)%N then Some ([(key, v)], r3)
                        else if (c2 =? COMMA)%N then
                          match skip_ws r3 with
                          | q :: r4 =>
                              if (q =? QUOTE)%N then
                                match object_members f r4 with
                                | Some (kvs, rest) => Some ((key, v) :: kvs, rest)
                                | None => None
                                end
                              else None
                          | [] => None
                          end
                        else None
                    | [] => None
                    end
                end
              else None
          | [] => None
          end
      end
  end.

(** [json.loads(s)] for a [str]: [None] stands for [JSONDecodeError].
    A leading byte-order mark is refused, as in the source library. *)
Definition loads (s : pystr) : option json :=
  if starts_with [65279%N] s then None
  else
    match scan_once (S (List.length s)) (skip_ws s) with
    | Some (v, rest) =>
        match skip_ws rest with
        | [] => Some v
        | _ :: _ => None
        end
    | None => None
    end.

End Json.
Export Json.

(** ** The world the clients run in *)

Module Runtime.

(** A thread of the process; the main thread is [0]. *)
Definition thread := nat.

Inductive exn : Type :=
| JSONDecodeError
| KeyError (key : pystr)
| TypeError
| IndexError
| AttributeError
| UnboundLocalError
| RuntimeError                        (* here: "cannot join current thread" *)
| HTTPError (code : Z) (body : pystr)  (* [urllib.error.HTTPError] *)
| NetworkError (what : pystr)          (* a failure below HTTP *)
| UserError (what : pystr).            (* raised by a caller's callback *)

(** How a call ends: it returns, it raises, or it waits for ever on a
    peer that has nothing more to deliver. *)
Inductive outcome (A : Type) : Type :=
| Ok (a : A)
| Raise (e : exn)
| Blocked.
Arguments Ok {A} a.
Arguments Raise {A} e.
Arguments Blocked {A}.

(** What a [print] call writes. *)
Inductive printed : Type :=
| PText (s : pystr)
| PValue (v : json)
| PTexts (parts : list pystr).

(** An HTTP response: [status_code] and the body ([content]). *)
Record response : Type := mkResponse {
  status_code : Z;
  content : pystr
}.

(** What the HTTP peer does with one request. *)
Inductive reply : Type :=
| Reply (r : response)
| NetFail (e : exn).

(** The callable given to the delivery loop: the bound method
    [self._on_message], or the caller's function, known by how a call
    of it ends. *)
Inductive callback : Type :=
| OnMessage
| UserCallback (f : pystr -> json -> option exn).

Inductive event : Type :=
| EvSend (text : pystr)                 (* [_conn.send(text)] *)
| EvRecv (text : pystr)                 (* [_conn.recv()] returned [text] *)
| EvPrint (what : printed)
| EvSleep (seconds : Z)                 (* [time.sleep] *)
| EvCallback (_id : pystr) (frame : json) (* the caller's callback entered *)
| EvThreadStart (t : thread)
| EvJoin (t : thread)
| EvPost (endpoint body : pystr) (headers : list (pystr * json))
| EvUrlopen (endpoint body : pystr) (headers : list (pystr * json)).

Record world : Type := mkWorld {
  _subscription_running : bool;          (* [self._subscription_running] *)
  _st_id : option thread;                (* [self._st_id] *)
  inbox : list pystr;                   (* frames [_conn.recv] will return *)
  peer : list reply;                    (* answers of the HTTP peer *)
  rand_src : nat -> N;                  (* the random source *)
  rand_pos : nat;                       (* draws made so far *)
  next_thread : thread;
  spawned : list (thread * (callback * pystr)); (* started threads: target arguments *)
  trace : list event                    (* effects so far, oldest first *)
}.

Definition M (A : Type) : Type := world -> outcome A * world.

Definition ret {A} (a : A) : M A := fun w => (Ok a, w).

Definition bind {A B} (m : M A) (k : A -> M B) : M B :=
  fun w =>
    match m w with
    | (Ok a, w') => k a w'
    | (Raise e, w') => (Raise e, w')
    | (Blocked, w') => (Blocked, w')
    end.

Definition raise {A} (e : exn) : M A := fun w => (Raise e, w).

Definition emit (e : event) : M unit :=
  fun w =>
    (Ok tt,
     mkWorld (_subscription_running w) (_st_id w) (inbox w) (peer w) (rand_src w)
       (rand_pos w) (next_thread w) (spawned w) (trace w ++ [e])).

Definition set_running (b : bool) : M unit :=
  fun w =>
    (Ok tt,
     mkWorld b (_st_id w) (inbox w) (peer w) (rand_src w) (rand_pos w)
       (next_thread w) (spawned w) (trace w)).

Definition get_st_id : M (option thread) := fun w => (Ok (_st_id w), w).

Definition set_inbox (q : list pystr) (w : world) : world :=
  mkWorld (_subscription_running w) (_st_id w) q (peer w) (rand_src w)
    (rand_pos w) (next_thread w) (spawned w) (trace w).

Definition set_peer (p : list reply) (w : world) : world :=
  mkWorld (_subscription_running w) (_st_id w) (inbox w) p (rand_src w)
    (rand_pos w) (next_thread w) (spawned w) (trace w).

(** [print(...)] *)
Definition print (p : printed) : M unit := emit (EvPrint p).

(** [time.sleep(seconds)] *)
Definition sleep (seconds : Z) : M unit := emit (EvSleep seconds).

(** [self._conn.send(text)] *)
Definition conn_send (text : pystr) : M unit := emit (EvSend text).

(** [self._conn.recv()]: the next frame of the transport. *)
Definition conn_recv : M pystr :=
  fun w =>
    match inbox w with
    | [] => (Blocked, w)
    | text :: rest => bind (emit (EvRecv text)) (fun _ => ret text) (set_inbox rest w)
    end.

(** [random.choice(seq)] *)
Definition random_choice (seq : pystr) : M N :=
  fun w =>
    match seq with
    | [] => (Raise IndexError, w)
    | c :: _ =>
        let i := N.to_nat (rand_src w (rand_pos w) mod N.of_nat (List.length seq)) in
        (Ok (nth i seq c),
         mkWorld (_subscription_running w) (_st_id w) (inbox w) (peer w)
           (rand_src w) (S (rand_pos w)) (next_thread w) (spawned w) (trace w))
    end.

(** [threading.Thread(target=subs, args=(_cc,))] followed by [start()]:
    the new thread, whose target will run with [_cc] and the [_id] of
    the enclosing call. *)
Definition thread_create (cc : callback) (_id : pystr) : M thread :=
  fun w =>
    let t := next_thread w in
    (Ok t,
     mkWorld (_subscription_running w) (_st_id w) (inbox w) (peer w) (rand_src w)
       (rand_pos w) (S t) ((t, (cc, _id)) :: spawned w) (trace w)).

Definition set_st_id (t : thread) : M unit :=
  fun w =>
    (Ok tt,
     mkWorld (_subscription_running w) (Some t) (inbox w) (peer w) (rand_src w)
       (rand_pos w) (next_thread w) (spawned w) (trace w)).

(** [target.join()] called by thread [me].  Joining the calling thread
    raises [RuntimeError]; [None] has no [join].  A join of another
    thread returns when that thread has ended: the join is recorded, and
    the steps the other thread still takes are not interleaved here. *)
Definition thread_join (me : thread) (target : option thread) : M unit :=
  match target with
  | None => raise AttributeError
  | Some t => if Nat.eqb t me then raise RuntimeError else emit (EvJoin t)
  end.

(** [json.loads(text)] inside a method *)
Definition json_loads (text : pystr) : M json :=
  match loads text with
  | Some v => ret v
  | None => raise JSONDecodeError
  end.

(** [v[key]] for a [str] key *)
Definition subscript (v : json) (key : pystr) : M json :=
  match v with
  | JObj members =>
      match dict_get key members with
      | Some x => ret x
      | None => raise (KeyError key)
      end
  | _ => raise TypeError
  end.

(** [v == s] for a [str] literal [s] *)
Definition is_str (v : json) (s : pystr) : bool :=
  match v with
  | JStr s' => str_eqb s' s
  | _ => false
  end.

(** The session's [post]: the peer's next answer. *)
Definition session_post (endpoint body : pystr) (headers : list (pystr * json))
  : M response :=
  bind (emit (EvPost endpoint body headers)) (fun _ w =>
    match peer w with
    | [] => (Blocked, w)
    | Reply r :: rest => (Ok r, set_peer rest w)
    | NetFail e :: rest => (Raise e, set_peer rest w)
    end).

(** [urllib.request.urlopen]: a final status outside [200..299] is
    raised as [HTTPError] by the opener.  An answer of the peer is a
    final one, after the redirections the opener follows. *)
Definition urlopen (endpoint body : pystr) (headers : list (pystr * json))
  : M response :=
  bind (emit (EvUrlopen endpoint body headers)) (fun _ w =>
    match peer w with
    | [] => (Blocked, w)
    | Reply r :: rest =>
        if ((200 <=? status_code r) && (status_code r <? 300))%Z
        then (Ok r, set_peer rest w)
        else (Raise (HTTPError (status_code r) (content r)), set_peer rest w)
    | NetFail e :: rest => (Raise e, set_peer rest w)
    end).

(** [bool(req)] of a response: its [ok] property. *)
Definition response_ok (r : response) : bool :=
  negb ((400 <=? status_code r) && (status_code r <? 600))%Z.

End Runtime.
Export Runtime.

Declare Scope py_scope.
Delimit Scope py_scope with py.
Notation "x <- m ;; k" := (bind m (fun x => k))
  (at level 61, m at next level, right associativity) : py_scope.
Notation "m ;; k" := (bind m (fun _ => k))
  (at level 61, right associativity) : py_scope.
Open Scope py_scope.

(** ** [gen_id] *)

Module Ident.

(** [string.ascii_letters + string.digits] *)
Definition ascii_letters : pystr :=
  lit "abcdefghijklmnopqrstuvwxyzABCDEFGHIJKLMNOPQRSTUVWXYZ".
Definition digits : pystr := lit "0123456789".
Definition default_chars : pystr := ascii_letters ++ digits.

(** [''.join(random.choice(chars) for _ in range(n))] *)
Fixpoint gen_id_chars (n : nat) (chars : pystr) : M pystr :=
  match n with
  | O => ret []
  | S k =>
      c <- random_choice chars ;;
      rest <- gen_id_chars k chars ;;
      ret (c :: rest)
  end.

(** [gen_id(size, chars)]; [range(size)] is empty for [size <= 0]. *)
Definition gen_id (size : Z) (chars : pystr) : M pystr :=
  gen_id_chars (Z.to_nat size) chars.

(** [gen_id()] *)
Definition gen_id_default : M pystr := gen_id 6 default_chars.

End Ident.
Export Ident.

(** ** [GraphQLClient] *)

Module Http.

(** The session given to the constructor; its [post] is
    [Runtime.session_post]. *)
Inductive session_obj : Type := Session.

(** The fields of a client.  [auth] holds [token] and [headername],
    which are [None] together at construction and set together by
    [inject_token]. *)
Record GraphQLClient : Type := mkClient {
  endpoint : pystr;
  session : option session_obj;
  auth : option (pystr * pystr)
}.

(** [GraphQLClient(endpoint, session)] *)
Definition init (endpoint : pystr) (session : option session_obj) : GraphQLClient :=
  mkClient endpoint session None.

(** [inject_token(token, headername)] *)
Definition inject_token (self : GraphQLClient) (token headername : pystr)
  : GraphQLClient :=
  mkClient (endpoint self) (session self) (Some (token, headername)).

Definition number_of_trials : nat := 3.

(** The [data] and [headers] built at the start of [_send]. *)
Definition request_data (query variables : json) : json :=
  JObj [(lit "query", query); (lit "variables", variables)].

Definition request_headers (self : GraphQLClient) : list (pystr * json) :=
  let headers := [(lit "Accept", JStr (lit "application/json"));
                  (lit "Content-Type", JStr (lit "application/json"))] in
  match auth self with
  | None => headers
  | Some (token, headername) => dict_set headername (JStr token) headers
  end.

(** The [for n in range(number_of_trials)] loop, with the local [req]
    as it stands when the loop ends or raises. *)
Fixpoint trials (n : nat) (self : GraphQLClient) (body : pystr)
    (headers : list (pystr * json)) (req : option response) (w : world)
  : option response * (outcome unit * world) :=
  match n with
  | O => (req, (Ok tt, w))
  | S k =>
      match session_post (endpoint self) body headers w with
      | (Ok r, w1) =>
          if (status_code r =? 200)%Z then (Some r, (Ok tt, w1))
          else trials k self body headers (Some r) (snd (sleep 1 w1))
      | (Raise e, w1) => (req, (Raise e, w1))
      | (Blocked, w1) => (req, (Blocked, w1))
      end
  end.

(** [req.json()] *)
Definition response_json (req : option response) : M json :=
  match req with
  | Some r => json_loads (content r)
  | None => raise UnboundLocalError
  end.

(** The [except Exception as e] handler of the session path. *)
Definition session_handler (req : option response) (e : exn) : M json :=
  print (PText (lit "Request failed with error:" ++ [10%N])) ;;
  match req with
  | None => raise UnboundLocalError
  | Some r =>
      (if response_ok r then print (PText (content r)) else ret tt) ;;
      print (PText []) ;;
      raise e
  end.

(** The session path of [_send]. *)
Definition send_session (self : GraphQLClient) (body : pystr)
    (headers : list (pystr * json)) : M json :=
  fun w =>
    match trials number_of_trials self body headers None w with
    | (req, (Ok _, w1)) =>
        match response_json req w1 with
        | (Raise e, w2) => session_handler req e w2
        | res => res
        end
    | (req, (Raise e, w1)) => session_handler req e w1
    | (_, (Blocked, w1)) => (Blocked, w1)
    end.

(** The path of [_send] without a session. *)
Definition send_urllib (self : GraphQLClient) (body : pystr)
    (headers : list (pystr * json)) : M json :=
  fun w =>
    match urlopen (endpoint self) body headers w with
    | (Ok response, w1) =>
        (print (PTexts [lit ">>>>"; content response]) ;;
         json_loads (content response)) w1
    | (Raise (HTTPError code page), w1) =>
        (print (PText page) ;; print (PText []) ;; raise (HTTPError code page)) w1
    | (Raise e, w1) => (Raise e, w1)
    | (Blocked, w1) => (Blocked, w1)
    end.

Definition _send (self : GraphQLClient) (query variables : json) : M json :=
  let headers := request_headers self in
  let body := dumps (request_data query variables) in
  match session self with
  | Some _ => send_session self body headers
  | None => send_urllib self body headers
  end.

Definition execute (self : GraphQLClient) (query variables : json) : M json :=
  _send self query variables.

End Http.

(** ** [SubscriptionGraphQLClient] *)

Module Ws.

(** The frames the client builds. *)
Definition conn_init_frame (headers : json) : json :=
  JObj [(lit "type", JStr (lit "connection_init"));
        (lit "payload", JObj [(lit "headers", headers)])].

Definition operation_payload (headers query variables : json) : json :=
  JObj [(lit "headers", headers); (lit "query", query);
        (lit "variables", variables)].

Definition start_frame (_id : pystr) (payload : json) : json :=
  JObj [(lit "id", JStr _id); (lit "type", JStr (lit "start"));
        (lit "payload", payload)].

Definition stop_frame (_id : pystr) : json :=
  JObj [(lit "id", JStr _id); (lit "type", JStr (lit "stop"))].

(** [_on_message(message)] *)
Definition _on_message (message : pystr) : M unit :=
  data <- json_loads message ;;
  ty <- subscript data (lit "type") ;;
  if negb (is_str ty (lit "ka")) then print (PText message) else ret tt.

Definition _conn_init (headers : json) : M unit :=
  conn_send (dumps (conn_init_frame headers)) ;;
  _ <- conn_recv ;;
  ret tt.

Definition _start (payload : json) : M pystr :=
  _id <- gen_id_default ;;
  conn_send (dumps (start_frame _id payload)) ;;
  ret _id.

Definition _stop (_id : pystr) : M pystr :=
  conn_send (dumps (stop_frame _id)) ;;
  conn_recv.

Definition query (query variables headers : json) : M pystr :=
  _conn_init headers ;;
  _id <- _start (operation_payload headers query variables) ;;
  res <- conn_recv ;;
  _ <- _stop _id ;;
  ret res.

(** [stop_subscribe(_id)], called by thread [me]. *)
Definition stop_subscribe (me : thread) (_id : pystr) : M unit :=
  set_running false ;;
  t <- get_st_id ;;
  thread_join me t ;;
  _ <- _stop _id ;;
  ret tt.

(** [_cc(_id, r)].  The bound method [_on_message] takes one argument:
    called with two it raises [TypeError] before its body runs. *)
Definition call_cc (cc : callback) (_id : pystr) (r : json) : M unit :=
  match cc with
  | OnMessage => raise TypeError
  | UserCallback f =>
      emit (EvCallback _id r) ;;
      match f _id r with
      | None => ret tt
      | Some e => raise e
      end
  end.

(** The [while self._subscription_running] loop of [subs], run by
    thread [me].  Every iteration starts with a [recv], so the loop
    takes at most one iteration per frame of the transport; [fuel]
    bounds the iterations and [subs] gives one more than there are
    frames. *)
Fixpoint subs_loop (fuel : nat) (me : thread) (cc : callback) (_id : pystr)
  : M unit :=
  fun w =>
    if _subscription_running w then
      match fuel with
      | O => (Blocked, w)
      | S f =>
          (text <- conn_recv ;;
           r <- json_loads text ;;
           ty <- subscript r (lit "type") ;;
           if is_str ty (lit "error") || is_str ty (lit "complete") then
             print (PValue r) ;;
             stop_subscribe me _id
           else
             (if negb (is_str ty (lit "ka")) then call_cc cc _id r else ret tt) ;;
             sleep 1 ;;
             subs_loop f me cc _id) w
      end
    else (Ok tt, w).

(** [subs(_cc)], the target of the thread started by [subscribe]. *)
Definition subs (me : thread) (cc : callback) (_id : pystr) : M unit :=
  set_running true ;;
  fun w => subs_loop (S (List.length (inbox w))) me cc _id w.

(** [subscribe(query, variables, headers, callback)]; [None] for
    [callback] selects [self._on_message]. *)
Definition subscribe (query variables headers : json)
    (cb : option (pystr -> json -> option exn)) : M pystr :=
  _conn_init headers ;;
  let payload := operation_payload headers query variables in
  let _cc := match cb with None => OnMessage | Some f => UserCallback f end in
  _id <- _start payload ;;
  t <- thread_create _cc _id ;;
  set_st_id t ;;
  emit (EvThreadStart t) ;;
  ret _id.

(** The run of a started thread: its target with its arguments. *)
Definition run_thread (t : thread) : M unit :=
  fun w =>
    match find (fun e => Nat.eqb (fst e) t) (spawned w) with
    | Some (_, (cc, _id)) => subs t cc _id w
    | None => (Raise RuntimeError, w)
    end.

(** The client as its constructor leaves it, on a transport that will
    deliver [frames]. *)
Definition init (frames : list pystr) (src : nat -> N) : world :=
  mkWorld false None frames [] src 0 1 [] [].

End Ws.

(** ** Vocabulary of the statements *)

Module Props.

(** An upper-case letter, a lower-case letter or a digit. *)
Definition alnum (c : N) : bool :=
  (((65 <=? c) && (c <=? 90)) || ((97 <=? c) && (c <=? 122))
   || ((48 <=? c) && (c <=? 57)))%N.

(** The world after [n] more draws from the random source. *)
Definition drawn (n : nat) (w : world) : world :=
  mkWorld (_subscription_running w) (_st_id w) (inbox w) (peer w) (rand_src w)
    (n + rand_pos w) (next_thread w) (spawned w) (trace w).

(** The identifier that [n] draws from [src], starting at draw [pos],
    select in [chars]. *)
Fixpoint drawn_chars (n : nat) (chars : pystr) (src : nat -> N) (pos : nat)
  : pystr :=
  match n with
  | O => []
  | S k =>
      nth (N.to_nat (src pos mod N.of_nat (List.length chars))) chars 0%N
        :: drawn_chars k chars src (S pos)
  end.

(** The [post] events of a trace. *)
Fixpoint posts (tr : list event) : nat :=
  match tr with
  | [] => 0
  | EvPost _ _ _ :: tr' => S (posts tr')
  | _ :: tr' => posts tr'
  end.

(** The identifier [_start] generates in world [w]. *)
Definition next_id (w : world) : pystr :=
  drawn_chars 6 default_chars (rand_src w) (rand_pos w).

(** Modelled from the spec: the frames the server sends are not built
    by the source; section 6 of the specification gives their shape,
    an [id], a [type] and a [payload]. *)
Definition server_frame (_id kind : pystr) (payload : json) : json :=
  JObj [(lit "id", JStr _id); (lit "type", JStr kind); (lit "payload", payload)].

(** Modelled from the spec: the keepalive frame of section 6, which
    has a [type] only. *)
Definition ka_frame : json := JObj [(lit "type", JStr (lit "ka"))].

(** The callback invocations of a trace, in order. *)
Fixpoint callbacks (tr : list event) : list (pystr * json) :=
  match tr with
  | [] => []
  | EvCallback i r :: tr' => (i, r) :: callbacks tr'
  | _ :: tr' => callbacks tr'
  end.

(** The texts sent on the transport, in order. *)
Fixpoint sent (tr : list event) : list pystr :=
  match tr with
  | [] => []
  | EvSend t :: tr' => t :: sent tr'
  | _ :: tr' => sent tr'
  end.

(** [frame['id']] of a received text, when it has one. *)
Definition frame_id (text : pystr) : option json :=
  match loads text with
  | Some (JObj members) => dict_get (lit "id") members
  | _ => None
  end.

(** [frame['type']] of a decoded frame. *)
Definition frame_type (r : json) : option json :=
  match r with
  | JObj members => dict_get (lit "type") members
  | _ => None
  end.

(** [r['type'] == kind] for a decoded frame that has a [type]. *)
Definition type_is (r : json) (kind : pystr) : bool :=
  match frame_type r with
  | Some ty => is_str ty kind
  | None => false
  end.

(** A frame that ends the delivery loop. *)
Definition terminal (r : json) : bool :=
  type_is r (lit "error") || type_is r (lit "complete").

(** What the delivery loop of identifier [_id] may do: it enters the
    callback only with [_id] and a frame that is neither a keepalive
    nor terminal, and it prints only terminal frames. *)
Definition loop_event_ok (_id : pystr) (e : event) : bool :=
  match e with
  | EvCallback i r =>
      str_eqb i _id && negb (type_is r (lit "ka")) && negb (terminal r)
  | EvPrint (PValue r) => terminal r
  | EvPrint _ => false
  | _ => true
  end.

(** A Unicode scalar value: a code point that is not a surrogate. *)
Definition scalar (c : N) : bool :=
  ((c <? 55296) || ((57343 <? c) && (c <? 1114112)))%N.

(** A [str] of scalar values. *)
Definition str_native (s : pystr) : bool := forallb scalar s.

(** Keys that are pairwise different. *)
Fixpoint distinct (keys : list pystr) : bool :=
  match keys with
  | [] => true
  | k :: rest => negb (existsb (str_eqb k) rest) && distinct rest
  end.

(** The values of JSON proper: [None], booleans, integers, strings of
    scalar values, lists, and dicts whose keys are such strings.  (The
    keys of a Python [dict] are pairwise different; floats are outside
    the model.) *)
Fixpoint json_native (v : json) : bool :=
  match v with
  | JNull | JBool _ | JInt _ => true
  | JFloat _ => false
  | JStr s => str_native s
  | JArr items => forallb json_native items
  | JObj members =>
      forallb (fun kv => str_native (fst kv) && json_native (snd kv)) members
      && distinct (map fst members)
  end.

(** The text after a number: not a digit, a dot or an exponent mark. *)
Definition follows_number (rest : pystr) : bool :=
  match rest with
  | [] => true
  | c :: _ => negb (is_digit c || (c =? DOT) || (c =? 101) || (c =? 69))%N
  end.

(** The digits of [Z.to_int]: a single zero, or digits that do not
    start with zero. *)
Definition canonical (u : Decimal.uint) : Prop :=
  u = Decimal.D0 Decimal.Nil
  \/ (u <> Decimal.Nil /\ forall u', u <> Decimal.D0 u').

(** The first character of a dumped value: not white space, not a
    closing bracket, not a byte-order mark. *)
Definition value_start (c : N) : bool :=
  (negb (is_ws c) && negb (c =? RBRACKET) && negb (c =? 65279))%N.

(** [v] is read back from its dump, whatever follows it. *)
Definition reads_back (v : json) : Prop :=
  forall fuel rest,
    List.length (dumps v) <= fuel -> follows_number rest = true ->
    scan_once fuel (dumps v ++ rest) = Some (v, rest).

(** The result of a scan with some fuel is the result with any fuel
    that is at least the number of characters the scan takes. *)
Definition fuel_free {A} (scan : nat -> list N -> option (A * list N)) (f : nat)
  : Prop :=
  forall s a rest,
    scan f s = Some (a, rest) ->
    List.length rest < List.length s
    /\ forall f', List.length s <= f' + List.length rest ->
                  scan f' s = Some (a, rest).

(** The text [dumps] puts for one member of a [dict]. *)
Definition member_text (kv : pystr * json) : pystr :=
  encode_basestring_ascii (fst kv) ++ COLON :: SPACE :: dumps (snd kv).


(** The world with the running flag set to [b]. *)
Definition with_running (b : bool) (w : world) : world :=
  mkWorld b (_st_id w) (inbox w) (peer w) (rand_src w) (rand_pos w)
    (next_thread w) (spawned w) (trace w).

(** The world with the events [es] added to its trace. *)
Definition log (es : list event) (w : world) : world :=
  mkWorld (_subscription_running w) (_st_id w) (inbox w) (peer w) (rand_src w)
    (rand_pos w) (next_thread w) (spawned w) (trace w ++ es).

End Props.
Export Props.

(** ** Sample runs *)

Module Samples.

Definition src (k : nat) : N := N.of_nat (7 * k + 3).

(** The identifier drawn first from [src]. *)
Definition X : pystr := drawn_chars 6 default_chars src 0.

Definition ack : pystr :=
  dumps (JObj [(lit "type", JStr (lit "connection_ack"))]).
Definition data1 : json :=
  server_frame X (lit "data") (JObj [(lit "data", JInt 1)]).
Definition data2 : json :=
  server_frame X (lit "data") (JObj [(lit "data", JInt 2)]).
Definition complete : json := server_frame X (lit "complete") JNull.

(** A caller's callback that returns normally. *)
Definition quiet (_ : pystr) (_ : json) : option exn := None.

Definition operation : json := JStr (lit "subscription { x }").

(** The client before [subscribe], on a transport that acknowledges
    and then delivers data, a keepalive, data and [complete]. *)
Definition w_scenario : world :=
  Ws.init [ack; dumps data1; dumps ka_frame; dumps data2; dumps complete] src.

(** The client before [subscribe], on a transport that acknowledges
    and then delivers [complete]. *)
Definition w_complete : world := Ws.init [ack; dumps complete] src.


End Samples.

(** ** Vocabulary of the further statements *)

Module Observed.

(** The [urlopen] events of a trace. *)
Fixpoint urlopens (tr : list event) : nat :=
  match tr with
  | [] => 0
  | EvUrlopen _ _ _ :: tr' => S (urlopens tr')
  | _ :: tr' => urlopens tr'
  end.

(** The delays of a trace, in order. *)
Fixpoint sleeps (tr : list event) : list Z :=
  match tr with
  | [] => []
  | EvSleep s :: tr' => s :: sleeps tr'
  | _ :: tr' => sleeps tr'
  end.

(** The texts received from the transport, in order. *)
Fixpoint received (tr : list event) : list pystr :=
  match tr with
  | [] => []
  | EvRecv t :: tr' => t :: received tr'
  | _ :: tr' => received tr'
  end.

(** [l1] is [l2] with some elements left out. *)
Inductive subsequence {A : Type} : list A -> list A -> Prop :=
| sub_nil : subsequence [] []
| sub_skip x l1 l2 : subsequence l1 l2 -> subsequence l1 (x :: l2)
| sub_take x l1 l2 : subsequence l1 l2 -> subsequence (x :: l1) (x :: l2).

(** What the session path of [_send] may do for one request: post that
    request, sleep one second, print. *)
Definition session_event_ok (ep body : pystr) (hs : list (pystr * json))
    (e : event) : Prop :=
  match e with
  | EvPost ep' body' hs' => ep' = ep /\ body' = body /\ hs' = hs
  | EvSleep s => s = 1%Z
  | EvPrint _ => True
  | _ => False
  end.

(** A decoded value is a [dict]. *)
Definition is_dict (r : json) : bool :=
  match r with
  | JObj _ => true
  | _ => false
  end.

(** The types of the frames the client sends. *)
Definition client_frame_type (r : json) : bool :=
  type_is r (lit "connection_init") || type_is r (lit "start")
  || type_is r (lit "stop").

(** What a run of the session path of [_send] adds: [new] holds posts
    of the one request, delays of one second and prints; every post
    takes one answer of the peer. *)
Record session_run (ep body : pystr) (hs : list (pystr * json))
    (w w' : world) (new : list event) : Prop := {
  run_trace : trace w' = trace w ++ new;
  run_events : Forall (session_event_ok ep body hs) new;
  run_peer : peer w' = skipn (posts new) (peer w);
  run_sleeps : List.length (sleeps new) <= posts new;
  run_urlopens : urlopens new = 0
}.

(** What a run of the delivery loop of thread [me] and identifier [_id]
    adds, when it goes from [w] to [w'] with outcome [o]: it takes the
    first [k] frames of the transport, enters the callback with
    decodings of some of them, in their order, sends nothing but
    possibly one [stop] frame, and leaves the rest of the client as it
    was. *)
Record loop_run (me : thread) (_id : pystr) (w : world) (o : outcome unit)
    (w' : world) (new : list event) (k : nat) : Prop := {
  lr_trace : trace w' = trace w ++ new;
  lr_inbox : inbox w' = skipn k (inbox w);
  lr_received : received new = firstn k (inbox w);
  lr_callbacks :
    subsequence (map (fun ir => Some (snd ir)) (callbacks new))
      (map loads (firstn k (inbox w)));
  lr_sent :
    sent new = []
    \/ (sent new = [dumps (Ws.stop_frame _id)]
        /\ _subscription_running w' = false
        /\ exists t, _st_id w = Some t /\ t <> me);
  lr_st_id : _st_id w' = _st_id w;
  lr_spawned : spawned w' = spawned w;
  lr_rand : rand_pos w' = rand_pos w;
  lr_peer : peer w' = peer w;
  lr_sleeps : Forall (fun s => s = 1%Z) (sleeps new);
  lr_ok : o = Ok tt -> _subscription_running w' = false;
  lr_ok_other :
    o = Ok tt -> _subscription_running w = true ->
    exists t, _st_id w = Some t /\ t <> me
}.

(** A text that decodes to a frame of the client. *)
Definition client_text (text : pystr) : Prop :=
  exists r, loads text = Some r /\ client_frame_type r = true.

(** The texts sent between [w] and [w'] are all frames of the client. *)
Definition sends_client_frames (w w' : world) : Prop :=
  exists new, trace w' = trace w ++ new /\ Forall client_text (sent new).

End Observed.
Export Observed.

(** ** The mutation documents of [kili/mutations/user/queries.py] *)

Module UserQueries.

Definition nl : N := 10.

(** One line of a literal, with the newline that ends it. *)
Definition line (s : string) : pystr := lit s ++ [nl].

Section Documents.

(** The two fragments are imported from [kili/mutations/user/fragments.py];
    the documents are the f-strings of the module, with the fragment put
    in its place. *)
Variables AUTH_PAYLOAD_FRAGMENT USER_FRAGMENT : pystr.

Definition GQL_SIGN_IN : pystr :=
  (nl :: line "mutation($email: String!, $password: String!) {"
     ++ line "  data: signIn(email: $email password: $password) {")
  ++ lit "    " ++ AUTH_PAYLOAD_FRAGMENT
  ++ (nl :: line "  }"
     ++ line "}").

Definition GQL_CREATE_USER : pystr :=
  (nl :: line "mutation("
     ++ line "    $name: String!"
     ++ line "    $email: String!"
     ++ line "    $password: String!"
     ++ line "    $phone: String"
     ++ line "    $organizationRole: OrganizationRole!"
     ++ line ") {"
     ++ line "  data: createUser(name: $name"
     ++ line "      email: $email"
     ++ line "      password: $password"
     ++ line "      phone: $phone"
     ++ line "      organizationRole: $organizationRole) {")
  ++ lit "    " ++ USER_FRAGMENT
  ++ (nl :: line "  }"
     ++ line "}").

Definition GQL_CREATE_USER_FROM_EMAIL_IF_NOT_EXISTS : pystr :=
  (nl :: line "mutation("
     ++ line "    $name: String!"
     ++ line "    $email: String!"
     ++ line "    $organizationRole: OrganizationRole!"
     ++ line "    $projectID: String!"
     ++ line ") {"
     ++ line "  data: createUserFromEmailIfNotExists(name: $name"
     ++ line "      email: $email"
     ++ line "      organizationRole: $sorganizationRole"
     ++ line "      projectID: $projectID) {")
  ++ lit "    " ++ USER_FRAGMENT
  ++ (nl :: line "  }"
     ++ line "}").

Definition GQL_UPDATE_USER : pystr :=
  (nl :: line "mutation("
     ++ line "    $userID: ID!"
     ++ line "    $name: String!"
     ++ line "    $email: String!"
     ++ line "    $phone: String"
     ++ line "    $organizationRole: OrganizationRole"
     ++ line ") {"
     ++ line "  data: updateUser(userID: $userID"
     ++ line "      name: $name"
     ++ line "      email: $email"
     ++ line "      phone: $phone"
     ++ line "      organizationRole: $organizationRole) {")
  ++ lit "    " ++ USER_FRAGMENT
  ++ (nl :: line "  }"
     ++ line "}").

Definition GQL_UPDATE_PASSWORD : pystr :=
  (nl :: line "mutation("
     ++ line "    $email: String!"
     ++ line "    $oldPassword: String!"
     ++ line "    $newPassword1: String!"
     ++ line "    $newPassword2: String!"
     ++ line ") {"
     ++ line "  data: updatePassword(email: $email"
     ++ line "      oldPassword: $oldPassword"
     ++ line "      newPassword1: $newPassword1"
     ++ line "      newPassword2: $newPassword2) {")
  ++ lit "    " ++ USER_FRAGMENT
  ++ (nl :: line "  }"
     ++ line "}").

Definition GQL_RESET_PASSWORD : pystr :=
  (nl :: line "mutation($email: String!) {"
     ++ line "  data: resetPassword(email: $email) {")
  ++ lit "    " ++ USER_FRAGMENT
  ++ (nl :: line "  }"
     ++ line "}").

Definition GQL_UPDATE_PROPERTIES_IN_USER : pystr :=
  (nl :: line "mutation("
     ++ line "    $email: String!"
     ++ line "    $name: String"
     ++ line "    $organizationId: String"
     ++ line "    $organizationRole: String"
     ++ line "    $activated: Boolean"
     ++ line ") {"
     ++ line "  data: updatePropertiesInUser("
     ++ line "    where: {email: $email}"
     ++ line "    data: {"
     ++ line "      name: $name"
     ++ line "      organizationId: $organizationId"
     ++ line "      organizationRole: $organizationRole"
     ++ line "      activated: $activated"
     ++ line "    }"
     ++ line "  ) {")
  ++ lit "    " ++ USER_FRAGMENT
  ++ (nl :: line "  }"
     ++ line "}").

End Documents.

(** A character of a GraphQL name. *)
Definition name_char (c : N) : bool := alnum c || (c =? 95)%N.

Definition DOLLAR : N := 36.
Definition RPAREN : N := 41.

(** The variables [$name] of a text, in the order of their
    occurrences; [cur] holds the characters of the name being read, last
    first. *)
Fixpoint variables_from (cur : option pystr) (s : pystr) : list pystr :=
  match s with
  | [] =>
      match cur with
      | Some acc => [rev acc]
      | None => []
      end
  | c :: rest =>
      match cur with
      | Some acc =>
          if name_char c then variables_from (Some (c :: acc)) rest
          else rev acc
                 :: (if (c =? DOLLAR)%N then variables_from (Some []) rest
                     else variables_from None rest)
      | None =>
          if (c =? DOLLAR)%N then variables_from (Some []) rest
          else variables_from None rest
      end
  end.

Definition variables (s : pystr) : list pystr := variables_from None s.

(** The text of a document before its first closing parenthesis, which
    ends the variable definitions of these operations, and the text
    after it. *)
Fixpoint definitions_part (s : pystr) : pystr :=
  match s with
  | [] => []
  | c :: rest => if (c =? RPAREN)%N then [] else c :: definitions_part rest
  end.

Fixpoint selection_part (s : pystr) : pystr :=
  match s with
  | [] => []
  | c :: rest => if (c =? RPAREN)%N then rest else selection_part rest
  end.

(** The variables a document declares and the variables it uses. *)
Definition declared (doc : pystr) : list pystr := variables (definitions_part doc).
Definition used (doc : pystr) : list pystr := variables (selection_part doc).

(** A document uses the variables it declares, in the order of their
    declaration, and after them those of the fragment it includes. *)
Definition uses_what_it_declares (doc fragment : pystr) : Prop :=
  used doc = declared doc ++ variables fragment.

End UserQueries.

(** * Verification *)

(** ** Text *)

Module TextFacts.

Lemma str_eqb_refl s : str_eqb s s = true.
Proof. induction s; simpl; auto. now rewrite N.eqb_refl. Qed.

Lemma str_eqb_eq a : forall b, str_eqb a b = true <-> a = b.
Proof.
  induction a as [|x a IH]; destruct b as [|y b]; simpl; split; try congruence.
  - rewrite andb_true_iff, N.eqb_eq, IH. intros [-> ->]; reflexivity.
  - intros H; inversion H; subst. now rewrite N.eqb_refl, str_eqb_refl.
Qed.

End TextFacts.

(** ** The codec: [json.loads] after [json.dumps] *)

Module CodecFacts.
Import TextFacts.
Local Open Scope N_scope.

(** *** Strings *)

Lemma hexval_hexdigit d : d < 16 -> hexval (hexdigit d) = Some d.
Proof.
  intros H.
  assert (In d [0;1;2;3;4;5;6;7;8;9;10;11;12;13;14;15]) as Hin.
  { destruct d as [|p]; [left; reflexivity|].
    do 16 (destruct p as [p|p|]; try (simpl; tauto); try (exfalso; lia)). }
  simpl in Hin.
  repeat (destruct Hin as [<-|Hin]; [reflexivity|]). contradiction.
Qed.

Lemma scan_hex4_hex4 n tail :
  n < 65536 -> scan_hex4 (hex4 n ++ tail) = Some (n, tail).
Proof.
  intros H. unfold hex4, scan_hex4. cbn [app].
  rewrite !hexval_hexdigit by (apply N.mod_lt; discriminate).
  f_equal. f_equal.
  zify. Z.to_euclidean_division_equations. lia.
Qed.

Lemma lor_high_low h a k : a < 2 ^ k -> N.lor (h * 2 ^ k) a = h * 2 ^ k + a.
Proof.
  intros Ha. symmetry.
  assert (Hl : N.land (h * 2 ^ k) a = 0).
  { apply N.bits_inj. intros m. rewrite N.land_spec, N.bits_0.
    destruct (N.lt_ge_cases m k) as [Hm|Hm].
    - rewrite <- N.shiftl_mul_pow2, N.shiftl_spec_low by exact Hm. reflexivity.
    - rewrite <- (N.mod_small a (2 ^ k)) by exact Ha.
      rewrite N.mod_pow2_bits_high by exact Hm. apply andb_false_r. }
  rewrite N.add_nocarry_lxor by exact Hl. now apply N.lxor_lor.
Qed.

Lemma surrogate_high n :
  n < 1048576 ->
  N.lor 55296 (N.land (N.shiftr n 10) 1023) = 55296 + n / 1024.
Proof.
  intros H. change 1023 with (N.ones 10).
  rewrite N.land_ones, N.shiftr_div_pow2.
  change (2 ^ 10) with 1024.
  assert (n / 1024 < 1024) by (apply N.Div0.div_lt_upper_bound; lia).
  rewrite N.mod_small by assumption.
  change 55296 with (54 * 2 ^ 10). now apply lor_high_low.
Qed.

Lemma surrogate_low n :
  N.lor 56320 (N.land n 1023) = 56320 + n mod 1024.
Proof.
  change 1023 with (N.ones 10). rewrite N.land_ones.
  change 56320 with (55 * 2 ^ 10). apply lor_high_low.
  apply N.mod_lt. discriminate.
Qed.

Lemma surrogate_join n :
  N.lor (N.shiftl (55296 + n / 1024 - 55296) 10) (56320 + n mod 1024 - 56320) = n.
Proof.
  rewrite (N.add_comm 55296), (N.add_comm 56320), !N.add_sub.
  rewrite N.shiftl_mul_pow2, lor_high_low by (apply N.mod_lt; discriminate).
  change (2 ^ 10) with 1024. rewrite (N.div_mod n 1024) at 3 by discriminate.
  apply N.add_cancel_r, N.mul_comm.
Qed.

Ltac case_eqb c k :=
  destruct (N.eqb_spec c k) as [?|?]; [subst c|].

(** Scanning the text put for one character gives the character back. *)
Lemma scanstring_escape_char c f tail :
  scalar c = true ->
  scanstring_aux (S f) (escape_char c ++ tail)
  = match scanstring_aux f tail with
    | Some (str, rest) => Some (c :: str, rest)
    | None => None
    end.
Proof.
  intros Hsc. unfold escape_char.
  case_eqb c QUOTE; [reflexivity|].
  case_eqb c BACKSLASH; [reflexivity|].
  case_eqb c 8; [reflexivity|].
  case_eqb c 12; [reflexivity|].
  case_eqb c 10; [reflexivity|].
  case_eqb c 13; [reflexivity|].
  case_eqb c 9; [reflexivity|].
  destruct ((32 <=? c) && (c <=? 126)) eqn:Hprint.
  { apply andb_true_iff in Hprint. destruct Hprint as [Hlo Hhi].
    apply N.leb_le in Hlo.
    cbn [app scanstring_aux].
    destruct (N.eqb_spec c QUOTE); [contradiction|].
    destruct (N.eqb_spec c BACKSLASH); [contradiction|].
    destruct (N.ltb_spec c 32); [lia|]. reflexivity. }
  unfold scalar in Hsc.
  destruct (N.ltb_spec c 65536) as [Hbmp|Hbig].
  - unfold u_escape. cbn [app scanstring_aux].
    change (BACKSLASH =? QUOTE) with false. change (BACKSLASH =? BACKSLASH) with true.
    cbv iota.
    change (117 =? QUOTE) with false. change (117 =? BACKSLASH) with false.
    change (117 =? SLASH) with false. change (117 =? 98) with false.
    change (117 =? 102) with false. change (117 =? 110) with false.
    change (117 =? 114) with false. change (117 =? 116) with false.
    change (117 =? 117) with true. cbv iota.
    rewrite scan_hex4_hex4 by exact Hbmp.
    assert (Hhs : is_high_surrogate c = false).
    { unfold is_high_surrogate.
      destruct (N.ltb_spec c 55296); simpl in Hsc.
      - apply andb_false_iff. left. apply N.leb_gt. assumption.
      - apply andb_true_iff in Hsc. destruct Hsc as [Hsc _].
        apply N.ltb_lt in Hsc. apply andb_false_iff. right. apply N.leb_gt. lia. }
    rewrite Hhs. reflexivity.
  - assert (Hn : c - 65536 < 1048576).
    { destruct (N.ltb_spec c 55296); [lia|]. simpl in Hsc.
      apply andb_true_iff in Hsc. destruct Hsc as [_ Hsc].
      apply N.ltb_lt in Hsc. lia. }
    cbv zeta. rewrite (surrogate_high _ Hn), surrogate_low.
    remember (c - 65536) as m eqn:Hm.
    remember (m / 1024) as a eqn:Hqa. remember (m mod 1024) as b eqn:Hqb.
    assert (Ha : a < 1024) by (subst a; apply N.Div0.div_lt_upper_bound; lia).
    assert (Hb : b < 1024) by (subst b; apply N.mod_lt; discriminate).
    unfold u_escape. rewrite <- app_assoc. cbn [app scanstring_aux].
    change (BACKSLASH =? QUOTE) with false. change (BACKSLASH =? BACKSLASH) with true.
    cbv iota.
    change (117 =? QUOTE) with false. change (117 =? BACKSLASH) with false.
    change (117 =? SLASH) with false. change (117 =? 98) with false.
    change (117 =? 102) with false. change (117 =? 110) with false.
    change (117 =? 114) with false. change (117 =? 116) with false.
    change (117 =? 117) with true. cbv iota.
    rewrite scan_hex4_hex4 by lia.
    assert (Hhs : is_high_surrogate (55296 + a) = true).
    { unfold is_high_surrogate. apply andb_true_iff.
      split; apply N.leb_le; lia. }
    rewrite Hhs. cbn [andb].
    change (BACKSLASH =? BACKSLASH) with true. change (117 =? 117) with true.
    cbn [andb]. rewrite scan_hex4_hex4 by lia.
    assert (Hls : is_low_surrogate (56320 + b) = true).
    { unfold is_low_surrogate. apply andb_true_iff.
      split; apply N.leb_le; lia. }
    rewrite Hls. subst a b. rewrite surrogate_join.
    replace (65536 + m) with c by lia. reflexivity.
Qed.


Lemma escape_char_nonempty c : (0 < List.length (escape_char c))%nat.
Proof.
  unfold escape_char, u_escape.
  repeat match goal with
         | |- context [if ?b then _ else _] => destruct b
         end; simpl; try lia.
Qed.

Lemma flat_map_escape_length s :
  (List.length s <= List.length (flat_map escape_char s))%nat.
Proof.
  induction s as [|c s IH]; simpl; [lia|].
  rewrite length_app. pose proof (escape_char_nonempty c). lia.
Qed.

Lemma scanstring_aux_escaped s : forall f tail,
  str_native s = true -> (List.length s < f)%nat ->
  scanstring_aux f (flat_map escape_char s ++ QUOTE :: tail) = Some (s, tail).
Proof.
  induction s as [|c s IH]; intros f tail Hn Hf.
  - destruct f; [inversion Hf|]. reflexivity.
  - destruct f; [inversion Hf|].
    simpl in Hn. apply andb_true_iff in Hn. destruct Hn as [Hc Hs].
    cbn [flat_map]. rewrite <- app_assoc.
    rewrite (scanstring_escape_char c f _ Hc).
    rewrite IH by (simpl in Hf; auto; lia). reflexivity.
Qed.

Lemma scanstring_escaped s tail :
  str_native s = true ->
  scanstring (flat_map escape_char s ++ QUOTE :: tail) = Some (s, tail).
Proof.
  intros Hn. unfold scanstring. apply scanstring_aux_escaped; [exact Hn|].
  rewrite length_app. pose proof (flat_map_escape_length s). lia.
Qed.

(** *** Integers *)

Lemma uint_of_chars_uint_chars u : uint_of_chars (uint_chars u) = u.
Proof. induction u; simpl; now rewrite ?IHu. Qed.

Lemma uint_chars_digits u : forallb is_digit (uint_chars u) = true.
Proof. induction u; simpl; auto. Qed.

Lemma span_digits_app ds rest :
  forallb is_digit ds = true -> follows_number rest = true ->
  span_digits (ds ++ rest) = (ds, rest).
Proof.
  intros Hd Hr. induction ds as [|c ds IH]; simpl in *.
  - destruct rest as [|c rest]; [reflexivity|]. simpl in Hr.
    destruct (is_digit c) eqn:E; [discriminate|].
    cbn [span_digits]. now rewrite E.
  - apply andb_true_iff in Hd. destruct Hd as [Hc Hd].
    rewrite Hc, (IH Hd). reflexivity.
Qed.

Lemma scan_frac_none rest : follows_number rest = true -> scan_frac rest = ([], rest).
Proof.
  destruct rest as [|p [|d r]]; try reflexivity.
  simpl. intros H. destruct (N.eqb_spec p DOT); [|reflexivity].
  subst p. discriminate H.
Qed.

Lemma scan_exp_none rest : follows_number rest = true -> scan_exp rest = ([], rest).
Proof.
  destruct rest as [|e r]; [reflexivity|]. simpl. intros H.
  apply negb_true_iff in H.
  destruct (e =? 101) eqn:E1; [rewrite !orb_true_r in H; discriminate|].
  destruct (e =? 69) eqn:E2; [rewrite !orb_true_r in H; discriminate|].
  reflexivity.
Qed.

Lemma to_int_canonical z :
  match Z.to_int z with
  | Decimal.Pos u => canonical u
  | Decimal.Neg u => canonical u
  end.
Proof.
  pose proof (DecimalZ.to_of (Z.to_int z)) as H.
  rewrite DecimalZ.of_to in H.
  destruct (Z.to_int z) as [u|u]; simpl in H.
  - injection H as H. unfold Decimal.unorm in H.
    destruct (Decimal.nzhead u) eqn:Hz;
      try (right; split; [congruence|];
           intros u' E; apply (DecimalFacts.nzhead_nonzero u u'); congruence).
    left. congruence.
  - destruct (Decimal.nzhead u) eqn:Hz; try discriminate;
      injection H as H;
      right; (split; [congruence|]);
      intros u' E; apply (DecimalFacts.nzhead_nonzero u u'); congruence.
Qed.

Lemma scan_digits_canonical (neg : bool) (u : Decimal.uint) (rest : pystr) :
  canonical u -> follows_number rest = true ->
  scan_integer ((if neg then [MINUS] else []) ++ uint_chars u ++ rest)
  = Some (neg, uint_chars u, rest).
Proof.
  intros Hc Hr. destruct Hc as [->|[Hnil Hnz]].
  - destruct neg; reflexivity.
  - pose proof (span_digits_app _ _ (uint_chars_digits u) Hr) as Hsp.
    destruct u as [|u|u|u|u|u|u|u|u|u|u];
      try congruence; try (exfalso; eapply Hnz; reflexivity);
      pose proof (span_digits_app _ _ (uint_chars_digits u) Hr) as Hu;
      destruct neg; unfold scan_integer; cbn [uint_chars app];
      cbv beta iota delta [N.eqb Pos.eqb MINUS is_digit N.leb N.compare Pos.compare
                            Pos.compare_cont andb];
      rewrite Hu; reflexivity.
Qed.

Lemma strip_prefix_head x p c s : x <> c -> strip_prefix (x :: p) (c :: s) = None.
Proof. intros H. cbn [strip_prefix]. apply N.eqb_neq in H. now rewrite H. Qed.

Lemma is_digit_bounds c : is_digit c = true -> 48 <= c <= 57.
Proof.
  unfold is_digit. rewrite andb_true_iff, !N.leb_le. auto.
Qed.

(** A text that starts like a number is scanned as a number. *)
Lemma scan_atom_number (neg : bool) (c : N) (tl : pystr) :
  is_digit c = true ->
  scan_atom ((if neg then [MINUS] else []) ++ c :: tl)
  = scan_number ((if neg then [MINUS] else []) ++ c :: tl).
Proof.
  intros Hd. apply is_digit_bounds in Hd. unfold scan_atom.
  change (lit "null") with (110 :: lit "ull").
  change (lit "true") with (116 :: lit "rue").
  change (lit "false") with (102 :: lit "alse").
  change (lit "NaN") with (78 :: lit "aN").
  change (lit "Infinity") with (73 :: lit "nfinity").
  change (lit "-Infinity") with (MINUS :: 73 :: lit "nfinity").
  destruct neg; cbn [app].
  - rewrite !strip_prefix_head by (unfold MINUS; lia).
    cbn [strip_prefix]. change (MINUS =? MINUS) with true. cbv iota.
    destruct (N.eqb_spec 73 c); [lia|]. reflexivity.
  - rewrite !strip_prefix_head by (unfold MINUS; lia). reflexivity.
Qed.

Lemma canonical_head u :
  canonical u -> exists c tl, uint_chars u = c :: tl /\ is_digit c = true.
Proof.
  intros [->|[Hnil _]]; [exists 48, []; auto|].
  destruct u; try congruence; eexists; eexists; split; reflexivity.
Qed.

Lemma int_repr_split z :
  exists (neg : bool) (u : Decimal.uint),
    canonical u
    /\ int_repr z = (if neg then [MINUS] else []) ++ uint_chars u
    /\ Z.of_int (if neg then Decimal.Neg u else Decimal.Pos u) = z.
Proof.
  pose proof (to_int_canonical z) as Hc.
  pose proof (DecimalZ.of_to z) as Hz.
  unfold int_repr. destruct (Z.to_int z) as [u|u].
  - exists false, u. auto.
  - exists true, u. auto.
Qed.

Lemma scan_atom_int z rest :
  follows_number rest = true ->
  scan_atom (int_repr z ++ rest) = Some (JInt z, rest).
Proof.
  intros Hr. destruct (int_repr_split z) as (neg & u & Hc & -> & Hz).
  destruct (canonical_head u Hc) as (c & tl & Hu & Hd).
  rewrite <- app_assoc. rewrite Hu at 1. cbn [app].
  rewrite (scan_atom_number neg c (tl ++ rest) Hd).
  change (c :: tl ++ rest) with ((c :: tl) ++ rest). rewrite <- Hu.
  unfold scan_number. rewrite (scan_digits_canonical neg u rest Hc Hr).
  rewrite (scan_frac_none rest Hr), (scan_exp_none rest Hr).
  rewrite uint_of_chars_uint_chars, Hz. reflexivity.
Qed.

Lemma dumps_head v :
  json_native v = true ->
  exists c tl, dumps v = c :: tl /\ value_start c = true.
Proof.
  destruct v as [|[|]|z|l|s|items|members]; try (intros _; eexists; eexists; split; reflexivity).
  - intros _. destruct (int_repr_split z) as (neg & u & Hc & Hr & _).
    destruct (canonical_head u Hc) as (c & tl & Hu & Hd).
    cbn [dumps]. rewrite Hr, Hu. apply is_digit_bounds in Hd.
    destruct neg; cbn [app]; eexists; eexists; (split; [reflexivity|]).
    + reflexivity.
    + unfold value_start, is_ws, RBRACKET.
      repeat match goal with
             | |- context [c =? ?k] =>
                 let E := fresh in
                 destruct (N.eqb_spec c k) as [E|E]; [exfalso; lia|]
             end. reflexivity.
  - discriminate.
Qed.

(** *** Values *)

(** Induction on a value, with the hypothesis for every item of a list
    and every value of a dict. *)
Lemma json_nested_ind (P : json -> Prop) :
  P JNull -> (forall b, P (JBool b)) -> (forall z, P (JInt z)) ->
  (forall l, P (JFloat l)) -> (forall s, P (JStr s)) ->
  (forall items, Forall P items -> P (JArr items)) ->
  (forall members, Forall (fun kv => P (snd kv)) members -> P (JObj members)) ->
  forall v, P v.
Proof.
  intros Hnull Hbool Hint Hfloat Hstr Harr Hobj.
  fix IH 1. intros [|b|z|l|s|items|members].
  - exact Hnull.
  - apply Hbool.
  - apply Hint.
  - apply Hfloat.
  - apply Hstr.
  - apply Harr. induction items as [|v items IHitems]; constructor.
    + apply IH.
    + exact IHitems.
  - apply Hobj. induction members as [|[k v] members IHm]; constructor.
    + apply IH.
    + exact IHm.
Qed.

(** *** Dicts with distinct keys *)

Lemma str_eqb_sym a b : str_eqb a b = str_eqb b a.
Proof.
  destruct (str_eqb a b) eqn:E.
  - apply str_eqb_eq in E. subst. now rewrite str_eqb_refl.
  - destruct (str_eqb b a) eqn:E'; [|reflexivity].
    apply str_eqb_eq in E'. subst. now rewrite str_eqb_refl in E.
Qed.

Lemma dict_set_fresh k v d :
  existsb (str_eqb k) (map fst d) = false -> dict_set k v d = d ++ [(k, v)].
Proof.
  induction d as [|[k' v'] d IH]; simpl; [reflexivity|].
  intros H. apply orb_false_iff in H. destruct H as [Hk Hd].
  rewrite Hk, (IH Hd). reflexivity.
Qed.

Lemma fold_dict_set_distinct kvs : forall acc,
  distinct (map fst kvs) = true ->
  forallb (fun k => negb (existsb (str_eqb k) (map fst acc))) (map fst kvs) = true ->
  fold_left (fun d kv => dict_set (fst kv) (snd kv) d) kvs acc = acc ++ kvs.
Proof.
  induction kvs as [|[k v] kvs IH]; intros acc Hd Hfresh; simpl.
  - now rewrite app_nil_r.
  - simpl in Hd, Hfresh.
    apply andb_true_iff in Hd. destruct Hd as [Hk Hd].
    apply andb_true_iff in Hfresh. destruct Hfresh as [Hka Hfresh].
    apply negb_true_iff in Hk, Hka.
    rewrite (dict_set_fresh k v acc Hka), IH.
    + now rewrite <- app_assoc.
    + exact Hd.
    + rewrite forallb_forall in *. intros k' Hin.
      rewrite map_app, existsb_app. simpl.
      rewrite (negb_true_iff _) in *. apply orb_false_iff. split.
      * apply negb_true_iff. now apply Hfresh.
      * rewrite orb_false_r.
        destruct (str_eqb k' k) eqn:E; [|reflexivity].
        apply str_eqb_eq in E. subst k'.
        assert (existsb (str_eqb k) (map fst kvs) = true) as Hex.
        { apply existsb_exists. exists k. split; [exact Hin|apply str_eqb_refl]. }
        congruence.
Qed.

Lemma dict_of_pairs_distinct members :
  distinct (map fst members) = true -> dict_of_pairs members = members.
Proof.
  intros H. unfold dict_of_pairs. rewrite fold_dict_set_distinct; auto.
  apply forallb_forall. auto.
Qed.

Lemma skip_ws_value c tl : value_start c = true -> skip_ws (c :: tl) = c :: tl.
Proof.
  unfold value_start. intros H.
  apply andb_true_iff in H. destruct H as [H _].
  apply andb_true_iff in H. destruct H as [H _].
  apply negb_true_iff in H. cbn [skip_ws]. now rewrite H.
Qed.

Lemma skip_ws_dumps v tail :
  json_native v = true -> skip_ws (dumps v ++ tail) = dumps v ++ tail.
Proof.
  intros Hn. destruct (dumps_head v Hn) as (c & tl & -> & Hc).
  cbn [app]. now apply skip_ws_value.
Qed.

Lemma join_comma_cons p ps :
  ps <> [] -> join_comma (p :: ps) = p ++ COMMA :: SPACE :: join_comma ps.
Proof. destruct ps; [congruence|reflexivity]. Qed.

Lemma array_items_dumps items :
  items <> [] ->
  Forall (fun v => json_native v = true /\ reads_back v) items ->
  forall f rest,
    (List.length (join_comma (map dumps items)) < f)%nat ->
    array_items f (join_comma (map dumps items) ++ RBRACKET :: rest)
    = Some (items, rest).
Proof.
  intros Hne Hall. induction Hall as [|v vs [Hn Hv] Hvs IH]; [congruence|].
  intros f rest Hf. destruct f as [|f]; [inversion Hf|].
  destruct vs as [|v2 vs].
  - cbn [map join_comma] in *. cbn [array_items].
    rewrite Hv by (lia || reflexivity).
    cbn [skip_ws is_ws]. reflexivity.
  - rewrite map_cons, join_comma_cons in * by discriminate.
    rewrite length_app in Hf. cbn [List.length] in Hf.
    rewrite <- app_assoc. cbn [app array_items].
    rewrite Hv by (lia || reflexivity).
    change (skip_ws (COMMA :: ?x)) with (COMMA :: x).
    cbv beta iota. change (COMMA =? RBRACKET) with false.
    change (COMMA =? COMMA) with true. cbv iota.
    change (skip_ws (SPACE :: ?x)) with (skip_ws x).
    inversion Hvs as [|? ? [Hn2 _] _]; subst.
    assert (Hsk : forall tail,
               skip_ws (join_comma (map dumps (v2 :: vs)) ++ tail)
               = join_comma (map dumps (v2 :: vs)) ++ tail).
    { intros tail. destruct vs as [|v3 vs].
      - cbn [map join_comma]. now apply skip_ws_dumps.
      - rewrite map_cons, join_comma_cons by discriminate.
        rewrite <- app_assoc. now apply skip_ws_dumps. }
    rewrite Hsk. cbn [map] in *. rewrite IH by (discriminate || lia). reflexivity.
Qed.

Ltac lengths H :=
  repeat first [rewrite length_app in H | progress cbn [List.length] in H].

Lemma member_text_unfold k v :
  member_text (k, v)
  = QUOTE :: flat_map escape_char k ++ QUOTE :: COLON :: SPACE :: dumps v.
Proof.
  unfold member_text, encode_basestring_ascii. cbn [fst snd app].
  now rewrite <- app_assoc.
Qed.

Lemma object_members_dumps members :
  members <> [] ->
  Forall (fun kv => str_native (fst kv) = true
                    /\ json_native (snd kv) = true /\ reads_back (snd kv)) members ->
  forall f rest text,
    join_comma (map member_text members) = QUOTE :: text ->
    (List.length text < f)%nat ->
    object_members f (text ++ RBRACE :: rest) = Some (members, rest).
Proof.
  intros Hne Hall.
  induction Hall as [|[k v] ms (Hk & Hn & Hv) Hms IH]; [congruence|].
  cbn [fst snd] in *.
  intros f rest text Htext Hf. destruct f as [|f]; [inversion Hf|].
  destruct ms as [|kv2 ms].
  - cbn [map join_comma] in Htext. rewrite member_text_unfold in Htext.
    injection Htext as <-.
    lengths Hf.
    rewrite <- app_assoc. cbn [app object_members].
    rewrite (scanstring_escaped k _ Hk).
    change (skip_ws (COLON :: ?x)) with (COLON :: x). cbv beta iota.
    change (COLON =? COLON) with true. cbv iota.
    change (skip_ws (SPACE :: ?x)) with (skip_ws x).
    rewrite (skip_ws_dumps v _ Hn).
    rewrite Hv by (lia || reflexivity).
    reflexivity.
  - destruct kv2 as [k2 v2].
    assert (exists text2, join_comma (map member_text ((k2, v2) :: ms))
                          = QUOTE :: text2) as [text2 Ht2].
    { destruct ms as [|kv3 ms].
      - cbn [map join_comma]. rewrite member_text_unfold. eauto.
      - rewrite map_cons, join_comma_cons by discriminate.
        rewrite member_text_unfold. cbn [app]. eauto. }
    rewrite map_cons, join_comma_cons in Htext by discriminate.
    rewrite Ht2, member_text_unfold in Htext. cbn [app] in Htext.
    injection Htext as <-.
    lengths Hf.
    rewrite <- !app_assoc. cbn [app]. rewrite <- ?app_assoc. cbn [app object_members].
    rewrite (scanstring_escaped k _ Hk).
    change (skip_ws (COLON :: ?x)) with (COLON :: x). cbv beta iota.
    change (COLON =? COLON) with true. cbv iota.
    change (skip_ws (SPACE :: ?x)) with (skip_ws x).
    rewrite (skip_ws_dumps v _ Hn).
    rewrite Hv by (lia || reflexivity).
    change (skip_ws (COMMA :: ?x)) with (COMMA :: x). cbv beta iota.
    change (COMMA =? RBRACE) with false. change (COMMA =? COMMA) with true.
    cbv iota.
    change (skip_ws (SPACE :: QUOTE :: ?x)) with (QUOTE :: x). cbv beta iota.
    change (QUOTE =? QUOTE) with true. cbv iota.
    rewrite (IH ltac:(discriminate) f rest text2 Ht2) by lia.
    reflexivity.
Qed.

Lemma json_native_obj members :
  json_native (JObj members) = true ->
  Forall (fun kv => str_native (fst kv) = true /\ json_native (snd kv) = true) members
  /\ distinct (map fst members) = true.
Proof.
  cbn [json_native]. rewrite andb_true_iff, forallb_forall, Forall_forall.
  intros [H Hd]. split; [|exact Hd].
  intros kv Hin. apply andb_true_iff. now apply H.
Qed.

Lemma json_native_arr items :
  json_native (JArr items) = true ->
  Forall (fun v => json_native v = true) items.
Proof.
  cbn [json_native]. rewrite forallb_forall, Forall_forall. auto.
Qed.

Lemma Forall_and {A} (P Q : A -> Prop) l :
  Forall P l -> Forall Q l -> Forall (fun x => P x /\ Q x) l.
Proof. induction 1; inversion 1; subst; constructor; auto. Qed.

(** Every JSON value is read back from its dump. *)
Lemma scan_once_dumps v : json_native v = true -> reads_back v.
Proof.
  induction v as [|b|z|l|s|items IH|members IH] using json_nested_ind;
    intros Hn fuel rest Hf Hr.
  - destruct fuel; [inversion Hf|]. reflexivity.
  - destruct fuel; [destruct b; inversion Hf|]. destruct b; reflexivity.
  - destruct (dumps_head (JInt z) eq_refl) as (c & tl & Hd & Hc).
    destruct fuel; [rewrite Hd in Hf; inversion Hf|].
    pose proof (scan_atom_int z rest Hr) as Ha.
    cbn [dumps] in *. rewrite Hd in *. cbn [app scan_once] in *.
    destruct (int_repr_split z) as (neg & u & Hcan & Hrep & _).
    destruct (canonical_head u Hcan) as (d & tl' & Hu & Hdig).
    rewrite Hd, Hu in Hrep. apply is_digit_bounds in Hdig.
    assert (c <> QUOTE /\ c <> LBRACE /\ c <> LBRACKET) as (H1 & H2 & H3).
    { unfold QUOTE, LBRACE, LBRACKET.
      destruct neg; cbn [app] in Hrep; injection Hrep as -> _;
        unfold MINUS; repeat split; lia. }
    apply N.eqb_neq in H1, H2, H3. rewrite H1, H2, H3. exact Ha.
  - discriminate.
  - destruct fuel; [inversion Hf|].
    cbn [dumps json_native] in *. unfold encode_basestring_ascii.
    cbn [app scan_once]. change (QUOTE =? QUOTE) with true. cbv iota.
    rewrite <- app_assoc. cbn [app].
    rewrite (scanstring_escaped s rest Hn). reflexivity.
  - destruct fuel; [inversion Hf|].
    pose proof (json_native_arr items Hn) as Hall.
    cbn [dumps] in *. cbn [app scan_once].
    change (LBRACKET =? QUOTE) with false. change (LBRACKET =? LBRACE) with false.
    change (LBRACKET =? LBRACKET) with true. cbv iota.
    rewrite <- app_assoc. cbn [app].
    destruct items as [|v items]; [reflexivity|].
    assert (Hall' : Forall (fun v => json_native v = true /\ reads_back v)
                      (v :: items)).
    { apply Forall_and; [exact Hall|].
      rewrite Forall_forall in *. intros x Hx. apply IH; auto. }
    assert (Hhead : exists c tl,
               join_comma (map dumps (v :: items)) = c :: tl
               /\ value_start c = true).
    { inversion Hall as [|? ? Hv _]; subst.
      destruct (dumps_head v Hv) as (c & tl & Hd & Hc).
      destruct items as [|v2 items].
      - cbn [map join_comma]. eauto.
      - rewrite map_cons, join_comma_cons by discriminate.
        rewrite Hd. cbn [app]. eauto. }
    destruct Hhead as (c & tl & Hj & Hc).
    pose proof (array_items_dumps (v :: items) ltac:(discriminate) Hall'
                  fuel rest) as Hitems.
    cbn [List.length] in Hf. rewrite length_app in Hf. cbn [List.length] in Hf.
    rewrite Hj in *. cbn [app] in *.
    rewrite (skip_ws_value c _ Hc).
    assert (Hnb : (c =? RBRACKET) = false).
    { unfold value_start in Hc. apply andb_true_iff in Hc. destruct Hc as [Hc _].
      apply andb_true_iff in Hc. destruct Hc as [_ Hc].
      now apply negb_true_iff in Hc. }
    rewrite Hnb, Hitems by lia. reflexivity.
  - destruct fuel; [inversion Hf|].
    destruct (json_native_obj members Hn) as [Hall Hdist].
    cbn [dumps] in *. cbn [app scan_once].
    change (LBRACE =? QUOTE) with false. change (LBRACE =? LBRACE) with true.
    cbv iota. rewrite <- app_assoc. cbn [app].
    destruct members as [|kv members]; [reflexivity|].
    assert (Hall' : Forall (fun kv => str_native (fst kv) = true
                                      /\ json_native (snd kv) = true
                                      /\ reads_back (snd kv)) (kv :: members)).
    { rewrite Forall_forall in *. intros x Hx.
      destruct (Hall x Hx) as [Hk Hv]. auto. }
    assert (exists text, join_comma (map member_text (kv :: members))
                         = QUOTE :: text) as [text Ht].
    { destruct kv as [k v]. destruct members as [|kv2 members].
      - cbn [map join_comma]. rewrite member_text_unfold. eauto.
      - rewrite map_cons, join_comma_cons by discriminate.
        rewrite member_text_unfold. cbn [app]. eauto. }
    pose proof (object_members_dumps (kv :: members) ltac:(discriminate) Hall'
                  fuel rest text Ht) as Hm.
    change (fun kv0 : pystr * json =>
              encode_basestring_ascii (fst kv0)
              ++ COLON :: SPACE :: dumps (snd kv0)) with member_text in *.
    cbn [List.length] in Hf. rewrite length_app in Hf. cbn [List.length] in Hf.
    rewrite Ht in *. cbn [List.length] in Hf. cbn [app].
    change (skip_ws (QUOTE :: ?x)) with (QUOTE :: x). cbv beta iota.
    change (QUOTE =? RBRACE) with false. change (QUOTE =? QUOTE) with true.
    cbv iota. rewrite Hm by lia.
    rewrite (dict_of_pairs_distinct _ Hdist). reflexivity.
Qed.

(** [json.loads(json.dumps(v)) == v] for every JSON value. *)
Lemma loads_dumps v : json_native v = true -> loads (dumps v) = Some v.
Proof.
  intros Hn. unfold loads.
  destruct (dumps_head v Hn) as (c & tl & Hd & Hc).
  assert (Hbom : starts_with [65279] (dumps v) = false).
  { rewrite Hd. cbn [starts_with]. unfold value_start in Hc.
    apply andb_true_iff in Hc. destruct Hc as [_ Hc].
    apply negb_true_iff in Hc. rewrite N.eqb_sym, Hc. reflexivity. }
  rewrite Hbom. rewrite <- (app_nil_r (dumps v)) at 2.
  rewrite (skip_ws_dumps v [] Hn).
  rewrite (scan_once_dumps v Hn) by (rewrite ?app_nil_r; auto; reflexivity).
  reflexivity.
Qed.

(** *** Fuel *)

Lemma skip_ws_length s : (List.length (skip_ws s) <= List.length s)%nat.
Proof.
  induction s as [|c s IH]; simpl; [lia|].
  destruct (is_ws c); simpl; lia.
Qed.

Lemma span_digits_length s :
  (List.length (snd (span_digits s)) <= List.length s)%nat.
Proof.
  induction s as [|c s IH]; simpl; [lia|].
  destruct (is_digit c); [|simpl; lia].
  destruct (span_digits s); simpl in *. lia.
Qed.

Lemma scan_hex4_length s n r :
  scan_hex4 s = Some (n, r) -> (List.length r + 4 = List.length s)%nat.
Proof.
  unfold scan_hex4. destruct s as [|a [|b [|c [|d r0]]]]; try discriminate.
  destruct (hexval a), (hexval b), (hexval c), (hexval d); try discriminate.
  intros H. injection H as _ <-. simpl. lia.
Qed.

Ltac split_match H :=
  match type of H with
  | context [if ?b then _ else _] => destruct b eqn:?
  | context [match ?x with _ => _ end] => destruct x eqn:?
  end; try discriminate H.

(** What [scanstring] leaves is shorter than what it was given. *)
Lemma scanstring_aux_length f : forall s str rest,
  scanstring_aux f s = Some (str, rest) -> (List.length rest < List.length s)%nat.
Proof.
  induction f as [|f IH]; intros s str rest H; [discriminate|].
  cbn [scanstring_aux] in H.
  repeat split_match H; subst;
    repeat match goal with
           | E : scanstring_aux f _ = Some _ |- _ => apply IH in E
           | E : scan_hex4 _ = Some _ |- _ => apply scan_hex4_length in E
           end;
    try (injection H as _ <-); cbn [List.length] in *; try lia.
Qed.

(** With more fuel than characters, [scanstring_aux] gives the result
    that any fuel gives. *)
Lemma scanstring_aux_fuel f : forall s r f',
  scanstring_aux f s = Some r -> (List.length s < f')%nat ->
  scanstring_aux f' s = Some r.
Proof.
  induction f as [|f IH]; intros s r f' H Hf; [discriminate|].
  destruct f' as [|f']; [lia|].
  cbn [scanstring_aux] in H |- *.
  repeat split_match H; subst;
    repeat match goal with
           | E : scan_hex4 _ = Some _ |- _ =>
               pose proof (scan_hex4_length _ _ _ E); rewrite ?E; clear E
           end;
    cbn [List.length] in *;
    repeat match goal with
           | E : scanstring_aux f ?x = Some _ |- _ =>
               rewrite (IH x _ f' E) by (cbn [List.length]; lia); clear E
           end;
    try exact H; try reflexivity.
Qed.

Lemma scanstring_fuel_enough s f r :
  scanstring_aux f s = Some r -> scanstring s = Some r.
Proof. intros H. apply (scanstring_aux_fuel f s r _ H). lia. Qed.

Lemma scanstring_length s str rest :
  scanstring s = Some (str, rest) -> (List.length rest < List.length s)%nat.
Proof. apply scanstring_aux_length. Qed.

Lemma strip_prefix_length p : forall s r,
  strip_prefix p s = Some r -> (List.length r + List.length p = List.length s)%nat.
Proof.
  induction p as [|x p IH]; intros s r H; simpl in *.
  - injection H as <-. lia.
  - destruct s as [|y s]; [discriminate|].
    destruct (x =? y); [|discriminate]. apply IH in H. simpl. lia.
Qed.

Lemma scan_number_length s v r :
  scan_number s = Some (v, r) -> (List.length r < List.length s)%nat.
Proof.
  unfold scan_number.
  destruct (scan_integer s) as [[[neg ds] r0]|] eqn:Hi; [|discriminate].
  assert (H0 : (List.length r0 < List.length s)%nat).
  { unfold scan_integer in Hi.
    destruct s as [|c s1]; [discriminate|].
    destruct (c =? MINUS).
    - destruct s1 as [|c1 s2]; [discriminate|].
      destruct (c1 =? 48); [injection Hi as _ _ <-; simpl; lia|].
      destruct (is_digit c1); [|discriminate].
      pose proof (span_digits_length s2).
      destruct (span_digits s2). injection Hi as _ _ <-. simpl in *. lia.
    - destruct (c =? 48); [injection Hi as _ _ <-; simpl; lia|].
      destruct (is_digit c); [|discriminate].
      pose proof (span_digits_length s1).
      destruct (span_digits s1). injection Hi as _ _ <-. simpl in *. lia. }
  assert (H1 : (List.length (snd (scan_frac r0)) <= List.length r0)%nat).
  { unfold scan_frac. destruct r0 as [|p [|d r1]]; simpl; try lia.
    destruct ((p =? DOT) && is_digit d); [|simpl; lia].
    pose proof (span_digits_length r1). destruct (span_digits r1). simpl in *. lia. }
  destruct (scan_frac r0) as [frac r1]. simpl in H1.
  assert (H2 : (List.length (snd (scan_exp r1)) <= List.length r1)%nat).
  { unfold scan_exp. destruct r1 as [|e r2]; simpl; try lia.
    destruct ((e =? 101) || (e =? 69)); [|simpl; lia].
    destruct r2 as [|c r3].
    - simpl. lia.
    - destruct ((c =? MINUS) || (c =? PLUS)).
      + pose proof (span_digits_length r3).
        destruct (span_digits r3) as [[|d ds'] r4]; simpl in *; lia.
      + pose proof (span_digits_length (c :: r3)).
        destruct (span_digits (c :: r3)) as [[|d ds'] r4]; simpl in *; lia. }
  destruct (scan_exp r1) as [exp r2]. simpl in H2.
  intros H. destruct frac, exp; injection H as _ <-; lia.
Qed.

Lemma scan_atom_length s v r :
  scan_atom s = Some (v, r) -> (List.length r < List.length s)%nat.
Proof.
  unfold scan_atom. intros H.
  repeat match type of H with
         | context [strip_prefix ?p s] =>
             let E := fresh "E" in
             destruct (strip_prefix p s) eqn:E;
             [apply strip_prefix_length in E; injection H as _ <-;
              cbn [lit List.length map list_ascii_of_string] in E; lia|]
         end.
  now apply (scan_number_length s v r).
Qed.

Lemma scan_fuel_free f :
  fuel_free scan_once f /\ fuel_free array_items f /\ fuel_free object_members f.
Proof.
  induction f as [|f (IHv & IHa & IHo)].
  { split; [|split]; intros s a rest H; discriminate H. }
  split; [|split]; intros s a rest H.
  - (* scan_once *)
    cbn [scan_once] in H.
    destruct s as [|c r]; [discriminate|].
    destruct (c =? QUOTE) eqn:Eq.
    { destruct (scanstring r) as [[str rest']|] eqn:Es; [|discriminate].
      injection H as <- <-. pose proof (scanstring_length _ _ _ Es).
      split; [simpl; lia|]. intros f' Hf'.
      destruct f' as [|f']; [simpl in *; lia|].
      cbn [scan_once]. now rewrite Eq, Es. }
    destruct (c =? LBRACE) eqn:Eb.
    { pose proof (skip_ws_length r) as Hws.
      destruct (skip_ws r) as [|c1 r1] eqn:Ew; [discriminate|].
      destruct (c1 =? RBRACE) eqn:E1.
      { injection H as <- <-. simpl in *. split; [lia|]. intros f' Hf'.
        destruct f' as [|f']; [lia|].
        cbn [scan_once]. now rewrite Eq, Eb, Ew, E1. }
      destruct (c1 =? QUOTE) eqn:E2; [|discriminate].
      destruct (object_members f r1) as [[pairs rest']|] eqn:Eo; [|discriminate].
      injection H as <- <-. destruct (IHo _ _ _ Eo) as [Hlen Hfuel].
      simpl in *. split; [lia|]. intros f' Hf'.
      destruct f' as [|f']; [lia|].
      cbn [scan_once]. rewrite Eq, Eb, Ew, E1, E2, Hfuel by lia. reflexivity. }
    destruct (c =? LBRACKET) eqn:Ek.
    { pose proof (skip_ws_length r) as Hws.
      destruct (skip_ws r) as [|c1 r1] eqn:Ew; [discriminate|].
      destruct (c1 =? RBRACKET) eqn:E1.
      { injection H as <- <-. simpl in *. split; [lia|]. intros f' Hf'.
        destruct f' as [|f']; [lia|].
        cbn [scan_once]. now rewrite Eq, Eb, Ek, Ew, E1. }
      destruct (array_items f (c1 :: r1)) as [[items rest']|] eqn:Ea; [|discriminate].
      injection H as <- <-. destruct (IHa _ _ _ Ea) as [Hlen Hfuel].
      simpl in *. split; [lia|]. intros f' Hf'.
      destruct f' as [|f']; [lia|].
      cbn [scan_once]. rewrite Eq, Eb, Ek, Ew, E1, Hfuel by (simpl; lia).
      reflexivity. }
    pose proof (scan_atom_length _ _ _ H) as Hlen. split; [exact Hlen|].
    intros f' Hf'. destruct f' as [|f']; [lia|].
    cbn [scan_once]. now rewrite Eq, Eb, Ek.
  - (* array_items *)
    cbn [array_items] in H.
    destruct (scan_once f s) as [[v r]|] eqn:Ev; [|discriminate].
    destruct (IHv _ _ _ Ev) as [Hlen Hfuel].
    pose proof (skip_ws_length r) as Hws.
    destruct (skip_ws r) as [|c r1] eqn:Ew; [discriminate|].
    destruct (c =? RBRACKET) eqn:E1.
    { injection H as <- <-. simpl in *. split; [lia|]. intros f' Hf'.
      destruct f' as [|f']; [lia|].
      cbn [array_items]. rewrite Hfuel, Ew, E1 by lia. reflexivity. }
    destruct (c =? COMMA) eqn:E2; [|discriminate].
    pose proof (skip_ws_length r1) as Hws1.
    destruct (array_items f (skip_ws r1)) as [[vs rest']|] eqn:Ea; [|discriminate].
    injection H as <- <-. destruct (IHa _ _ _ Ea) as [Hlen' Hfuel'].
    simpl in *. split; [lia|]. intros f' Hf'.
    destruct f' as [|f']; [lia|].
    cbn [array_items]. rewrite Hfuel, Ew, E1, E2, Hfuel' by lia. reflexivity.
  - (* object_members *)
    cbn [object_members] in H.
    destruct (scanstring s) as [[key r]|] eqn:Es; [|discriminate].
    pose proof (scanstring_length _ _ _ Es) as Hls.
    pose proof (skip_ws_length r) as Hws.
    destruct (skip_ws r) as [|c r1] eqn:Ew; [discriminate|].
    destruct (c =? COLON) eqn:E1; [|discriminate].
    pose proof (skip_ws_length r1) as Hws1.
    destruct (scan_once f (skip_ws r1)) as [[v r2]|] eqn:Ev; [|discriminate].
    destruct (IHv _ _ _ Ev) as [Hlen Hfuel].
    pose proof (skip_ws_length r2) as Hws2.
    destruct (skip_ws r2) as [|c2 r3] eqn:Ew2; [discriminate|].
    destruct (c2 =? RBRACE) eqn:E2.
    { injection H as <- <-. simpl in *. split; [lia|]. intros f' Hf'.
      destruct f' as [|f']; [lia|].
      cbn [object_members]. rewrite Es, Ew, E1, Hfuel, Ew2, E2 by lia. reflexivity. }
    destruct (c2 =? COMMA) eqn:E3; [|discriminate].
    pose proof (skip_ws_length r3) as Hws3.
    destruct (skip_ws r3) as [|q r4] eqn:Ew3; [discriminate|].
    destruct (q =? QUOTE) eqn:E4; [|discriminate].
    destruct (object_members f r4) as [[kvs rest']|] eqn:Eo; [|discriminate].
    injection H as <- <-. destruct (IHo _ _ _ Eo) as [Hlen' Hfuel'].
    simpl in *. split; [lia|]. intros f' Hf'.
    destruct f' as [|f']; [lia|].
    cbn [object_members].
    rewrite Es, Ew, E1, Hfuel, Ew2, E2, E3, Ew3, E4, Hfuel' by lia. reflexivity.
Qed.

(** [loads] never fails for lack of fuel: a text that some fuel scans
    to the end is decoded by [loads]. *)
Lemma loads_fuel_enough s f v rest :
  starts_with [65279] s = false ->
  scan_once f (skip_ws s) = Some (v, rest) -> skip_ws rest = [] ->
  loads s = Some v.
Proof.
  intros Hb Hs Hr. unfold loads. rewrite Hb.
  destruct (proj1 (scan_fuel_free f) _ _ _ Hs) as [_ Hfuel].
  rewrite (Hfuel (S (List.length s))), Hr; [reflexivity|].
  pose proof (skip_ws_length s). lia.
Qed.



End CodecFacts.

(** ** The monad *)

Module MonadFacts.

Lemma bind_ok {A B} (m : M A) (k : A -> M B) w a w' :
  m w = (Ok a, w') -> bind m k w = k a w'.
Proof. intros H. unfold bind. rewrite H. reflexivity. Qed.

Lemma bind_raise {A B} (m : M A) (k : A -> M B) w e w' :
  m w = (Raise e, w') -> bind m k w = (Raise e, w').
Proof. intros H. unfold bind. rewrite H. reflexivity. Qed.

Lemma bind_blocked {A B} (m : M A) (k : A -> M B) w w' :
  m w = (Blocked, w') -> bind m k w = (Blocked, w').
Proof. intros H. unfold bind. rewrite H. reflexivity. Qed.

Lemma emit_log e w : emit e w = (Ok tt, log [e] w).
Proof. reflexivity. Qed.

Lemma log_log es1 es2 w : log es2 (log es1 w) = log (es1 ++ es2) w.
Proof. unfold log; simpl. now rewrite app_assoc. Qed.

Lemma log_nil w : log [] w = w.
Proof. destruct w; unfold log; simpl. now rewrite app_nil_r. Qed.

Lemma set_peer_log p es w : set_peer p (log es w) = log es (set_peer p w).
Proof. reflexivity. Qed.

Lemma set_inbox_log q es w : set_inbox q (log es w) = log es (set_inbox q w).
Proof. reflexivity. Qed.

Lemma drawn_log n es w : drawn n (log es w) = log es (drawn n w).
Proof. reflexivity. Qed.

Lemma log_set_peer p es w : log es (set_peer p w) = set_peer p (log es w).
Proof. reflexivity. Qed.

Lemma log_set_inbox q es w : log es (set_inbox q w) = set_inbox q (log es w).
Proof. reflexivity. Qed.

Lemma set_peer_twice p q w : set_peer p (set_peer q w) = set_peer p w.
Proof. reflexivity. Qed.

Lemma set_inbox_twice p q w : set_inbox p (set_inbox q w) = set_inbox p w.
Proof. reflexivity. Qed.

Lemma log_drawn n es w : log es (drawn n w) = drawn n (log es w).
Proof. reflexivity. Qed.

Lemma drawn_set_inbox n q w : drawn n (set_inbox q w) = set_inbox q (drawn n w).
Proof. reflexivity. Qed.

Lemma next_id_set_inbox q w : next_id (set_inbox q w) = next_id w.
Proof. reflexivity. Qed.

Lemma next_id_log es w : next_id (log es w) = next_id w.
Proof. reflexivity. Qed.

Create Rewrite HintDb world.
#[export] Hint Rewrite log_log log_set_peer log_set_inbox set_peer_twice
  set_inbox_twice log_drawn drawn_set_inbox next_id_set_inbox next_id_log
  : world.

Lemma drawn_0 w : drawn 0 w = w.
Proof. destruct w; reflexivity. Qed.

Lemma drawn_S n w : drawn n (drawn 1 w) = drawn (S n) w.
Proof. destruct w; unfold drawn; simpl. f_equal. lia. Qed.

End MonadFacts.

(** ** The identifier generator *)

Module IdentFacts.
Import MonadFacts.

Lemma random_choice_ok chars w :
  chars <> [] ->
  random_choice chars w
  = (Ok (nth (N.to_nat (rand_src w (rand_pos w) mod N.of_nat (List.length chars)))
             chars 0%N),
     drawn 1 w).
Proof.
  destruct chars as [|c cs]; [congruence|]. intros _.
  unfold random_choice, drawn. f_equal. f_equal.
  apply nth_indep.
  assert (H : (rand_src w (rand_pos w) mod N.of_nat (List.length (c :: cs))
               < N.of_nat (List.length (c :: cs)))%N)
    by (apply N.mod_lt; simpl; lia).
  lia.
Qed.

Lemma gen_id_chars_ok n chars : forall w,
  chars <> [] ->
  gen_id_chars n chars w
  = (Ok (drawn_chars n chars (rand_src w) (rand_pos w)), drawn n w).
Proof.
  induction n as [|n IH]; intros w Hc; simpl.
  - unfold ret. now rewrite drawn_0.
  - rewrite (bind_ok _ _ _ _ _ (random_choice_ok chars w Hc)).
    rewrite (bind_ok _ _ _ _ _ (IH _ Hc)).
    unfold ret. rewrite drawn_S. destruct w; reflexivity.
Qed.

Lemma drawn_chars_length n chars src : forall pos,
  List.length (drawn_chars n chars src pos) = n.
Proof. induction n; intros; simpl; auto. Qed.

Lemma drawn_chars_in n chars src : forall pos,
  chars <> [] -> Forall (fun c => In c chars) (drawn_chars n chars src pos).
Proof.
  induction n as [|n IH]; intros pos Hc; simpl; constructor; auto.
  apply nth_In.
  assert (H : (src pos mod N.of_nat (List.length chars)
               < N.of_nat (List.length chars))%N).
  { apply N.mod_lt. destruct chars; [congruence | simpl; lia]. }
  lia.
Qed.

Lemma default_chars_alnum : Forall (fun c => alnum c = true) default_chars.
Proof. repeat constructor. Qed.

Lemma default_chars_nonempty : default_chars <> [].
Proof. discriminate. Qed.

Lemma gen_id_default_ok w :
  gen_id_default w
  = (Ok (drawn_chars 6 default_chars (rand_src w) (rand_pos w)), drawn 6 w).
Proof. apply (gen_id_chars_ok 6 default_chars w default_chars_nonempty). Qed.

(** C8.  With its default parameters [gen_id] returns six characters,
    each an upper-case letter, a lower-case letter or a digit; for any
    non-negative [size] and non-empty [chars], [gen_id(size, chars)]
    returns [size] characters that all occur in [chars]. *)
Theorem gen_id_length_and_alphabet :
  (forall w, exists s w',
      gen_id_default w = (Ok s, w')
      /\ List.length s = 6
      /\ Forall (fun c => alnum c = true) s)
  /\ (forall size chars w,
        (0 <= size)%Z -> chars <> [] ->
        exists s w',
          gen_id size chars w = (Ok s, w')
          /\ Z.of_nat (List.length s) = size
          /\ Forall (fun c => In c chars) s).
Proof.
  split.
  - intros w. eexists; eexists. split; [apply gen_id_default_ok|]. split.
    + apply drawn_chars_length.
    + pose proof (drawn_chars_in 6 default_chars (rand_src w) (rand_pos w) default_chars_nonempty) as H.
      pose proof default_chars_alnum as Ha.
      rewrite Forall_forall in *. intros c Hc. auto.
  - intros size chars w Hs Hc. unfold gen_id.
    eexists; eexists. split; [apply (gen_id_chars_ok _ chars w Hc)|]. split.
    + rewrite drawn_chars_length. lia.
    + now apply drawn_chars_in.
Qed.

Lemma gen_id_length_and_alphabet_witness :
  exists s w',
    gen_id 3 (lit "ab") (Ws.init [] (fun k => N.of_nat k)) = (Ok s, w')
    /\ Z.of_nat (List.length s) = 3%Z
    /\ Forall (fun c => In c (lit "ab")) s.
Proof.
  apply (proj2 gen_id_length_and_alphabet 3%Z (lit "ab")
           (Ws.init [] (fun k => N.of_nat k))).
  - lia.
  - discriminate.
Defined.

End IdentFacts.

(** ** The HTTP client *)

Module HttpFacts.
Import MonadFacts Http.

Lemma posts_app tr1 tr2 : posts (tr1 ++ tr2) = posts tr1 + posts tr2.
Proof.
  induction tr1 as [|e tr1 IH]; simpl; auto.
  destruct e; simpl; auto.
Qed.

Lemma session_post_reply ep body hs w r more :
  peer w = Reply r :: more ->
  session_post ep body hs w = (Ok r, set_peer more (log [EvPost ep body hs] w)).
Proof.
  intros H. unfold session_post. rewrite (bind_ok _ _ _ _ _ (emit_log _ w)).
  simpl. now rewrite H.
Qed.

(** A trial answered with status 200 ends the loop. *)
Lemma trials_stop k self body hs req w r more :
  peer w = Reply r :: more -> status_code r = 200%Z ->
  trials (S k) self body hs req w
  = (Some r, (Ok tt, set_peer more (log [EvPost (endpoint self) body hs] w))).
Proof.
  intros Hp Hs. simpl. rewrite (session_post_reply _ _ _ _ _ _ Hp).
  rewrite Hs. reflexivity.
Qed.

(** A trial answered with another status sleeps and goes on. *)
Lemma trials_retry k self body hs req w r more :
  peer w = Reply r :: more -> status_code r <> 200%Z ->
  trials (S k) self body hs req w
  = trials k self body hs (Some r)
      (set_peer more (log [EvPost (endpoint self) body hs; EvSleep 1] w)).
Proof.
  intros Hp Hs. simpl. rewrite (session_post_reply _ _ _ _ _ _ Hp).
  apply Z.eqb_neq in Hs. rewrite Hs. f_equal.
  unfold sleep, emit, set_peer, log; simpl. now rewrite <- List.app_assoc.
Qed.

Lemma trials_posts n self body hs : forall req w,
  posts (trace (snd (snd (trials n self body hs req w)))) <= posts (trace w) + n.
Proof.
  induction n as [|n IH]; intros req w; simpl; [lia|].
  unfold session_post, bind. simpl.
  destruct (peer w) as [|[r|e] more] eqn:Hp; simpl.
  - rewrite posts_app; simpl; lia.
  - destruct (status_code r =? 200)%Z; simpl.
    + rewrite posts_app; simpl; lia.
    + etransitivity; [apply IH|]. simpl. rewrite !posts_app. simpl. lia.
  - rewrite posts_app; simpl; lia.
Qed.

Lemma session_handler_posts req e w :
  posts (trace (snd (session_handler req e w))) = posts (trace w).
Proof.
  unfold session_handler, print, bind, emit, raise, ret; simpl.
  destruct req as [r|]; simpl.
  - destruct (response_ok r); simpl; rewrite !posts_app; simpl; lia.
  - rewrite posts_app; simpl; lia.
Qed.

Lemma response_json_trace req w : snd (response_json req w) = w.
Proof.
  unfold response_json, json_loads, raise, ret.
  destruct req as [r|]; [destruct (loads (content r))|]; reflexivity.
Qed.

Lemma send_session_posts self body hs w :
  posts (trace (snd (send_session self body hs w)))
  <= posts (trace w) + number_of_trials.
Proof.
  unfold send_session.
  pose proof (trials_posts number_of_trials self body hs None w) as H.
  destruct (trials number_of_trials self body hs None w) as [req [[u|e|] w1]];
    simpl in *; auto.
  - pose proof (response_json_trace req w1) as Hj.
    destruct (response_json req w1) as [[j|e|] w2]; simpl in *; subst; auto.
    now rewrite session_handler_posts.
  - now rewrite session_handler_posts.
Qed.

(** The run of the session path when every post is answered: [pre] are
    the answers that made it try again, [last] the answer it stopped
    at. *)
Lemma send_session_answered self body hs w pre last more j :
  peer w = map Reply (pre ++ [last]) ++ more ->
  Forall (fun r => status_code r <> 200%Z) pre ->
  (List.length pre = 2 \/ (List.length pre < 2 /\ status_code last = 200%Z)) ->
  loads (content last) = Some j ->
  send_session self body hs w
  = (Ok j,
     set_peer more
       (log (flat_map (fun _ => [EvPost (endpoint self) body hs; EvSleep 1]) pre
               ++ [EvPost (endpoint self) body hs]
               ++ (if (status_code last =? 200)%Z then [] else [EvSleep 1]))
          w)).
Proof.
  intros Hp Hpre Hlen Hj. unfold send_session, number_of_trials.
  assert (Hfin : forall k req w0 more0,
             peer w0 = Reply last :: more0 ->
             (k = 0 \/ status_code last = 200%Z) ->
             trials (S k) self body hs req w0
             = (Some last,
                (Ok tt,
                 set_peer more0
                   (log ([EvPost (endpoint self) body hs]
                           ++ (if (status_code last =? 200)%Z then []
                               else [EvSleep 1])) w0)))).
  { intros k req w0 more0 Hp0 Hk.
    destruct (Z.eq_dec (status_code last) 200) as [E|E].
    - rewrite (trials_stop _ _ _ _ _ _ _ _ Hp0 E). rewrite E. reflexivity.
    - destruct Hk as [->|Hk]; [|contradiction].
      rewrite (trials_retry _ _ _ _ _ _ _ _ Hp0 E). simpl.
      apply Z.eqb_neq in E. rewrite E. reflexivity. }
  assert (Hjson : forall w0, response_json (Some last) w0 = (Ok j, w0)).
  { intros w0. unfold response_json, json_loads. now rewrite Hj. }
  destruct pre as [|r1 [|r2 [|r3 pre]]]; simpl in Hp, Hlen.
  - rewrite (Hfin 2 None w more Hp) by (right; lia).
    rewrite Hjson. reflexivity.
  - inversion Hpre as [|? ? H1 _]; subst.
    rewrite (trials_retry _ _ _ _ _ _ _ _ Hp H1).
    rewrite (Hfin 1 (Some r1) _ more) by (reflexivity || (right; lia)).
    rewrite Hjson. autorewrite with world. reflexivity.
  - inversion Hpre as [|? ? H1 Hpre']; subst.
    inversion Hpre' as [|? ? H2 _]; subst.
    rewrite (trials_retry _ _ _ _ _ _ _ _ Hp H1).
    rewrite (trials_retry 1 self body hs (Some r1) _ r2 (Reply last :: more))
      by (reflexivity || assumption).
    rewrite (Hfin 0 (Some r2) _ more) by (reflexivity || (left; reflexivity)).
    rewrite Hjson. autorewrite with world. reflexivity.
  - simpl in Hlen. lia.
Qed.

Lemma urlopen_reply ep body hs w r more :
  peer w = Reply r :: more ->
  urlopen ep body hs w
  = (if ((200 <=? status_code r) && (status_code r <? 300))%Z
     then Ok r else Raise (HTTPError (status_code r) (content r)),
     set_peer more (log [EvUrlopen ep body hs] w)).
Proof.
  intros H. unfold urlopen. rewrite (bind_ok _ _ _ _ _ (emit_log _ w)).
  simpl. rewrite H.
  now destruct ((200 <=? status_code r) && (status_code r <? 300))%Z.
Qed.

(** Without a session, a final status outside 200..299 is printed and
    raised. *)
Lemma send_urllib_status_raises self body hs w r more :
  peer w = Reply r :: more ->
  ((200 <=? status_code r) && (status_code r <? 300))%Z = false ->
  send_urllib self body hs w
  = (Raise (HTTPError (status_code r) (content r)),
     set_peer more
       (log [EvUrlopen (endpoint self) body hs;
             EvPrint (PText (content r)); EvPrint (PText [])] w)).
Proof.
  intros Hp Hs. unfold send_urllib.
  rewrite (urlopen_reply _ _ _ _ _ _ Hp), Hs.
  unfold print. rewrite (bind_ok _ _ _ _ _ (emit_log _ _)).
  rewrite (bind_ok _ _ _ _ _ (emit_log _ _)). unfold raise.
  now autorewrite with world.
Qed.

Lemma send_urllib_success self body hs w r more j :
  peer w = Reply r :: more ->
  ((200 <=? status_code r) && (status_code r <? 300))%Z = true ->
  loads (content r) = Some j ->
  send_urllib self body hs w
  = (Ok j,
     set_peer more
       (log [EvUrlopen (endpoint self) body hs;
             EvPrint (PTexts [lit ">>>>"; content r])] w)).
Proof.
  intros Hp Hs Hj. unfold send_urllib.
  rewrite (urlopen_reply _ _ _ _ _ _ Hp), Hs.
  unfold print. rewrite (bind_ok _ _ _ _ _ (emit_log _ _)).
  unfold json_loads. rewrite Hj. unfold ret.
  now autorewrite with world.
Qed.

Lemma execute_session self q v w :
  session self <> None ->
  execute self q v w
  = send_session self (dumps (request_data q v)) (request_headers self) w.
Proof.
  intros H. unfold execute, _send. destruct (session self); [reflexivity|congruence].
Qed.

Lemma execute_sessionless self q v w :
  session self = None ->
  execute self q v w
  = send_urllib self (dumps (request_data q v)) (request_headers self) w.
Proof. intros H. unfold execute, _send. now rewrite H. Qed.

(** C6.  With a session, [execute] posts at most three times; it stops
    at the first answer whose status is 200 (the status the code takes
    for success) and sleeps one second after every other answer, so
    between any two posts; when the posts are answered it returns the
    parsed JSON body of the last answer, whatever its status.  Answers
    500, 500, 200 give the body of the 200 answer, and answers 500, 500,
    500 give the body of the last one, returned and not raised. *)
Theorem execute_session_trials (self : GraphQLClient) (q v : json) :
  session self <> None ->
  let post := EvPost (endpoint self) (dumps (request_data q v))
                (request_headers self) in
  (forall w, posts (trace (snd (execute self q v w))) <= posts (trace w) + 3)
  /\ (forall w pre last more j,
        peer w = map Reply (pre ++ [last]) ++ more ->
        Forall (fun r => status_code r <> 200%Z) pre ->
        (List.length pre = 2 \/ (List.length pre < 2 /\ status_code last = 200%Z)) ->
        loads (content last) = Some j ->
        exists w',
          execute self q v w = (Ok j, w')
          /\ peer w' = more
          /\ trace w'
             = trace w ++ flat_map (fun _ => [post; EvSleep 1]) pre ++ [post]
                 ++ (if (status_code last =? 200)%Z then [] else [EvSleep 1]))
  /\ (forall w b1 b2 b3 more j,
        peer w = Reply (mkResponse 500 b1) :: Reply (mkResponse 500 b2)
                   :: Reply (mkResponse 200 b3) :: more ->
        loads b3 = Some j ->
        fst (execute self q v w) = Ok j)
  /\ (forall w b1 b2 b3 more j,
        peer w = Reply (mkResponse 500 b1) :: Reply (mkResponse 500 b2)
                   :: Reply (mkResponse 500 b3) :: more ->
        loads b3 = Some j ->
        fst (execute self q v w) = Ok j).
Proof.
  intros Hs post. repeat split.
  - intros w. rewrite (execute_session _ _ _ _ Hs). apply send_session_posts.
  - intros w pre last more j Hp Hpre Hlen Hj.
    rewrite (execute_session _ _ _ _ Hs).
    rewrite (send_session_answered self _ _ _ _ _ _ _ Hp Hpre Hlen Hj).
    eexists; split; [reflexivity|]. split; reflexivity.
  - intros w b1 b2 b3 more j Hp Hj.
    rewrite (execute_session _ _ _ _ Hs).
    rewrite (send_session_answered self _ _ w
               [mkResponse 500 b1; mkResponse 500 b2] (mkResponse 200 b3) more j);
      auto.
    repeat constructor; simpl; discriminate.
  - intros w b1 b2 b3 more j Hp Hj.
    rewrite (execute_session _ _ _ _ Hs).
    rewrite (send_session_answered self _ _ w
               [mkResponse 500 b1; mkResponse 500 b2] (mkResponse 500 b3) more j);
      auto.
    repeat constructor; simpl; discriminate.
Qed.

Lemma execute_session_trials_witness :
  fst (execute (init (lit "http://api") (Some Session)) (JStr (lit "{ me }")) JNull
         (set_peer [Reply (mkResponse 500 (lit "[1]"));
                    Reply (mkResponse 500 (lit "[2]"));
                    Reply (mkResponse 500 (lit "[3]"))]
            (Ws.init [] (fun _ => 0%N))))
  = Ok (JArr [JInt 3]).
Proof.
  refine (proj2 (proj2 (proj2
            (execute_session_trials (init (lit "http://api") (Some Session))
               (JStr (lit "{ me }")) JNull _)))
            _ (lit "[1]") (lit "[2]") (lit "[3]") [] (JArr [JInt 3]) _ _).
  - discriminate.
  - reflexivity.
  - reflexivity.
Defined.

(** C7, counterexample.  Without a session, an answer with status 500
    is raised as [HTTPError], not returned. *)
Lemma execute_sessionless_500_is_raised :
  fst (execute (init (lit "http://api") None) (JStr (lit "{ me }")) JNull
         (set_peer [Reply (mkResponse 500 (lit "{}"))]
            (Ws.init [] (fun _ => 0%N))))
  = Raise (HTTPError 500 (lit "{}")).
Proof. reflexivity. Qed.

(** C7, as amended.  With a session, a status other than 200 on the
    last of the three trials is returned to the caller as the parsed
    body (when the body is JSON) and not raised.  Without a session, a
    final status outside 200..299 is raised as [HTTPError] after the
    body of the answer is printed, and a status inside 200..299 returns
    the parsed body. *)
Theorem execute_status_returned_or_raised (self : GraphQLClient) (q v : json) :
  (session self <> None ->
   forall w r1 r2 r3 more j,
     peer w = Reply r1 :: Reply r2 :: Reply r3 :: more ->
     status_code r1 <> 200%Z -> status_code r2 <> 200%Z ->
     status_code r3 <> 200%Z ->
     loads (content r3) = Some j ->
     fst (execute self q v w) = Ok j)
  /\ (session self = None ->
      forall w r more,
        peer w = Reply r :: more ->
        (status_code r < 200 \/ 300 <= status_code r)%Z ->
        exists w',
          execute self q v w = (Raise (HTTPError (status_code r) (content r)), w')
          /\ trace w'
             = trace w ++ [EvUrlopen (endpoint self) (dumps (request_data q v))
                             (request_headers self);
                           EvPrint (PText (content r)); EvPrint (PText [])])
  /\ (session self = None ->
      forall w r more j,
        peer w = Reply r :: more ->
        (200 <= status_code r < 300)%Z ->
        loads (content r) = Some j ->
        fst (execute self q v w) = Ok j).
Proof.
  repeat split.
  - intros Hs w r1 r2 r3 more j Hp H1 H2 H3 Hj.
    rewrite (execute_session _ _ _ _ Hs).
    rewrite (send_session_answered self _ _ w [r1; r2] r3 more j); auto.
  - intros Hs w r more Hp Hst.
    rewrite (execute_sessionless _ _ _ _ Hs).
    rewrite (send_urllib_status_raises self _ _ _ _ _ Hp).
    + eexists; split; reflexivity.
    + apply andb_false_iff. rewrite Z.leb_gt, Z.ltb_ge. lia.
  - intros Hs w r more j Hp Hst Hj.
    rewrite (execute_sessionless _ _ _ _ Hs).
    rewrite (send_urllib_success self _ _ _ _ _ j Hp); auto.
    apply andb_true_iff. rewrite Z.leb_le, Z.ltb_lt. lia.
Qed.

Lemma execute_status_returned_or_raised_witness :
  exists w',
    execute (init (lit "http://api") None) (JStr (lit "{ me }")) JNull
      (set_peer [Reply (mkResponse 404 (lit "gone"))] (Ws.init [] (fun _ => 0%N)))
    = (Raise (HTTPError 404 (lit "gone")), w')
    /\ trace w'
       = [EvUrlopen (lit "http://api")
            (dumps (request_data (JStr (lit "{ me }")) JNull))
            (request_headers (init (lit "http://api") None));
          EvPrint (PText (lit "gone")); EvPrint (PText [])].
Proof.
  refine (proj1 (proj2
            (execute_status_returned_or_raised (init (lit "http://api") None)
               (JStr (lit "{ me }")) JNull))
            _ _ (mkResponse 404 (lit "gone")) [] _ _).
  - reflexivity.
  - reflexivity.
  - simpl. lia.
Defined.

End HttpFacts.

(** ** The websocket client: the synchronous operations *)

Module WsFacts.
Import MonadFacts IdentFacts Ws.

Lemma conn_send_log text w : conn_send text w = (Ok tt, log [EvSend text] w).
Proof. reflexivity. Qed.

Lemma conn_recv_ok w text rest :
  inbox w = text :: rest ->
  conn_recv w = (Ok text, log [EvRecv text] (set_inbox rest w)).
Proof. intros H. unfold conn_recv. now rewrite H. Qed.

Lemma conn_recv_blocked w : inbox w = [] -> conn_recv w = (Blocked, w).
Proof. intros H. unfold conn_recv. now rewrite H. Qed.

Lemma _conn_init_ok headers w a rest :
  inbox w = a :: rest ->
  _conn_init headers w
  = (Ok tt, set_inbox rest
              (log [EvSend (dumps (conn_init_frame headers)); EvRecv a] w)).
Proof.
  intros H. unfold _conn_init.
  rewrite (bind_ok _ _ _ _ _ (conn_send_log _ w)).
  rewrite (bind_ok _ _ _ a (log [EvRecv a] (set_inbox rest (log [EvSend (dumps (conn_init_frame headers))] w)))).
  - unfold ret. now autorewrite with world.
  - now apply conn_recv_ok.
Qed.

Lemma _start_ok payload w :
  _start payload w
  = (Ok (next_id w),
     drawn 6 (log [EvSend (dumps (start_frame (next_id w) payload))] w)).
Proof.
  unfold _start. rewrite (bind_ok _ _ _ _ _ (gen_id_default_ok w)).
  rewrite (bind_ok _ _ _ _ _ (conn_send_log _ _)). reflexivity.
Qed.

Lemma _stop_ok _id w c rest :
  inbox w = c :: rest ->
  _stop _id w
  = (Ok c, set_inbox rest (log [EvSend (dumps (stop_frame _id)); EvRecv c] w)).
Proof.
  intros H. unfold _stop.
  rewrite (bind_ok _ _ _ _ _ (conn_send_log _ w)).
  rewrite (conn_recv_ok _ c rest) by exact H.
  now autorewrite with world.
Qed.

Lemma query_ok q v h w a res c rest :
  inbox w = a :: res :: c :: rest ->
  query q v h w
  = (Ok res,
     set_inbox rest
       (drawn 6
          (log [EvSend (dumps (conn_init_frame h)); EvRecv a;
                EvSend (dumps (start_frame (next_id w) (operation_payload h q v)));
                EvRecv res;
                EvSend (dumps (stop_frame (next_id w))); EvRecv c]
             w))).
Proof.
  intros H. unfold query.
  rewrite (bind_ok _ _ _ _ _ (_conn_init_ok h w a _ H)).
  rewrite (bind_ok _ _ _ _ _ (_start_ok _ _)).
  erewrite bind_ok by (apply conn_recv_ok; reflexivity).
  erewrite bind_ok by (apply _stop_ok; reflexivity).
  unfold ret. autorewrite with world. reflexivity.
Qed.

(** C2.  On a transport that delivers three frames, [query] sends the
    [connection_init] frame and receives once, sends the [start] frame
    with the identifier that [gen_id] draws at that moment, receives
    once, sends the [stop] frame for the same identifier and receives
    once more; it returns the frame of the one receive between [start]
    and [stop]. *)
Theorem query_steps_in_order (q v h : json) (w : world) (a res c : pystr)
    (rest : list pystr) :
  inbox w = a :: res :: c :: rest ->
  exists _id w0 w',
    gen_id_default w = (Ok _id, w0)
    /\ query q v h w = (Ok res, w')
    /\ trace w'
       = trace w ++
           [EvSend (dumps (conn_init_frame h)); EvRecv a;
            EvSend (dumps (start_frame _id (operation_payload h q v)));
            EvRecv res;
            EvSend (dumps (stop_frame _id)); EvRecv c]
    /\ inbox w' = rest
    /\ rand_pos w' = 6 + rand_pos w.
Proof.
  intros H. exists (next_id w). eexists. eexists.
  split; [apply gen_id_default_ok|].
  split; [apply (query_ok q v h w a res c rest H)|].
  repeat split.
Qed.

Lemma query_steps_in_order_witness :
  exists _id w0 w',
    gen_id_default (init [lit "ack"; lit "reply"; lit "bye"] (fun k => N.of_nat k))
    = (Ok _id, w0)
    /\ query (JStr (lit "{ me }")) JNull JNull
         (init [lit "ack"; lit "reply"; lit "bye"] (fun k => N.of_nat k))
       = (Ok (lit "reply"), w')
    /\ trace w'
       = [] ++
           [EvSend (dumps (conn_init_frame JNull)); EvRecv (lit "ack");
            EvSend (dumps (start_frame _id
                             (operation_payload JNull (JStr (lit "{ me }")) JNull)));
            EvRecv (lit "reply");
            EvSend (dumps (stop_frame _id)); EvRecv (lit "bye")]
    /\ inbox w' = []
    /\ rand_pos w' = 6 + 0.
Proof.
  apply (query_steps_in_order (JStr (lit "{ me }")) JNull JNull
           (init [lit "ack"; lit "reply"; lit "bye"] (fun k => N.of_nat k))
           (lit "ack") (lit "reply") (lit "bye") []).
  reflexivity.
Defined.

(** The identifiers of the client are made of scalar values, so the
    frames that [_start] and [_stop] send for JSON operands are decoded
    by the peer to what was encoded. *)
Lemma next_id_native w : str_native (next_id w) = true.
Proof.
  unfold next_id, str_native. apply forallb_forall. intros c Hc.
  pose proof (drawn_chars_in 6 default_chars (rand_src w) (rand_pos w)
                default_chars_nonempty) as Hin.
  rewrite Forall_forall in Hin. specialize (Hin c Hc).
  assert (Hall : forallb scalar default_chars = true) by reflexivity.
  rewrite forallb_forall in Hall. now apply Hall.
Qed.

Lemma start_frame_decodes h q v w :
  json_native h = true -> json_native q = true -> json_native v = true ->
  loads (dumps (start_frame (next_id w) (operation_payload h q v)))
  = Some (start_frame (next_id w) (operation_payload h q v)).
Proof.
  intros Hh Hq Hv. apply CodecFacts.loads_dumps.
  cbn [json_native start_frame operation_payload forallb fst snd map].
  rewrite (next_id_native w), Hh, Hq, Hv. reflexivity.
Qed.

Lemma stop_frame_decodes w :
  loads (dumps (stop_frame (next_id w))) = Some (stop_frame (next_id w)).
Proof.
  apply CodecFacts.loads_dumps.
  cbn [json_native stop_frame forallb fst snd map].
  rewrite (next_id_native w). reflexivity.
Qed.

(** C3, counterexample.  The peer answers [start] with a keepalive:
    [query] returns that frame, which carries no [id] at all. *)
Lemma query_returns_keepalive_frame :
  exists _id w0 res w',
    gen_id_default
      (init [lit "ack"; dumps ka_frame; lit "bye"] (fun k => N.of_nat k))
    = (Ok _id, w0)
    /\ query (JStr (lit "{ me }")) JNull JNull
         (init [lit "ack"; dumps ka_frame; lit "bye"] (fun k => N.of_nat k))
       = (Ok res, w')
    /\ frame_id res <> Some (JStr _id).
Proof.
  eexists; eexists; exists (dumps ka_frame); eexists.
  split; [apply gen_id_default_ok|].
  split; [apply query_ok; reflexivity|].
  vm_compute. discriminate.
Qed.

(** C3, as amended.  [query] returns the frame that the transport
    delivers to the one receive after [start], as it is and whatever
    [id] it carries; its [id] is the identifier generated by [start]
    exactly when the peer put that identifier in this frame. *)
Theorem query_returns_next_frame (q v h : json) (w : world) (a res c : pystr)
    (rest : list pystr) :
  inbox w = a :: res :: c :: rest ->
  exists _id w0 w',
    gen_id_default w = (Ok _id, w0)
    /\ query q v h w = (Ok res, w')
    /\ In (EvSend (dumps (start_frame _id (operation_payload h q v)))) (trace w')
    /\ (frame_id res = Some (JStr _id)
        <-> exists members,
              loads res = Some (JObj members)
              /\ dict_get (lit "id") members = Some (JStr _id)).
Proof.
  intros H. exists (next_id w). eexists. eexists.
  split; [apply gen_id_default_ok|].
  split; [apply (query_ok q v h w a res c rest H)|].
  split.
  - cbn [trace set_inbox drawn log]. apply in_or_app. right.
    right; right; left; reflexivity.
  - unfold frame_id. destruct (loads res) as [[| | | | | |members]|]; split;
      try discriminate; try (intros (m & Hm & _); discriminate).
    + intros Hd. exists members. auto.
    + intros (m & Hm & Hd). now inversion Hm; subst.
Qed.

Lemma query_returns_next_frame_witness :
  exists _id w0 w',
    gen_id_default
      (init [lit "ack"; dumps ka_frame; lit "bye"] (fun k => N.of_nat k))
    = (Ok _id, w0)
    /\ query (JStr (lit "{ me }")) JNull JNull
         (init [lit "ack"; dumps ka_frame; lit "bye"] (fun k => N.of_nat k))
       = (Ok (dumps ka_frame), w')
    /\ In (EvSend (dumps (start_frame _id
                            (operation_payload JNull (JStr (lit "{ me }")) JNull))))
         (trace w')
    /\ (frame_id (dumps ka_frame) = Some (JStr _id)
        <-> exists members,
              loads (dumps ka_frame) = Some (JObj members)
              /\ dict_get (lit "id") members = Some (JStr _id)).
Proof.
  apply (query_returns_next_frame (JStr (lit "{ me }")) JNull JNull
           (init [lit "ack"; dumps ka_frame; lit "bye"] (fun k => N.of_nat k))
           (lit "ack") (dumps ka_frame) (lit "bye") []).
  reflexivity.
Defined.

End WsFacts.

(** ** The websocket client: the delivery loop *)

Module LoopFacts.
Import TextFacts MonadFacts IdentFacts WsFacts Ws.

(** One iteration of the delivery loop, case by case. *)
Lemma subs_loop_S f me cc _id w :
  subs_loop (S f) me cc _id w
  = if _subscription_running w then
      match inbox w with
      | [] => (Blocked, w)
      | text :: rest =>
          match loads text with
          | None => (Raise JSONDecodeError, set_inbox rest (log [EvRecv text] w))
          | Some (JObj members) =>
              match dict_get (lit "type") members with
              | None =>
                  (Raise (KeyError (lit "type")),
                   set_inbox rest (log [EvRecv text] w))
              | Some ty =>
                  if is_str ty (lit "error") || is_str ty (lit "complete") then
                    stop_subscribe me _id
                      (set_inbox rest
                         (log [EvRecv text; EvPrint (PValue (JObj members))] w))
                  else if is_str ty (lit "ka") then
                    subs_loop f me cc _id
                      (set_inbox rest (log [EvRecv text; EvSleep 1] w))
                  else
                    match cc with
                    | OnMessage =>
                        (Raise TypeError, set_inbox rest (log [EvRecv text] w))
                    | UserCallback g =>
                        match g _id (JObj members) with
                        | None =>
                            subs_loop f me cc _id
                              (set_inbox rest
                                 (log [EvRecv text; EvCallback _id (JObj members);
                                       EvSleep 1] w))
                        | Some e =>
                            (Raise e,
                             set_inbox rest
                               (log [EvRecv text; EvCallback _id (JObj members)] w))
                        end
                    end
              end
          | Some _ => (Raise TypeError, set_inbox rest (log [EvRecv text] w))
          end
      end
    else (Ok tt, w).
Proof.
  cbn [subs_loop]. destruct (_subscription_running w); [|reflexivity].
  destruct (inbox w) as [|text rest] eqn:Hin.
  - now rewrite (bind_blocked _ _ _ _ (conn_recv_blocked w Hin)).
  - rewrite (bind_ok _ _ _ _ _ (conn_recv_ok w text rest Hin)).
    unfold json_loads. destruct (loads text) as [r|];
      [|now autorewrite with world].
    unfold bind at 1. unfold ret at 1.
    destruct r as [| | | | | |members]; try (now autorewrite with world).
    unfold bind at 1. unfold subscript.
    destruct (dict_get (lit "type") members) as [ty|];
      [|now autorewrite with world].
    unfold ret at 1.
    destruct (is_str ty (lit "error") || is_str ty (lit "complete")).
    + unfold print. rewrite (bind_ok _ _ _ _ _ (emit_log _ _)).
      now autorewrite with world.
    + destruct (is_str ty (lit "ka")); cbn [negb].
      * unfold bind at 1. unfold ret at 1. unfold sleep.
        rewrite (bind_ok _ _ _ _ _ (emit_log _ _)).
        now autorewrite with world.
      * destruct cc as [|g]; [now autorewrite with world|].
        unfold bind at 1. unfold call_cc.
        rewrite (bind_ok _ _ _ _ _ (emit_log _ _)).
        destruct (g _id (JObj members)) as [e|].
        -- unfold raise. now autorewrite with world.
        -- unfold ret at 1. unfold sleep.
           rewrite (bind_ok _ _ _ _ _ (emit_log _ _)).
           now autorewrite with world.
Qed.

Lemma stop_subscribe_self me _id w :
  _st_id w = Some me ->
  stop_subscribe me _id w = (Raise RuntimeError, with_running false w).
Proof.
  intros H.
  unfold stop_subscribe, bind, set_running, get_st_id, thread_join, with_running;
    simpl.
  rewrite H, Nat.eqb_refl. reflexivity.
Qed.

Lemma stop_subscribe_unset me _id w :
  _st_id w = None ->
  stop_subscribe me _id w = (Raise AttributeError, with_running false w).
Proof.
  intros H.
  unfold stop_subscribe, bind, set_running, get_st_id, thread_join, with_running;
    simpl.
  rewrite H. reflexivity.
Qed.

Lemma stop_subscribe_other me _id w t c rest :
  _st_id w = Some t -> t <> me -> inbox w = c :: rest ->
  stop_subscribe me _id w
  = (Ok tt,
     with_running false
       (set_inbox rest
          (log [EvJoin t; EvSend (dumps (stop_frame _id)); EvRecv c] w))).
Proof.
  intros H Hne Hin.
  unfold stop_subscribe, bind, set_running, get_st_id, thread_join, _stop,
    conn_send, conn_recv, emit, ret, with_running, set_inbox, log; simpl.
  rewrite H. apply Nat.eqb_neq in Hne. rewrite Hne. simpl. rewrite Hin. simpl.
  rewrite <- !app_assoc. reflexivity.
Qed.

Lemma stop_subscribe_other_blocked me _id w t :
  _st_id w = Some t -> t <> me -> inbox w = [] ->
  stop_subscribe me _id w
  = (Blocked,
     with_running false (log [EvJoin t; EvSend (dumps (stop_frame _id))] w)).
Proof.
  intros H Hne Hin.
  unfold stop_subscribe, bind, set_running, get_st_id, thread_join, _stop,
    conn_send, conn_recv, emit, ret, with_running, log; simpl.
  rewrite H. apply Nat.eqb_neq in Hne. rewrite Hne. simpl. rewrite Hin. simpl.
  rewrite <- !app_assoc. reflexivity.
Qed.

Lemma stop_subscribe_events me _id w :
  exists new,
    trace (snd (stop_subscribe me _id w)) = trace w ++ new
    /\ Forall (fun e => loop_event_ok _id e = true) new
    /\ _subscription_running (snd (stop_subscribe me _id w)) = false.
Proof.
  destruct (_st_id w) as [t|] eqn:Hst.
  - destruct (Nat.eq_dec t me) as [->|Hne].
    + rewrite (stop_subscribe_self _ _ _ Hst). exists []. simpl.
      rewrite app_nil_r. auto.
    + destruct (inbox w) as [|c rest] eqn:Hin.
      * rewrite (stop_subscribe_other_blocked _ _ _ _ Hst Hne Hin).
        eexists. split; [reflexivity|]. split; [repeat constructor|reflexivity].
      * rewrite (stop_subscribe_other _ _ _ _ _ _ Hst Hne Hin).
        eexists. split; [reflexivity|]. split; [repeat constructor|reflexivity].
  - rewrite (stop_subscribe_unset _ _ _ Hst). exists []. simpl.
    rewrite app_nil_r. auto.
Qed.

Lemma terminal_obj members ty :
  dict_get (lit "type") members = Some ty ->
  terminal (JObj members) = is_str ty (lit "error") || is_str ty (lit "complete").
Proof. intros H. unfold terminal, type_is, frame_type. now rewrite H. Qed.

Lemma type_is_obj members ty kind :
  dict_get (lit "type") members = Some ty ->
  type_is (JObj members) kind = is_str ty kind.
Proof. intros H. unfold type_is, frame_type. now rewrite H. Qed.

Lemma subs_loop_events fuel me cc _id : forall w,
  exists new,
    trace (snd (subs_loop fuel me cc _id w)) = trace w ++ new
    /\ Forall (fun e => loop_event_ok _id e = true) new.
Proof.
  induction fuel as [|f IH]; intros w.
  - simpl. destruct (_subscription_running w); exists []; rewrite app_nil_r; auto.
  - rewrite subs_loop_S.
    assert (Hnil : exists new, trace w = trace w ++ new
                   /\ Forall (fun e => loop_event_ok _id e = true) new)
      by (exists []; rewrite app_nil_r; auto).
    assert (Hone : forall text rest,
               exists new,
                 trace (set_inbox rest (log [EvRecv text] w)) = trace w ++ new
                 /\ Forall (fun e => loop_event_ok _id e = true) new)
      by (intros; eexists; split; [reflexivity|repeat constructor]).
    destruct (_subscription_running w); [|exact Hnil].
    destruct (inbox w) as [|text rest]; [exact Hnil|].
    destruct (loads text) as [[| | | | | |members]|]; try apply Hone.
    destruct (dict_get (lit "type") members) as [ty|] eqn:Hty; [|apply Hone].
    destruct (is_str ty (lit "error") || is_str ty (lit "complete")) eqn:Hterm.
    { destruct (stop_subscribe_events me _id
                  (set_inbox rest
                     (log [EvRecv text; EvPrint (PValue (JObj members))] w)))
        as (new & Hnew & Hok & _).
      rewrite Hnew. eexists. cbn [trace set_inbox log].
      rewrite <- app_assoc. split; [reflexivity|].
      apply Forall_app; split; [|exact Hok].
      repeat constructor. cbn [loop_event_ok].
      now rewrite (terminal_obj _ _ Hty). }
    destruct (is_str ty (lit "ka")) eqn:Hka.
    { destruct (IH (set_inbox rest (log [EvRecv text; EvSleep 1] w)))
        as (new & Hnew & Hok).
      rewrite Hnew. eexists. cbn [trace set_inbox log].
      rewrite <- app_assoc. split; [reflexivity|].
      apply Forall_app; split; [repeat constructor|exact Hok]. }
    destruct cc as [|g]; [apply Hone|].
    assert (Hcb : loop_event_ok _id (EvCallback _id (JObj members)) = true).
    { cbn [loop_event_ok].
      rewrite str_eqb_refl, (type_is_obj _ _ _ Hty), (terminal_obj _ _ Hty), Hka, Hterm.
      reflexivity. }
    destruct (g _id (JObj members)) as [e|].
    + eexists. split; [reflexivity|]. repeat constructor. exact Hcb.
    + destruct (IH (set_inbox rest
                      (log [EvRecv text; EvCallback _id (JObj members); EvSleep 1] w)))
        as (new & Hnew & Hok).
      rewrite Hnew. eexists. cbn [trace set_inbox log].
      rewrite <- app_assoc. split; [reflexivity|].
      apply Forall_app; split; [|exact Hok].
      repeat constructor. exact Hcb.
Qed.

Lemma is_str_unique ty a b :
  is_str ty a = true -> is_str ty b = true -> a = b.
Proof.
  destruct ty; simpl; try discriminate.
  rewrite !str_eqb_eq. congruence.
Qed.

Lemma type_is_unique r a b :
  type_is r a = true -> a <> b -> type_is r b = false.
Proof.
  intros Ha Hne. destruct (type_is r b) eqn:Hb; [|reflexivity].
  unfold type_is in *. destruct (frame_type r) as [ty|]; [|discriminate].
  exfalso. apply Hne. eapply is_str_unique; eauto.
Qed.

Lemma type_is_members r kind :
  type_is r kind = true ->
  exists members ty,
    r = JObj members /\ dict_get (lit "type") members = Some ty
    /\ is_str ty kind = true.
Proof.
  unfold type_is, frame_type.
  destruct r as [| | | | | |members]; try (intros H; discriminate H).
  destruct (dict_get (lit "type") members) as [ty|] eqn:Hd;
    [|intros H; discriminate H].
  intros H. exists members, ty. auto.
Qed.

(** A keepalive frame only costs the pacing delay. *)
Lemma iter_keepalive f me cc _id w text rest r :
  _subscription_running w = true -> inbox w = text :: rest ->
  loads text = Some r -> type_is r (lit "ka") = true ->
  subs_loop (S f) me cc _id w
  = subs_loop f me cc _id (set_inbox rest (log [EvRecv text; EvSleep 1] w)).
Proof.
  intros Hrun Hin Hl Hka.
  assert (He : type_is r (lit "error") = false)
    by (eapply type_is_unique; [exact Hka | discriminate]).
  assert (Hc : type_is r (lit "complete") = false)
    by (eapply type_is_unique; [exact Hka | discriminate]).
  destruct (type_is_members _ _ Hka) as (members & ty & -> & Hty & Hs).
  rewrite (type_is_obj _ _ _ Hty) in He. rewrite (type_is_obj _ _ _ Hty) in Hc.
  rewrite subs_loop_S, Hrun, Hin, Hl, Hty, He, Hc, Hs. reflexivity.
Qed.

(** A terminal frame is printed and handed to [stop_subscribe]. *)
Lemma iter_terminal f me cc _id w text rest r :
  _subscription_running w = true -> inbox w = text :: rest ->
  loads text = Some r -> terminal r = true ->
  subs_loop (S f) me cc _id w
  = stop_subscribe me _id
      (set_inbox rest (log [EvRecv text; EvPrint (PValue r)] w)).
Proof.
  intros Hrun Hin Hl Ht.
  assert (exists members ty, r = JObj members
            /\ dict_get (lit "type") members = Some ty) as (members & ty & -> & Hty).
  { unfold terminal in Ht. apply orb_true_iff in Ht.
    destruct Ht as [Ht|Ht]; destruct (type_is_members _ _ Ht) as (m & ty & ? & ? & _);
      eauto. }
  rewrite (terminal_obj _ _ Hty) in Ht.
  rewrite subs_loop_S, Hrun, Hin, Hl, Hty, Ht. reflexivity.
Qed.

(** Another frame that has a [type] goes to the caller's callback. *)
Lemma iter_deliver f me g _id w text rest r kind :
  _subscription_running w = true -> inbox w = text :: rest ->
  loads text = Some r -> type_is r kind = true ->
  kind <> lit "ka" -> kind <> lit "error" -> kind <> lit "complete" ->
  g _id r = None ->
  subs_loop (S f) me (UserCallback g) _id w
  = subs_loop f me (UserCallback g) _id
      (set_inbox rest (log [EvRecv text; EvCallback _id r; EvSleep 1] w)).
Proof.
  intros Hrun Hin Hl Hk Hka He Hc Hg.
  pose proof (type_is_unique _ _ _ Hk Hka) as Hka'.
  pose proof (type_is_unique _ _ _ Hk He) as He'.
  pose proof (type_is_unique _ _ _ Hk Hc) as Hc'.
  destruct (type_is_members _ _ Hk) as (members & ty & -> & Hty & Hs).
  rewrite (type_is_obj _ _ _ Hty) in Hka'. rewrite (type_is_obj _ _ _ Hty) in He'.
  rewrite (type_is_obj _ _ _ Hty) in Hc'.
  rewrite subs_loop_S, Hrun, Hin, Hl, Hty, He', Hc', Hka', Hg. reflexivity.
Qed.

Lemma subscribe_ok q v h cb w a rest :
  inbox w = a :: rest ->
  exists w',
    subscribe q v h cb w = (Ok (next_id w), w')
    /\ _st_id w' = Some (next_thread w)
    /\ next_thread w' = S (next_thread w)
    /\ spawned w'
       = (next_thread w,
          (match cb with None => OnMessage | Some g => UserCallback g end,
           next_id w)) :: spawned w
    /\ inbox w' = rest
    /\ _subscription_running w' = _subscription_running w
    /\ trace w'
       = trace w ++
           [EvSend (dumps (conn_init_frame h)); EvRecv a;
            EvSend (dumps (start_frame (next_id w) (operation_payload h q v)));
            EvThreadStart (next_thread w)].
Proof.
  intros H. unfold subscribe.
  rewrite (bind_ok _ _ _ _ _ (_conn_init_ok h w a _ H)).
  rewrite (bind_ok _ _ _ _ _ (_start_ok _ _)).
  autorewrite with world.
  eexists. split; [reflexivity|].
  cbn [_st_id next_thread spawned inbox _subscription_running trace set_inbox drawn log
       bind thread_create set_st_id emit ret fst snd].
  repeat split. rewrite <- app_assoc. reflexivity.
Qed.

Lemma _conn_init_blocked h w :
  inbox w = [] ->
  _conn_init h w = (Blocked, log [EvSend (dumps (conn_init_frame h))] w).
Proof.
  intros H. unfold _conn_init.
  rewrite (bind_ok _ _ _ _ _ (conn_send_log _ w)).
  apply bind_blocked. now apply conn_recv_blocked.
Qed.

Lemma subscribe_inv q v h cb w X w1 :
  subscribe q v h cb w = (Ok X, w1) ->
  exists a rest, inbox w = a :: rest.
Proof.
  intros H. destruct (inbox w) as [|a rest] eqn:Hin; [|eauto].
  exfalso. unfold subscribe in H.
  rewrite (bind_blocked _ _ _ _ (_conn_init_blocked h w Hin)) in H.
  discriminate H.
Qed.

Lemma callbacks_app tr1 tr2 : callbacks (tr1 ++ tr2) = callbacks tr1 ++ callbacks tr2.
Proof.
  induction tr1 as [|e tr1 IH]; [reflexivity|].
  destruct e; simpl; rewrite ?IH; reflexivity.
Qed.

Lemma callbacks_ok _id new :
  Forall (fun e => loop_event_ok _id e = true) new ->
  Forall (fun ir => fst ir = _id /\ type_is (snd ir) (lit "ka") = false)
    (callbacks new).
Proof.
  induction 1 as [|e new He _ IH]; [constructor|].
  destruct e; simpl; auto.
  constructor; [|exact IH]. simpl in *.
  apply andb_true_iff in He. destruct He as [He _].
  apply andb_true_iff in He. destruct He as [Hi Hk].
  apply str_eqb_eq in Hi. apply negb_true_iff in Hk. auto.
Qed.

Lemma subs_unfold me cc _id w :
  subs me cc _id w
  = subs_loop (S (List.length (inbox w))) me cc _id (with_running true w).
Proof. reflexivity. Qed.



(** C1.  Whatever frames arrive and whatever callable was given to
    [subscribe], the delivery loop enters the caller's callback only
    with frames whose type is not [ka], and prints only terminal
    frames; an iteration on a keepalive frame does nothing but wait;
    and [_on_message], the default callback, prints nothing for a
    keepalive message. *)
Theorem keepalive_never_delivered :
  (forall me cc _id w,
      exists new,
        trace (snd (subs me cc _id w)) = trace w ++ new
        /\ Forall (fun e => loop_event_ok _id e = true) new
        /\ Forall (fun ir => fst ir = _id /\ type_is (snd ir) (lit "ka") = false)
             (callbacks new))
  /\ (forall f me cc _id w text rest r,
        _subscription_running w = true -> inbox w = text :: rest ->
        loads text = Some r -> type_is r (lit "ka") = true ->
        subs_loop (S f) me cc _id w
        = subs_loop f me cc _id (set_inbox rest (log [EvRecv text; EvSleep 1] w)))
  /\ (forall message w r,
        loads message = Some r -> type_is r (lit "ka") = true ->
        _on_message message w = (Ok tt, w)).
Proof.
  split; [|split].
  - intros me cc _id w. rewrite subs_unfold.
    destruct (subs_loop_events (S (List.length (inbox w))) me cc _id
                (with_running true w)) as (new & Hnew & Hok).
    exists new. split; [exact Hnew|]. split; [exact Hok|].
    now apply callbacks_ok.
  - exact iter_keepalive.
  - intros message w r Hl Hka.
    destruct (type_is_members _ _ Hka) as (members & ty & -> & Hty & Hs).
    unfold _on_message, json_loads. rewrite Hl.
    unfold bind at 1. unfold ret at 1.
    unfold bind at 1. unfold subscript. rewrite Hty.
    unfold ret at 1. rewrite Hs. reflexivity.
Qed.

Lemma keepalive_never_delivered_witness :
  _on_message (dumps ka_frame) Samples.w_scenario = (Ok tt, Samples.w_scenario).
Proof.
  apply (proj2 (proj2 keepalive_never_delivered) (dumps ka_frame)
           Samples.w_scenario ka_frame).
  - vm_compute. reflexivity.
  - reflexivity.
Defined.

Lemma run_thread_spawned t cc _id others w :
  spawned w = (t, (cc, _id)) :: others ->
  run_thread t w = subs t cc _id w.
Proof.
  intros H. unfold run_thread. rewrite H. cbn [find fst].
  now rewrite Nat.eqb_refl.
Qed.

(** C4.  After [subscribe] with a callback that returns normally, on a
    transport that yields a data frame, a keepalive, a data frame and a
    [complete] frame, the thread of the subscription enters the
    callback exactly twice, once for each data frame and in that
    order; it takes nothing more from the transport after [complete];
    its run ends there (by the [RuntimeError] of joining itself), and
    the running flag is false. *)
Theorem scenario_data_ka_data_complete
    (q v h : json) (g : pystr -> json -> option exn) (w0 w1 : world) (X : pystr)
    (t1 t2 t3 t4 : pystr) (r1 r2 r3 r4 : json) :
  subscribe q v h (Some g) w0 = (Ok X, w1) ->
  inbox w1 = [t1; t2; t3; t4] ->
  loads t1 = Some r1 -> type_is r1 (lit "data") = true ->
  loads t2 = Some r2 -> type_is r2 (lit "ka") = true ->
  loads t3 = Some r3 -> type_is r3 (lit "data") = true ->
  loads t4 = Some r4 -> type_is r4 (lit "complete") = true ->
  g X r1 = None -> g X r3 = None ->
  exists t w2,
    _st_id w1 = Some t
    /\ run_thread t w1 = (Raise RuntimeError, w2)
    /\ trace w2
       = trace w1 ++
           [EvRecv t1; EvCallback X r1; EvSleep 1;
            EvRecv t2; EvSleep 1;
            EvRecv t3; EvCallback X r3; EvSleep 1;
            EvRecv t4; EvPrint (PValue r4)]
    /\ callbacks (trace w2) = callbacks (trace w1) ++ [(X, r1); (X, r3)]
    /\ inbox w2 = []
    /\ _subscription_running w2 = false.
Proof.
  intros Hsub Hin H1 K1 H2 K2 H3 K3 H4 K4 G1 G3.
  destruct (subscribe_inv _ _ _ _ _ _ _ Hsub) as (a & rest & Hin0).
  destruct (subscribe_ok q v h (Some g) w0 a rest Hin0)
    as (w' & Hs & Hst & _ & Hsp & _ & _ & _).
  rewrite Hsub in Hs. inversion Hs; subst w' X. clear Hs.
  exists (next_thread w0). eexists.
  split; [exact Hst|].
  rewrite (run_thread_spawned _ _ _ _ _ Hsp), subs_unfold.
  rewrite Hin. cbn [List.length].
  erewrite iter_deliver;
    [|reflexivity|exact Hin|exact H1|exact K1|discriminate ..|exact G1].
  erewrite iter_keepalive; [|reflexivity|reflexivity|exact H2|exact K2].
  erewrite iter_deliver;
    [|reflexivity|reflexivity|exact H3|exact K3|discriminate ..|exact G3].
  erewrite iter_terminal; [|reflexivity|reflexivity|exact H4|].
  2:{ unfold terminal. rewrite K4. apply orb_true_r. }
  rewrite stop_subscribe_self by exact Hst.
  autorewrite with world.
  split; [reflexivity|].
  cbn [trace inbox _subscription_running with_running set_inbox log].
  split; [reflexivity|]. split; [|split; reflexivity].
  rewrite callbacks_app. reflexivity.
Qed.

Lemma scenario_data_ka_data_complete_witness :
  exists t w2,
    _st_id (snd (subscribe Samples.operation JNull JNull (Some Samples.quiet)
                  Samples.w_scenario)) = Some t
    /\ run_thread t
         (snd (subscribe Samples.operation JNull JNull (Some Samples.quiet)
                 Samples.w_scenario))
       = (Raise RuntimeError, w2)
    /\ trace w2
       = trace (snd (subscribe Samples.operation JNull JNull (Some Samples.quiet)
                       Samples.w_scenario)) ++
           [EvRecv (dumps Samples.data1); EvCallback Samples.X Samples.data1;
            EvSleep 1;
            EvRecv (dumps ka_frame); EvSleep 1;
            EvRecv (dumps Samples.data2); EvCallback Samples.X Samples.data2;
            EvSleep 1;
            EvRecv (dumps Samples.complete); EvPrint (PValue Samples.complete)]
    /\ callbacks (trace w2)
       = callbacks
           (trace (snd (subscribe Samples.operation JNull JNull
                          (Some Samples.quiet) Samples.w_scenario)))
           ++ [(Samples.X, Samples.data1); (Samples.X, Samples.data2)]
    /\ inbox w2 = []
    /\ _subscription_running w2 = false.
Proof.
  apply (scenario_data_ka_data_complete Samples.operation JNull JNull
           Samples.quiet Samples.w_scenario _ Samples.X
           (dumps Samples.data1) (dumps ka_frame) (dumps Samples.data2)
           (dumps Samples.complete)
           Samples.data1 ka_frame Samples.data2 Samples.complete);
    vm_compute; reflexivity.
Defined.

Lemma sent_app tr1 tr2 : sent (tr1 ++ tr2) = sent tr1 ++ sent tr2.
Proof.
  induction tr1 as [|e tr1 IH]; [reflexivity|].
  destruct e; simpl; rewrite ?IH; reflexivity.
Qed.

(** When the stored thread is another one, the terminal frame is
    followed by the whole of [stop_subscribe]. *)
Lemma terminal_frame_other_thread f me cc _id w text rest r t c rest' :
  _subscription_running w = true -> _st_id w = Some t -> t <> me ->
  inbox w = text :: rest -> rest = c :: rest' ->
  loads text = Some r -> terminal r = true ->
  subs_loop (S f) me cc _id w
  = (Ok tt,
     with_running false
       (set_inbox rest'
          (log [EvRecv text; EvPrint (PValue r); EvJoin t;
                EvSend (dumps (stop_frame _id)); EvRecv c] w))).
Proof.
  intros Hrun Hst Hne Hin -> Hl Ht.
  rewrite (iter_terminal f me cc _id w text (c :: rest') r Hrun Hin Hl Ht).
  rewrite (stop_subscribe_other me _id _ t c rest') by (assumption || reflexivity).
  now autorewrite with world.
Qed.

(** C5, what the code does.  In a delivery loop run by the thread that
    [self._st_id] holds, as it always is while one subscription is
    active, a frame of type [error] or [complete] is printed and the
    running flag is cleared, but [stop_subscribe] then joins the thread
    it runs on: [RuntimeError] ends the loop, no [stop] frame is sent
    and no receive follows; the callback is not entered. *)
Theorem terminal_frame_joins_own_thread
    (f : nat) (me : thread) (cc : callback) (_id : pystr) (w : world)
    (text : pystr) (rest : list pystr) (r : json) :
  _subscription_running w = true -> _st_id w = Some me ->
  inbox w = text :: rest ->
  loads text = Some r -> terminal r = true ->
  exists w',
    subs_loop (S f) me cc _id w = (Raise RuntimeError, w')
    /\ trace w' = trace w ++ [EvRecv text; EvPrint (PValue r)]
    /\ sent (trace w') = sent (trace w)
    /\ callbacks (trace w') = callbacks (trace w)
    /\ inbox w' = rest
    /\ _subscription_running w' = false.
Proof.
  intros Hrun Hst Hin Hl Ht.
  rewrite (iter_terminal f me cc _id w text rest r Hrun Hin Hl Ht).
  rewrite stop_subscribe_self by exact Hst.
  eexists. split; [reflexivity|].
  cbn [trace inbox _subscription_running with_running set_inbox log].
  rewrite sent_app, callbacks_app. cbn [sent callbacks].
  rewrite !app_nil_r. repeat split.
Qed.

Lemma terminal_frame_joins_own_thread_witness :
  exists w',
    subs_loop 2 1 (UserCallback Samples.quiet) Samples.X
      (with_running true
         (snd (subscribe Samples.operation JNull JNull (Some Samples.quiet)
                 Samples.w_complete)))
    = (Raise RuntimeError, w')
    /\ trace w'
       = trace (with_running true
                  (snd (subscribe Samples.operation JNull JNull
                          (Some Samples.quiet) Samples.w_complete)))
           ++ [EvRecv (dumps Samples.complete); EvPrint (PValue Samples.complete)]
    /\ sent (trace w')
       = sent (trace (with_running true
                        (snd (subscribe Samples.operation JNull JNull
                                (Some Samples.quiet) Samples.w_complete))))
    /\ callbacks (trace w')
       = callbacks (trace (with_running true
                             (snd (subscribe Samples.operation JNull JNull
                                     (Some Samples.quiet) Samples.w_complete))))
    /\ inbox w' = []
    /\ _subscription_running w' = false.
Proof.
  apply (terminal_frame_joins_own_thread 1 1 (UserCallback Samples.quiet)
           Samples.X _ (dumps Samples.complete) [] Samples.complete);
    vm_compute; reflexivity.
Defined.

(** The run of the subscription thread on a transport that answers
    [start] with [complete]: the frames sent are those of
    [connection_init] and [start] only. *)
Lemma complete_frame_run_sends_no_stop :
  exists w2,
    run_thread 1
      (snd (subscribe Samples.operation JNull JNull (Some Samples.quiet)
              Samples.w_complete))
    = (Raise RuntimeError, w2)
    /\ sent (trace w2)
       = [dumps (conn_init_frame JNull);
          dumps (start_frame Samples.X
                   (operation_payload JNull Samples.operation JNull))].
Proof.
  eexists. split; vm_compute; reflexivity.
Qed.



End LoopFacts.

(** ** The HTTP client: failures and invariants *)

Module HttpEdgeFacts.
Import TextFacts MonadFacts HttpFacts Http.

Lemma dict_get_set_same k v d : dict_get k (dict_set k v d) = Some v.
Proof.
  induction d as [|[k' v'] d IH]; simpl.
  - now rewrite str_eqb_refl.
  - destruct (str_eqb k k') eqn:E; simpl.
    + now rewrite str_eqb_refl.
    + now rewrite E.
Qed.

Lemma dict_get_set_other k k0 v d :
  k0 <> k -> dict_get k0 (dict_set k v d) = dict_get k0 d.
Proof.
  intros Hne.
  assert (Hf : str_eqb k0 k = false).
  { destruct (str_eqb k0 k) eqn:E; [|reflexivity].
    apply str_eqb_eq in E. contradiction. }
  induction d as [|[k' v'] d IH]; simpl.
  - now rewrite Hf.
  - destruct (str_eqb k k') eqn:E; simpl.
    + apply str_eqb_eq in E. subst k'. now rewrite Hf.
    + now rewrite IH.
Qed.

Lemma sleeps_app tr1 tr2 : sleeps (tr1 ++ tr2) = sleeps tr1 ++ sleeps tr2.
Proof.
  induction tr1 as [|e tr1 IH]; [reflexivity|].
  destruct e; simpl; rewrite ?IH; reflexivity.
Qed.

Lemma urlopens_app tr1 tr2 : urlopens (tr1 ++ tr2) = urlopens tr1 + urlopens tr2.
Proof.
  induction tr1 as [|e tr1 IH]; simpl; auto.
  destruct e; simpl; auto.
Qed.

Lemma session_run_nil ep body hs w : session_run ep body hs w w [].
Proof.
  split; simpl; auto. now rewrite app_nil_r.
Qed.

Lemma session_run_app ep body hs w w1 w2 new1 new2 :
  session_run ep body hs w w1 new1 -> session_run ep body hs w1 w2 new2 ->
  session_run ep body hs w w2 (new1 ++ new2).
Proof.
  intros [T1 E1 P1 S1 U1] [T2 E2 P2 S2 U2]. split.
  - now rewrite T2, T1, app_assoc.
  - apply Forall_app; auto.
  - rewrite P2, P1, posts_app, skipn_skipn. f_equal. lia.
  - rewrite sleeps_app, posts_app, length_app. lia.
  - rewrite urlopens_app. lia.
Qed.

Lemma session_run_print ep body hs w p :
  session_run ep body hs w (log [EvPrint p] w) [EvPrint p].
Proof.
  split; simpl; auto. repeat constructor.
Qed.

Lemma trials_run n self body hs : forall req w,
  exists new,
    session_run (endpoint self) body hs w
      (snd (snd (trials n self body hs req w))) new
    /\ (0 < n -> exists rest, new = EvPost (endpoint self) body hs :: rest)
    /\ posts new <= n.
Proof.
  induction n as [|n IH]; intros req w.
  - exists []. split; [apply session_run_nil|]. split; [lia|]. simpl; lia.
  - cbn [trials]. unfold session_post.
    rewrite (bind_ok _ _ _ _ _ (emit_log _ w)). cbn [peer log].
    set (post := EvPost (endpoint self) body hs).
    assert (Hpost : forall p,
               peer w = p ->
               session_run (endpoint self) body hs w (set_peer (tl p) (log [post] w))
                 [post]).
    { intros p Hp. split; simpl; auto.
      - repeat constructor.
      - rewrite Hp. now destruct p. }
    destruct (peer w) as [|[r|e] more] eqn:Hp.
    + exists [post]. split.
      * specialize (Hpost [] eq_refl). simpl in Hpost.
        replace (log [post] w) with (set_peer [] (log [post] w)); [exact Hpost|].
        unfold set_peer, log; simpl. rewrite Hp. reflexivity.
      * split; [eauto|simpl; lia].
    + destruct (status_code r =? 200)%Z.
      * exists [post]. split; [exact (Hpost _ eq_refl)|].
        split; [eauto|simpl; lia].
      * destruct (IH (Some r) (snd (sleep 1 (set_peer more (log [post] w)))))
          as (new & Hrun & _ & Hle).
        exists ([post; EvSleep 1] ++ new). split.
        -- eapply session_run_app; [|exact Hrun].
           split; simpl; auto.
           ++ now rewrite <- app_assoc.
           ++ repeat constructor.
           ++ now rewrite Hp.
        -- split; [simpl; eauto|]. rewrite posts_app. simpl. lia.
    + exists [post]. split; [exact (Hpost _ eq_refl)|].
      split; [eauto|simpl; lia].
Qed.

Lemma session_handler_run ep body hs req e w :
  exists new,
    session_run ep body hs w (snd (session_handler req e w)) new
    /\ posts new = 0.
Proof.
  set (banner := EvPrint (PText (lit "Request failed with error:" ++ [10%N]))).
  unfold session_handler, print, bind, emit, raise, ret; simpl.
  destruct req as [r|]; [destruct (response_ok r)|]; simpl.
  - exists [banner; EvPrint (PText (content r)); EvPrint (PText [])].
    split; [|reflexivity]. split; simpl; rewrite <- ?app_assoc; auto.
    repeat constructor.
  - exists [banner; EvPrint (PText [])].
    split; [|reflexivity]. split; simpl; rewrite <- ?app_assoc; auto.
    repeat constructor.
  - exists [banner].
    split; [|reflexivity]. split; simpl; rewrite <- ?app_assoc; auto.
    repeat constructor.
Qed.

Lemma send_session_run self body hs w :
  exists new,
    session_run (endpoint self) body hs w (snd (send_session self body hs w)) new
    /\ (exists rest, new = EvPost (endpoint self) body hs :: rest)
    /\ posts new <= 3.
Proof.
  unfold send_session, number_of_trials.
  destruct (trials_run 3 self body hs None w) as (new & Hrun & Hhd & Hle).
  destruct (Hhd ltac:(lia)) as (rest & ->).
  destruct (trials 3 self body hs None w) as [req [[u|e|] w1]]; cbn [snd] in *.
  - pose proof (response_json_trace req w1) as Hj.
    destruct (response_json req w1) as [[j|e|] w2]; cbn [snd] in *; subst w2;
      try (eexists; split; [exact Hrun|]; split; [eauto|exact Hle]).
    destruct (session_handler_run (endpoint self) body hs req e w1)
      as (new2 & Hrun2 & Hp2).
    eexists. split; [eapply session_run_app; eassumption|].
    split; [simpl; eauto|]. rewrite posts_app. lia.
  - destruct (session_handler_run (endpoint self) body hs req e w1)
      as (new2 & Hrun2 & Hp2).
    eexists. split; [eapply session_run_app; eassumption|].
    split; [simpl; eauto|]. rewrite posts_app. lia.
  - eexists; split; [exact Hrun|]; split; [eauto|exact Hle].
Qed.


Lemma session_post_netfail ep body hs w e more :
  peer w = NetFail e :: more ->
  session_post ep body hs w = (Raise e, set_peer more (log [EvPost ep body hs] w)).
Proof.
  intros H. unfold session_post. rewrite (bind_ok _ _ _ _ _ (emit_log _ w)).
  simpl. now rewrite H.
Qed.

Lemma trials_netfail k self body hs req w e more :
  peer w = NetFail e :: more ->
  trials (S k) self body hs req w
  = (req, (Raise e, set_peer more (log [EvPost (endpoint self) body hs] w))).
Proof.
  intros Hp. simpl. now rewrite (session_post_netfail _ _ _ _ _ _ Hp).
Qed.

(** The handler of the session path once a response is bound. *)
Lemma session_handler_bound r e w :
  session_handler (Some r) e w
  = (Raise e,
     log ([EvPrint (PText (lit "Request failed with error:" ++ [10%N]))]
            ++ (if response_ok r then [EvPrint (PText (content r))] else [])
            ++ [EvPrint (PText [])]) w).
Proof.
  unfold session_handler, print, bind, emit, raise, ret, log; simpl.
  destruct (response_ok r); simpl; rewrite <- ?app_assoc; reflexivity.
Qed.

Lemma session_handler_unbound e w :
  session_handler None e w
  = (Raise UnboundLocalError,
     log [EvPrint (PText (lit "Request failed with error:" ++ [10%N]))] w).
Proof. reflexivity. Qed.

Lemma last_cons {A} (l : list A) : forall x d, last (x :: l) d = last l x.
Proof.
  induction l as [|y l IH]; intros x d; [reflexivity|].
  change (last (x :: y :: l) d) with (last (y :: l) d).
  rewrite (IH y d), (IH y x). reflexivity.
Qed.

(** The trials when the posts are answered by [pre], none with status
    200, and there are trials left. *)
Lemma trials_retries self body hs : forall pre k req w more,
  peer w = map Reply pre ++ more ->
  Forall (fun r => status_code r <> 200%Z) pre ->
  trials (List.length pre + k) self body hs req w
  = trials k self body hs (last (map Some pre) req)
      (set_peer more
         (log (flat_map (fun _ => [EvPost (endpoint self) body hs; EvSleep 1]) pre)
            w)).
Proof.
  induction pre as [|r pre IH]; intros k req w more Hp Hpre.
  - simpl in *. rewrite log_nil. f_equal.
    destruct w; unfold set_peer; simpl in *. now subst.
  - inversion Hpre as [|? ? H1 Hpre']; subst. simpl in Hp.
    cbn [List.length Nat.add].
    rewrite (trials_retry _ _ _ _ _ _ _ _ Hp H1).
    rewrite (IH k (Some r) _ more) by (auto; reflexivity).
    autorewrite with world. cbn [flat_map app map].
    now rewrite last_cons.
Qed.

(** X1.  [inject_token(token, headername)] makes every later request
    carry the header [headername] with the value [token]: a lookup of
    [headername] in the headers of the request gives [token]; the other
    headers are those of a client without a token; an earlier token is
    forgotten, with its header name; and the first thing [execute] does
    is the request with these headers, a [post] of the session when
    there is one and a [urlopen] otherwise. *)
Theorem injected_token_header_is_sent
    (self : GraphQLClient) (token headername : pystr) :
  let self' := inject_token self token headername in
  let hs := request_headers self' in
  dict_get headername hs = Some (JStr token)
  /\ (forall k, k <> headername ->
        dict_get k hs
        = dict_get k (request_headers (init (endpoint self) (session self))))
  /\ (forall token0 headername0,
        request_headers
          (inject_token (inject_token self token0 headername0) token headername)
        = hs)
  /\ (forall q v w, exists rest,
        trace (snd (execute self' q v w))
        = trace w ++
            (match session self with
             | Some _ => EvPost (endpoint self) (dumps (request_data q v)) hs
             | None => EvUrlopen (endpoint self) (dumps (request_data q v)) hs
             end) :: rest).
Proof.
  intros self' hs. split; [|split; [|split]].
  - apply dict_get_set_same.
  - intros k Hk. unfold hs, request_headers. cbn [auth self' inject_token init].
    now apply dict_get_set_other.
  - reflexivity.
  - intros q v w. unfold execute, _send.
    change (session self') with (session self).
    change (request_headers self') with hs.
    change (endpoint self) with (endpoint self').
    destruct (session self).
    + destruct (send_session_run self' (dumps (request_data q v)) hs w)
        as (new & [Ht _ _ _ _] & (rest & ->) & _).
      exists rest. exact Ht.
    + unfold send_urllib, urlopen.
      rewrite (bind_ok _ _ _ _ _ (emit_log _ w)). cbn [peer log].
      destruct (peer w) as [|[r|e] more].
      * eexists. reflexivity.
      * destruct ((200 <=? status_code r) && (status_code r <? 300))%Z.
        -- unfold print. rewrite (bind_ok _ _ _ _ _ (emit_log _ _)).
           unfold json_loads. destruct (loads (content r)); unfold ret, raise;
             cbn [snd trace log set_peer]; rewrite <- app_assoc;
             eexists; reflexivity.
        -- unfold print. rewrite (bind_ok _ _ _ _ _ (emit_log _ _)).
           rewrite (bind_ok _ _ _ _ _ (emit_log _ _)). unfold raise.
           cbn [snd trace log set_peer]. rewrite <- !app_assoc.
           eexists; reflexivity.
      * destruct e; try (eexists; reflexivity).
        unfold print. rewrite (bind_ok _ _ _ _ _ (emit_log _ _)).
        rewrite (bind_ok _ _ _ _ _ (emit_log _ _)). unfold raise.
        cbn [snd trace log set_peer]. rewrite <- !app_assoc.
        eexists; reflexivity.
Qed.

(** X2.  With a session, when the very first [post] raises, the local
    [req] is still unbound when the handler tests it: after the line
    [Request failed with error:] the call ends with [UnboundLocalError],
    and the exception of the [post] does not reach the caller.  Nothing
    is tried again. *)
Theorem first_post_failure_is_masked
    (self : GraphQLClient) (q v : json) (w : world) (e : exn) (more : list reply) :
  session self <> None ->
  peer w = NetFail e :: more ->
  exists w',
    execute self q v w = (Raise UnboundLocalError, w')
    /\ trace w'
       = trace w ++
           [EvPost (endpoint self) (dumps (request_data q v)) (request_headers self);
            EvPrint (PText (lit "Request failed with error:" ++ [10%N]))]
    /\ peer w' = more.
Proof.
  intros Hs Hp. rewrite (execute_session _ _ _ _ Hs).
  unfold send_session, number_of_trials.
  rewrite (trials_netfail _ _ _ _ _ _ _ _ Hp).
  rewrite session_handler_unbound. autorewrite with world.
  eexists. split; [reflexivity|]. split; reflexivity.
Qed.

Lemma first_post_failure_is_masked_witness :
  exists w',
    execute (init (lit "http://api") (Some Session)) (JStr (lit "{ me }")) JNull
      (set_peer [NetFail (NetworkError (lit "refused"))] (Ws.init [] (fun _ => 0%N)))
    = (Raise UnboundLocalError, w')
    /\ trace w'
       = [] ++
           [EvPost (lit "http://api") (dumps (request_data (JStr (lit "{ me }")) JNull))
              (request_headers (init (lit "http://api") (Some Session)));
            EvPrint (PText (lit "Request failed with error:" ++ [10%N]))]
    /\ peer w' = [].
Proof.
  apply (first_post_failure_is_masked (init (lit "http://api") (Some Session))
           (JStr (lit "{ me }")) JNull
           (set_peer [NetFail (NetworkError (lit "refused"))]
              (Ws.init [] (fun _ => 0%N)))
           (NetworkError (lit "refused")) []).
  - discriminate.
  - reflexivity.
Defined.

(** X3.  With a session, when a [post] raises after earlier posts were
    answered (none with status 200), the exception of that [post] is
    raised to the caller, after the line [Request failed with error:],
    the body of the last answer received (printed only when its status
    is not in 400..599) and an empty line.  The failed [post] is not
    tried again. *)
Theorem later_post_failure_is_reraised
    (self : GraphQLClient) (q v : json) (w : world)
    (pre : list response) (prev : response) (e : exn) (more : list reply) :
  session self <> None ->
  peer w = map Reply (pre ++ [prev]) ++ NetFail e :: more ->
  Forall (fun r => status_code r <> 200%Z) (pre ++ [prev]) ->
  List.length pre <= 1 ->
  let post := EvPost (endpoint self) (dumps (request_data q v))
                (request_headers self) in
  exists w',
    execute self q v w = (Raise e, w')
    /\ trace w'
       = trace w ++ flat_map (fun _ => [post; EvSleep 1]) (pre ++ [prev])
           ++ [post; EvPrint (PText (lit "Request failed with error:" ++ [10%N]))]
           ++ (if response_ok prev then [EvPrint (PText (content prev))] else [])
           ++ [EvPrint (PText [])]
    /\ peer w' = more.
Proof.
  intros Hs Hp Hpre Hlen post. rewrite (execute_session _ _ _ _ Hs).
  unfold send_session, number_of_trials.
  assert (Hk : exists k, 3 = List.length (pre ++ [prev]) + S k).
  { rewrite length_app. simpl. exists (1 - List.length pre). lia. }
  destruct Hk as (k & ->).
  rewrite (trials_retries self _ _ (pre ++ [prev]) (S k) None w _ Hp Hpre).
  rewrite map_app. cbn [map]. rewrite last_last.
  erewrite trials_netfail by reflexivity.
  rewrite session_handler_bound. autorewrite with world.
  eexists. split; [reflexivity|]. split; [|reflexivity].
  cbn [trace set_peer log]. fold post. reflexivity.
Qed.

Lemma later_post_failure_is_reraised_witness :
  exists w',
    execute (init (lit "http://api") (Some Session)) (JStr (lit "{ me }")) JNull
      (set_peer [Reply (mkResponse 503 (lit "busy"));
                 NetFail (NetworkError (lit "reset"))]
         (Ws.init [] (fun _ => 0%N)))
    = (Raise (NetworkError (lit "reset")), w')
    /\ trace w'
       = [] ++ flat_map
                 (fun _ => [EvPost (lit "http://api")
                              (dumps (request_data (JStr (lit "{ me }")) JNull))
                              (request_headers (init (lit "http://api") (Some Session)));
                            EvSleep 1])
                 ([] ++ [mkResponse 503 (lit "busy")])
           ++ [EvPost (lit "http://api")
                 (dumps (request_data (JStr (lit "{ me }")) JNull))
                 (request_headers (init (lit "http://api") (Some Session)));
               EvPrint (PText (lit "Request failed with error:" ++ [10%N]))]
           ++ (if response_ok (mkResponse 503 (lit "busy"))
               then [EvPrint (PText (content (mkResponse 503 (lit "busy"))))]
               else [])
           ++ [EvPrint (PText [])]
    /\ peer w' = [].
Proof.
  apply (later_post_failure_is_reraised (init (lit "http://api") (Some Session))
           (JStr (lit "{ me }")) JNull
           (set_peer [Reply (mkResponse 503 (lit "busy"));
                      NetFail (NetworkError (lit "reset"))]
              (Ws.init [] (fun _ => 0%N)))
           [] (mkResponse 503 (lit "busy")) (NetworkError (lit "reset")) []).
  - discriminate.
  - reflexivity.
  - repeat constructor. simpl. discriminate.
  - simpl. lia.
Defined.


(** The trials when every post is answered: [pre] are the answers that
    made it try again, [last] the answer it stopped at. *)
Lemma trials_answered self body hs w pre last more :
  peer w = map Reply (pre ++ [last]) ++ more ->
  Forall (fun r => status_code r <> 200%Z) pre ->
  (List.length pre = 2 \/ (List.length pre < 2 /\ status_code last = 200%Z)) ->
  trials number_of_trials self body hs None w
  = (Some last,
     (Ok tt,
      set_peer more
        (log (flat_map (fun _ => [EvPost (endpoint self) body hs; EvSleep 1]) pre
                ++ [EvPost (endpoint self) body hs]
                ++ (if (status_code last =? 200)%Z then [] else [EvSleep 1]))
           w))).
Proof.
  intros Hp Hpre Hlen. unfold number_of_trials.
  assert (Hk : exists k, 3 = List.length pre + S k
                         /\ (k = 0 \/ status_code last = 200%Z)).
  { exists (2 - List.length pre). lia. }
  destruct Hk as (k & -> & Hk).
  rewrite map_app, <- app_assoc in Hp. cbn [map app] in Hp.
  rewrite (trials_retries self _ _ pre (S k) None w _ Hp Hpre).
  destruct (Z.eq_dec (status_code last) 200) as [E|E].
  - erewrite trials_stop by (reflexivity || exact E).
    rewrite E. cbn [Z.eqb Pos.eqb]. autorewrite with world. reflexivity.
  - destruct Hk as [->|Hk]; [|contradiction].
    erewrite trials_retry by (reflexivity || exact E).
    apply Z.eqb_neq in E. rewrite E. cbn [trials].
    autorewrite with world. reflexivity.
Qed.

(** X4.  With a session, when the posts are answered but the body of
    the answer the trials stopped at is not JSON, [JSONDecodeError] is
    raised to the caller, after the line [Request failed with error:],
    that body (printed only when the status is not in 400..599) and an
    empty line; the request is not posted again for it. *)
Theorem session_body_not_json_is_raised
    (self : GraphQLClient) (q v : json) (w : world)
    (pre : list response) (last : response) (more : list reply) :
  session self <> None ->
  peer w = map Reply (pre ++ [last]) ++ more ->
  Forall (fun r => status_code r <> 200%Z) pre ->
  (List.length pre = 2 \/ (List.length pre < 2 /\ status_code last = 200%Z)) ->
  loads (content last) = None ->
  let post := EvPost (endpoint self) (dumps (request_data q v))
                (request_headers self) in
  exists w',
    execute self q v w = (Raise JSONDecodeError, w')
    /\ trace w'
       = trace w ++ flat_map (fun _ => [post; EvSleep 1]) pre ++ [post]
           ++ (if (status_code last =? 200)%Z then [] else [EvSleep 1])
           ++ [EvPrint (PText (lit "Request failed with error:" ++ [10%N]))]
           ++ (if response_ok last then [EvPrint (PText (content last))] else [])
           ++ [EvPrint (PText [])]
    /\ peer w' = more.
Proof.
  intros Hs Hp Hpre Hlen Hj post. rewrite (execute_session _ _ _ _ Hs).
  unfold send_session.
  rewrite (trials_answered self _ _ w pre last more Hp Hpre Hlen).
  unfold response_json, json_loads. rewrite Hj. unfold raise.
  rewrite session_handler_bound. autorewrite with world.
  eexists. split; [reflexivity|]. split; [|reflexivity].
  cbn [trace set_peer log]. fold post. rewrite <- !app_assoc. reflexivity.
Qed.

Lemma session_body_not_json_is_raised_witness :
  exists w',
    execute (init (lit "http://api") (Some Session)) (JStr (lit "{ me }")) JNull
      (set_peer [Reply (mkResponse 200 (lit "<html>"))] (Ws.init [] (fun _ => 0%N)))
    = (Raise JSONDecodeError, w')
    /\ trace w'
       = [] ++ flat_map
                 (fun _ : response => [EvPost (lit "http://api")
                              (dumps (request_data (JStr (lit "{ me }")) JNull))
                              (request_headers (init (lit "http://api") (Some Session)));
                            EvSleep 1]) []
           ++ [EvPost (lit "http://api")
                 (dumps (request_data (JStr (lit "{ me }")) JNull))
                 (request_headers (init (lit "http://api") (Some Session)))]
           ++ (if (status_code (mkResponse 200 (lit "<html>")) =? 200)%Z
               then [] else [EvSleep 1])
           ++ [EvPrint (PText (lit "Request failed with error:" ++ [10%N]))]
           ++ (if response_ok (mkResponse 200 (lit "<html>"))
               then [EvPrint (PText (content (mkResponse 200 (lit "<html>"))))]
               else [])
           ++ [EvPrint (PText [])]
    /\ peer w' = [].
Proof.
  apply (session_body_not_json_is_raised (init (lit "http://api") (Some Session))
           (JStr (lit "{ me }")) JNull
           (set_peer [Reply (mkResponse 200 (lit "<html>"))]
              (Ws.init [] (fun _ => 0%N)))
           [] (mkResponse 200 (lit "<html>")) []).
  - discriminate.
  - reflexivity.
  - constructor.
  - right. simpl. split; [lia|reflexivity].
  - vm_compute. reflexivity.
Defined.

(** X5.  With a session, whatever the peer does (answers, failures, or
    no answer at all), [execute] only posts, sleeps and prints: every
    [post] carries the same endpoint, body and headers, every delay is
    one second, there are between one and three posts and no more delays
    than posts, each [post] takes one answer of the peer, and the
    [urllib] path is never entered. *)
Theorem session_requests_are_identical
    (self : GraphQLClient) (q v : json) (w : world) :
  session self <> None ->
  exists new,
    trace (snd (execute self q v w)) = trace w ++ new
    /\ Forall (session_event_ok (endpoint self) (dumps (request_data q v))
                 (request_headers self)) new
    /\ 1 <= posts new <= 3
    /\ List.length (sleeps new) <= posts new
    /\ urlopens new = 0
    /\ peer (snd (execute self q v w)) = skipn (posts new) (peer w).
Proof.
  intros Hs. rewrite (execute_session _ _ _ _ Hs).
  destruct (send_session_run self (dumps (request_data q v)) (request_headers self) w)
    as (new & [Ht He Hp Hsl Hu] & (rest & Hhd) & Hle).
  exists new. repeat split; auto.
  subst new. simpl. lia.
Qed.

Lemma session_requests_are_identical_witness :
  exists new,
    trace (snd (execute (init (lit "http://api") (Some Session))
                  (JStr (lit "{ me }")) JNull
                  (set_peer [Reply (mkResponse 500 (lit "[1]"))]
                     (Ws.init [] (fun _ => 0%N)))))
    = [] ++ new
    /\ Forall (session_event_ok (lit "http://api")
                 (dumps (request_data (JStr (lit "{ me }")) JNull))
                 (request_headers (init (lit "http://api") (Some Session)))) new
    /\ 1 <= posts new <= 3
    /\ List.length (sleeps new) <= posts new
    /\ urlopens new = 0
    /\ peer (snd (execute (init (lit "http://api") (Some Session))
                    (JStr (lit "{ me }")) JNull
                    (set_peer [Reply (mkResponse 500 (lit "[1]"))]
                       (Ws.init [] (fun _ => 0%N)))))
       = skipn (posts new) [Reply (mkResponse 500 (lit "[1]"))].
Proof.
  apply (session_requests_are_identical (init (lit "http://api") (Some Session))
           (JStr (lit "{ me }")) JNull
           (set_peer [Reply (mkResponse 500 (lit "[1]"))]
              (Ws.init [] (fun _ => 0%N)))).
  discriminate.
Defined.

Lemma urlopen_netfail ep body hs w e more :
  peer w = NetFail e :: more ->
  urlopen ep body hs w = (Raise e, set_peer more (log [EvUrlopen ep body hs] w)).
Proof.
  intros H. unfold urlopen. rewrite (bind_ok _ _ _ _ _ (emit_log _ w)).
  simpl. now rewrite H.
Qed.

Lemma urlopen_blocked ep body hs w :
  peer w = [] ->
  urlopen ep body hs w = (Blocked, log [EvUrlopen ep body hs] w).
Proof.
  intros H. unfold urlopen. rewrite (bind_ok _ _ _ _ _ (emit_log _ w)).
  simpl. now rewrite H.
Qed.

(** The run of the path without a session, case by case. *)
Lemma send_urllib_cases self body hs w :
  send_urllib self body hs w
  = let w1 := set_peer (tl (peer w)) (log [EvUrlopen (endpoint self) body hs] w) in
    match peer w with
    | [] => (Blocked, w1)
    | Reply r :: _ =>
        if ((200 <=? status_code r) && (status_code r <? 300))%Z then
          (match loads (content r) with
           | Some j => Ok j
           | None => Raise JSONDecodeError
           end,
           log [EvPrint (PTexts [lit ">>>>"; content r])] w1)
        else
          (Raise (HTTPError (status_code r) (content r)),
           log [EvPrint (PText (content r)); EvPrint (PText [])] w1)
    | NetFail (HTTPError code page) :: _ =>
        (Raise (HTTPError code page),
         log [EvPrint (PText page); EvPrint (PText [])] w1)
    | NetFail e :: _ => (Raise e, w1)
    end.
Proof.
  unfold send_urllib. cbv zeta.
  destruct (peer w) as [|[r|e] more] eqn:Hp; cbn [tl].
  - rewrite (urlopen_blocked _ _ _ _ Hp).
    f_equal. destruct w; unfold set_peer, log; simpl in *. now subst.
  - rewrite (urlopen_reply _ _ _ _ _ _ Hp).
    destruct ((200 <=? status_code r) && (status_code r <? 300))%Z.
    + unfold print. rewrite (bind_ok _ _ _ _ _ (emit_log _ _)).
      unfold json_loads. destruct (loads (content r)); reflexivity.
    + unfold print. rewrite (bind_ok _ _ _ _ _ (emit_log _ _)).
      rewrite (bind_ok _ _ _ _ _ (emit_log _ _)). unfold raise.
      now autorewrite with world.
  - rewrite (urlopen_netfail _ _ _ _ _ _ Hp).
    destruct e; try reflexivity.
    unfold print. rewrite (bind_ok _ _ _ _ _ (emit_log _ _)).
    rewrite (bind_ok _ _ _ _ _ (emit_log _ _)). unfold raise.
    now autorewrite with world.
Qed.

Lemma sessionless_trace self q v w :
  session self = None ->
  exists rest,
    trace (snd (execute self q v w))
    = trace w ++
        EvUrlopen (endpoint self) (dumps (request_data q v)) (request_headers self)
        :: rest.
Proof.
  intros Hs. rewrite (execute_sessionless _ _ _ _ Hs), send_urllib_cases.
  cbv zeta.
  destruct (peer w) as [|[r|e] more]; cbn [tl].
  - exists []. reflexivity.
  - destruct ((200 <=? status_code r) && (status_code r <? 300))%Z;
      cbn [snd trace peer log set_peer]; rewrite <- app_assoc;
      eexists; reflexivity.
  - destruct e; try (exists []; reflexivity).
    cbn [snd trace peer log set_peer]. rewrite <- app_assoc.
    eexists; reflexivity.
Qed.

(** X6.  Without a session there is one attempt and no more, whatever
    the answer: [execute] opens the URL once, with the body and headers
    of the request, takes one answer of the peer, and after that only
    prints; it never posts, never sleeps and never opens the URL a
    second time, so a status such as 500 or 503 is not tried again. *)
Theorem sessionless_single_attempt
    (self : GraphQLClient) (q v : json) (w : world) :
  session self = None ->
  exists rest,
    trace (snd (execute self q v w))
    = trace w ++
        EvUrlopen (endpoint self) (dumps (request_data q v)) (request_headers self)
        :: rest
    /\ urlopens rest = 0 /\ posts rest = 0 /\ sleeps rest = []
    /\ peer (snd (execute self q v w)) = tl (peer w).
Proof.
  intros Hs. rewrite (execute_sessionless _ _ _ _ Hs), send_urllib_cases.
  cbv zeta.
  destruct (peer w) as [|[r|e] more]; cbn [tl].
  - exists []. repeat split.
  - destruct ((200 <=? status_code r) && (status_code r <? 300))%Z;
      cbn [snd trace peer log set_peer]; rewrite <- app_assoc;
      eexists; (split; [reflexivity|]); repeat split.
  - destruct e; try solve [exists []; repeat split].
    cbn [snd trace peer log set_peer]. rewrite <- app_assoc.
    eexists; (split; [reflexivity|]); repeat split.
Qed.

Lemma sessionless_single_attempt_witness :
  exists rest,
    trace (snd (execute (init (lit "http://api") None) (JStr (lit "{ me }")) JNull
                  (set_peer [Reply (mkResponse 503 (lit "busy"));
                             Reply (mkResponse 200 (lit "{}"))]
                     (Ws.init [] (fun _ => 0%N)))))
    = [] ++
        EvUrlopen (lit "http://api") (dumps (request_data (JStr (lit "{ me }")) JNull))
          (request_headers (init (lit "http://api") None))
        :: rest
    /\ urlopens rest = 0 /\ posts rest = 0 /\ sleeps rest = []
    /\ peer (snd (execute (init (lit "http://api") None) (JStr (lit "{ me }")) JNull
                    (set_peer [Reply (mkResponse 503 (lit "busy"));
                               Reply (mkResponse 200 (lit "{}"))]
                       (Ws.init [] (fun _ => 0%N)))))
       = tl [Reply (mkResponse 503 (lit "busy")); Reply (mkResponse 200 (lit "{}"))].
Proof.
  apply (sessionless_single_attempt (init (lit "http://api") None)
           (JStr (lit "{ me }")) JNull
           (set_peer [Reply (mkResponse 503 (lit "busy"));
                      Reply (mkResponse 200 (lit "{}"))]
              (Ws.init [] (fun _ => 0%N)))).
  reflexivity.
Defined.

(** X7.  Without a session, only [HTTPError] is handled.  A failure of
    another kind raised by [urlopen] reaches the caller as it is, with
    nothing printed; and when the answer has a status in 200..299 but a
    body that is not JSON, the body is printed after [>>>>] and
    [JSONDecodeError] reaches the caller. *)
Theorem sessionless_other_failures (self : GraphQLClient) (q v : json) :
  session self = None ->
  let open := EvUrlopen (endpoint self) (dumps (request_data q v))
                (request_headers self) in
  (forall w e more,
      peer w = NetFail e :: more ->
      (forall code page, e <> HTTPError code page) ->
      execute self q v w = (Raise e, set_peer more (log [open] w)))
  /\ (forall w r more,
        peer w = Reply r :: more ->
        (200 <= status_code r < 300)%Z ->
        loads (content r) = None ->
        execute self q v w
        = (Raise JSONDecodeError,
           set_peer more
             (log [open; EvPrint (PTexts [lit ">>>>"; content r])] w))).
Proof.
  intros Hs open. split.
  - intros w e more Hp He.
    rewrite (execute_sessionless _ _ _ _ Hs), send_urllib_cases, Hp.
    cbv zeta. cbn [tl]. destruct e; try reflexivity.
    exfalso. eapply He. reflexivity.
  - intros w r more Hp Hst Hj.
    rewrite (execute_sessionless _ _ _ _ Hs), send_urllib_cases, Hp.
    cbv zeta. cbn [tl].
    replace ((200 <=? status_code r) && (status_code r <? 300))%Z with true
      by (symmetry; apply andb_true_iff; rewrite Z.leb_le, Z.ltb_lt; lia).
    rewrite Hj. now autorewrite with world.
Qed.

Lemma sessionless_other_failures_witness :
  execute (init (lit "http://api") None) (JStr (lit "{ me }")) JNull
    (set_peer [Reply (mkResponse 200 (lit "<html>"))] (Ws.init [] (fun _ => 0%N)))
  = (Raise JSONDecodeError,
     set_peer []
       (log [EvUrlopen (lit "http://api")
               (dumps (request_data (JStr (lit "{ me }")) JNull))
               (request_headers (init (lit "http://api") None));
             EvPrint (PTexts [lit ">>>>"; content (mkResponse 200 (lit "<html>"))])]
          (set_peer [Reply (mkResponse 200 (lit "<html>"))]
             (Ws.init [] (fun _ => 0%N))))).
Proof.
  refine (proj2 (sessionless_other_failures (init (lit "http://api") None)
                   (JStr (lit "{ me }")) JNull _)
            _ (mkResponse 200 (lit "<html>")) [] _ _ _).
  - reflexivity.
  - reflexivity.
  - simpl. lia.
  - vm_compute. reflexivity.
Defined.

(** X8.  The body of the request is the JSON text of a [dict] with the
    two keys [query] and [variables], in this order: for JSON operands,
    a peer that decodes the body of the first request of [execute]
    (a [post] or a [urlopen]) reads back exactly the query and the
    variables that were passed.  The token is not part of the body. *)
Theorem request_body_decodes
    (self : GraphQLClient) (q v : json) (w : world) :
  json_native q = true -> json_native v = true ->
  exists body rest,
    trace (snd (execute self q v w))
    = trace w ++
        (match session self with
         | Some _ => EvPost (endpoint self) body (request_headers self)
         | None => EvUrlopen (endpoint self) body (request_headers self)
         end) :: rest
    /\ loads body = Some (JObj [(lit "query", q); (lit "variables", v)]).
Proof.
  intros Hq Hv. exists (dumps (request_data q v)).
  assert (Hl : loads (dumps (request_data q v))
               = Some (JObj [(lit "query", q); (lit "variables", v)])).
  { apply CodecFacts.loads_dumps.
    cbn [json_native request_data forallb fst snd map]. rewrite Hq, Hv.
    reflexivity. }
  destruct (session self) eqn:Hs.
  - assert (Hs' : session self <> None) by congruence.
    rewrite (execute_session _ _ _ _ Hs').
    destruct (send_session_run self (dumps (request_data q v))
                (request_headers self) w)
      as (new & [Ht _ _ _ _] & (rest & ->) & _).
    exists rest. split; [exact Ht|exact Hl].
  - destruct (sessionless_trace self q v w Hs) as (rest & Ht).
    exists rest. split; [exact Ht|exact Hl].
Qed.

Lemma request_body_decodes_witness :
  exists body rest,
    trace (snd (execute (init (lit "http://api") None) (JStr (lit "{ me }"))
                  (JObj [(lit "id", JInt 7)])
                  (set_peer [Reply (mkResponse 200 (lit "{}"))]
                     (Ws.init [] (fun _ => 0%N)))))
    = [] ++ EvUrlopen (lit "http://api") body
              (request_headers (init (lit "http://api") None)) :: rest
    /\ loads body
       = Some (JObj [(lit "query", JStr (lit "{ me }"));
                     (lit "variables", JObj [(lit "id", JInt 7)])]).
Proof.
  apply (request_body_decodes (init (lit "http://api") None)
           (JStr (lit "{ me }")) (JObj [(lit "id", JInt 7)])
           (set_peer [Reply (mkResponse 200 (lit "{}"))]
              (Ws.init [] (fun _ => 0%N))));
    reflexivity.
Defined.

End HttpEdgeFacts.

(** ** The websocket client: edge cases of the synchronous operations *)

Module WsEdgeFacts.
Import TextFacts MonadFacts IdentFacts WsFacts LoopFacts Ws.

Lemma received_app tr1 tr2 : received (tr1 ++ tr2) = received tr1 ++ received tr2.
Proof.
  induction tr1 as [|e tr1 IH]; [reflexivity|].
  destruct e; simpl; rewrite ?IH; reflexivity.
Qed.

Lemma loop_sleeps_app tr1 tr2 : sleeps (tr1 ++ tr2) = sleeps tr1 ++ sleeps tr2.
Proof.
  induction tr1 as [|e tr1 IH]; [reflexivity|].
  destruct e; simpl; rewrite ?IH; reflexivity.
Qed.

Lemma subsequence_nil {A} (l : list A) : subsequence [] l.
Proof. induction l; constructor; auto. Qed.

Lemma frame_type_members r ty :
  frame_type r = Some ty ->
  exists members, r = JObj members /\ dict_get (lit "type") members = Some ty.
Proof.
  destruct r as [| | | | | |members]; try discriminate. simpl. eauto.
Qed.

(** X9.  The edge cases of [gen_id]: for [size <= 0] it returns the
    empty string and draws nothing, whatever [chars] is; for a positive
    [size] and an empty [chars] it raises [IndexError] before anything
    is drawn; otherwise it makes exactly [size] draws, one per
    character, and touches nothing else. *)
Theorem gen_id_edge_cases :
  (forall size chars w, (size <= 0)%Z -> gen_id size chars w = (Ok [], w))
  /\ (forall size w, (0 < size)%Z -> gen_id size [] w = (Raise IndexError, w))
  /\ (forall size chars w,
        chars <> [] ->
        gen_id size chars w
        = (Ok (drawn_chars (Z.to_nat size) chars (rand_src w) (rand_pos w)),
           drawn (Z.to_nat size) w)).
Proof.
  split; [|split].
  - intros size chars w H. unfold gen_id.
    replace (Z.to_nat size) with 0 by lia. reflexivity.
  - intros size w H. unfold gen_id.
    destruct (Z.to_nat size) as [|n] eqn:E; [lia|]. reflexivity.
  - intros size chars w H. unfold gen_id. now apply gen_id_chars_ok.
Qed.

Lemma gen_id_edge_cases_witness :
  gen_id (-2) (lit "ab") (init [] (fun k => N.of_nat k))
  = (Ok [], init [] (fun k => N.of_nat k))
  /\ gen_id 4 [] (init [] (fun k => N.of_nat k))
     = (Raise IndexError, init [] (fun k => N.of_nat k)).
Proof.
  split.
  - apply (proj1 gen_id_edge_cases (-2)%Z (lit "ab")). lia.
  - apply (proj1 (proj2 gen_id_edge_cases) 4%Z). lia.
Defined.

(** X10.  [query] needs three frames from the peer.  On a transport
    that delivers fewer it never returns: it waits in a [recv] after
    having taken every frame there was and sent one frame more than it
    received ([connection_init], then [start], then [stop]).  With two
    frames the answer to [start] has been received but is not given to
    the caller. *)
Theorem query_short_transport_blocks (q v h : json) (w : world) :
  List.length (inbox w) < 3 ->
  exists w',
    query q v h w = (Blocked, w')
    /\ inbox w' = []
    /\ received (trace w') = received (trace w) ++ inbox w
    /\ sent (trace w')
       = sent (trace w)
           ++ firstn (S (List.length (inbox w)))
                [dumps (conn_init_frame h);
                 dumps (start_frame (next_id w) (operation_payload h q v));
                 dumps (stop_frame (next_id w))].
Proof.
  intros Hlen. unfold query.
  destruct (inbox w) as [|a [|res [|c rest]]] eqn:Hin; [| | |simpl in Hlen; lia].
  - rewrite (bind_blocked _ _ _ _ (_conn_init_blocked h w Hin)).
    eexists. split; [reflexivity|].
    cbn [trace inbox log]. rewrite received_app, sent_app. simpl.
    rewrite app_nil_r. auto.
  - rewrite (bind_ok _ _ _ _ _ (_conn_init_ok h w a _ Hin)).
    rewrite (bind_ok _ _ _ _ _ (_start_ok _ _)).
    erewrite bind_blocked by (apply conn_recv_blocked; reflexivity).
    autorewrite with world.
    eexists. split; [reflexivity|].
    cbn [trace inbox set_inbox drawn log]. rewrite received_app, sent_app.
    simpl. auto.
  - rewrite (bind_ok _ _ _ _ _ (_conn_init_ok h w a _ Hin)).
    rewrite (bind_ok _ _ _ _ _ (_start_ok _ _)).
    erewrite bind_ok by (apply conn_recv_ok; reflexivity).
    unfold _stop.
    erewrite bind_blocked;
      [|erewrite bind_ok by apply conn_send_log;
        apply conn_recv_blocked; reflexivity].
    autorewrite with world.
    eexists. split; [reflexivity|].
    cbn [trace inbox set_inbox drawn log]. rewrite received_app, sent_app.
    simpl. auto.
Qed.

Lemma query_short_transport_blocks_witness :
  exists w',
    query (JStr (lit "{ me }")) JNull JNull
      (init [lit "ack"; lit "reply"] (fun k => N.of_nat k))
    = (Blocked, w')
    /\ inbox w' = []
    /\ received (trace w') = [] ++ [lit "ack"; lit "reply"]
    /\ sent (trace w')
       = [] ++ firstn 3
                 [dumps (conn_init_frame JNull);
                  dumps (start_frame
                           (next_id (init [lit "ack"; lit "reply"]
                                       (fun k => N.of_nat k)))
                           (operation_payload JNull (JStr (lit "{ me }")) JNull));
                  dumps (stop_frame
                           (next_id (init [lit "ack"; lit "reply"]
                                       (fun k => N.of_nat k))))].
Proof.
  apply (query_short_transport_blocks (JStr (lit "{ me }")) JNull JNull
           (init [lit "ack"; lit "reply"] (fun k => N.of_nat k))).
  simpl. lia.
Defined.

(** X11.  [_on_message(message)] prints the text of the message as it
    was received, once, when it decodes to a [dict] whose [type] is not
    the string [ka].  A text that is not JSON raises [JSONDecodeError],
    a [dict] without a [type] raises [KeyError], and a JSON value that
    is not a [dict] raises [TypeError]; in these cases nothing is
    printed. *)
Theorem on_message_prints_or_raises (message : pystr) (w : world) :
  (forall r ty,
      loads message = Some r -> frame_type r = Some ty ->
      is_str ty (lit "ka") = false ->
      _on_message message w = (Ok tt, log [EvPrint (PText message)] w))
  /\ (loads message = None ->
      _on_message message w = (Raise JSONDecodeError, w))
  /\ (forall r,
        loads message = Some r -> is_dict r = true -> frame_type r = None ->
        _on_message message w = (Raise (KeyError (lit "type")), w))
  /\ (forall r,
        loads message = Some r -> is_dict r = false ->
        _on_message message w = (Raise TypeError, w)).
Proof.
  unfold _on_message, json_loads. split; [|split; [|split]].
  - intros r ty Hl Hty Hka.
    destruct (frame_type_members _ _ Hty) as (members & -> & Hd).
    rewrite Hl. unfold bind at 1. unfold ret at 1.
    unfold bind at 1. unfold subscript. rewrite Hd.
    unfold ret at 1. rewrite Hka. reflexivity.
  - intros Hl. rewrite Hl. reflexivity.
  - intros r Hl Hd Hty. rewrite Hl.
    destruct r as [| | | | | |members]; try discriminate. simpl in Hty.
    unfold bind at 1. unfold ret at 1.
    unfold bind at 1. unfold subscript. rewrite Hty. reflexivity.
  - intros r Hl Hd. rewrite Hl.
    destruct r as [| | | | | |members]; try discriminate; reflexivity.
Qed.

Lemma on_message_prints_or_raises_witness :
  _on_message (dumps Samples.data1) Samples.w_scenario
  = (Ok tt, log [EvPrint (PText (dumps Samples.data1))] Samples.w_scenario)
  /\ _on_message (lit "{}") Samples.w_scenario
     = (Raise (KeyError (lit "type")), Samples.w_scenario).
Proof.
  split.
  - apply (proj1 (on_message_prints_or_raises (dumps Samples.data1)
                    Samples.w_scenario)
             Samples.data1 (JStr (lit "data"))); vm_compute; reflexivity.
  - apply (proj1 (proj2 (proj2 (on_message_prints_or_raises (lit "{}")
                                  Samples.w_scenario)))
             (JObj [])); vm_compute; reflexivity.
Defined.

End WsEdgeFacts.

(** ** The delivery loop: what a run may do *)

Module LoopEdgeFacts.
Import TextFacts MonadFacts IdentFacts WsFacts LoopFacts WsEdgeFacts Ws.

Ltac run_fields :=
  split;
  cbn [trace inbox _st_id spawned rand_pos peer _subscription_running
       with_running set_inbox log fst snd received sent callbacks sleeps
       map firstn skipn app];
  try reflexivity; try discriminate; try (now rewrite app_nil_r);
  try (now constructor); try (left; reflexivity).

Lemma loop_run_here me _id w o :
  (o = Ok tt -> _subscription_running w = false) ->
  loop_run me _id w o w [] 0.
Proof.
  intros Ho. split; simpl; auto.
  - now rewrite app_nil_r.
  - constructor.
  - intros H1 H2. rewrite (Ho H1) in H2. discriminate.
Qed.

(** One frame taken from the transport, followed by the run [new']. *)
Lemma loop_run_step me _id w text rest evs o w' new' k' :
  inbox w = text :: rest ->
  received evs = [text] -> sent evs = [] ->
  (callbacks evs = []
   \/ exists r, loads text = Some r /\ callbacks evs = [(_id, r)]) ->
  Forall (fun s => s = 1%Z) (sleeps evs) ->
  (o = Ok tt -> _subscription_running w = true ->
   _subscription_running (set_inbox rest (log evs w)) = true) ->
  loop_run me _id (set_inbox rest (log evs w)) o w' new' k' ->
  loop_run me _id w o w' (evs ++ new') (S k').
Proof.
  intros Hin Hr Hs Hc Hsl Hrun [T I R C S St Sp Ra Pe Sl Ok1 Ok2].
  cbn [trace inbox _st_id spawned rand_pos peer set_inbox log] in *.
  split.
  - now rewrite T, app_assoc.
  - now rewrite I, Hin.
  - now rewrite received_app, Hr, R, Hin.
  - rewrite callbacks_app, map_app, Hin. cbn [firstn map].
    destruct Hc as [->|(r & Hl & ->)]; cbn [map app snd].
    + now apply sub_skip.
    + rewrite Hl. now apply sub_take.
  - rewrite sent_app, Hs. exact S.
  - assumption.
  - assumption.
  - assumption.
  - assumption.
  - rewrite loop_sleeps_app. apply Forall_app; auto.
  - assumption.
  - intros H1 H2. apply Ok2; auto.
Qed.

(** A run that ends by an exception right after a receive. *)
Lemma loop_run_raise me _id w text rest e evs :
  inbox w = text :: rest ->
  received evs = [text] -> sent evs = [] ->
  (callbacks evs = []
   \/ exists r, loads text = Some r /\ callbacks evs = [(_id, r)]) ->
  Forall (fun s => s = 1%Z) (sleeps evs) ->
  loop_run me _id w (Raise e) (set_inbox rest (log evs w)) evs 1.
Proof.
  intros Hin Hr Hs Hc Hsl.
  rewrite <- (app_nil_r evs) at 2.
  eapply loop_run_step;
    [exact Hin|exact Hr|exact Hs|exact Hc|exact Hsl|discriminate|].
  apply loop_run_here. discriminate.
Qed.

Lemma stop_subscribe_run me _id w :
  exists new k,
    loop_run me _id w (fst (stop_subscribe me _id w))
      (snd (stop_subscribe me _id w)) new k.
Proof.
  destruct (_st_id w) as [t|] eqn:Hst.
  - destruct (Nat.eq_dec t me) as [->|Hne].
    + rewrite (stop_subscribe_self _ _ _ Hst). exists [], 0. run_fields.
    + destruct (inbox w) as [|c rest] eqn:Hin.
      * rewrite (stop_subscribe_other_blocked _ _ _ _ Hst Hne Hin).
        exists [EvJoin t; EvSend (dumps (stop_frame _id))], 0. run_fields.
        right. eauto.
      * rewrite (stop_subscribe_other _ _ _ _ _ _ Hst Hne Hin).
        exists [EvJoin t; EvSend (dumps (stop_frame _id)); EvRecv c], 1.
        run_fields.
        -- now rewrite Hin.
        -- now rewrite Hin.
        -- apply subsequence_nil.
        -- right. eauto.
        -- eauto.
  - rewrite (stop_subscribe_unset _ _ _ Hst). exists [], 0. run_fields.
Qed.

Lemma subs_loop_run fuel me cc _id : forall w,
  exists new k,
    loop_run me _id w (fst (subs_loop fuel me cc _id w))
      (snd (subs_loop fuel me cc _id w)) new k.
Proof.
  induction fuel as [|f IH]; intros w.
  - simpl. destruct (_subscription_running w) eqn:Hrun; exists [], 0;
      apply loop_run_here; auto; discriminate.
  - rewrite subs_loop_S.
    destruct (_subscription_running w) eqn:Hrun;
      [|exists [], 0; apply loop_run_here; auto].
    destruct (inbox w) as [|text rest] eqn:Hin;
      [exists [], 0; apply loop_run_here; discriminate|].
    assert (Hone : forall e,
               exists new k,
                 loop_run me _id w (fst (@Raise unit e, set_inbox rest (log [EvRecv text] w)))
                   (snd (@Raise unit e, set_inbox rest (log [EvRecv text] w))) new k).
    { intros e. exists [EvRecv text], 1. cbn [fst snd].
      apply (loop_run_raise me _id w text rest e [EvRecv text]); simpl; auto. }
    destruct (loads text) as [[| | | | | |members]|] eqn:Hl; try apply Hone.
    destruct (dict_get (lit "type") members) as [ty|] eqn:Hty; [|apply Hone].
    destruct (is_str ty (lit "error") || is_str ty (lit "complete")) eqn:Hterm.
    { destruct (stop_subscribe_run me _id
                  (set_inbox rest
                     (log [EvRecv text; EvPrint (PValue (JObj members))] w)))
        as (new & k & Hrun').
      eexists; eexists. eapply loop_run_step; [exact Hin| | | | | |exact Hrun'];
        simpl; auto. }
    destruct (is_str ty (lit "ka")) eqn:Hka.
    { destruct (IH (set_inbox rest (log [EvRecv text; EvSleep 1] w)))
        as (new & k & Hrun').
      eexists; eexists. eapply loop_run_step; [exact Hin| | | | | |exact Hrun'];
        simpl; auto. }
    destruct cc as [|g]; [apply Hone|].
    destruct (g _id (JObj members)) as [e|].
    + eexists; eexists. cbn [fst snd].
      apply (loop_run_raise me _id w text rest e
               [EvRecv text; EvCallback _id (JObj members)]); simpl; eauto.
    + destruct (IH (set_inbox rest
                      (log [EvRecv text; EvCallback _id (JObj members); EvSleep 1] w)))
        as (new & k & Hrun').
      eexists; eexists. eapply loop_run_step; [exact Hin| | | | | |exact Hrun'];
        simpl; eauto.
Qed.

Lemma subs_run me cc _id w :
  exists new k,
    loop_run me _id (with_running true w) (fst (subs me cc _id w))
      (snd (subs me cc _id w)) new k.
Proof. rewrite subs_unfold. apply subs_loop_run. Qed.


(** X12.  The delivery loop reads the transport from the front and in
    order: a run of [subs] receives the first [k] frames that were
    pending, each once, and leaves the others; the frames given to the
    callback are decodings of frames it received, in the order of their
    arrival and each at most once (keepalives, terminal frames and the
    frame read by [_stop] are the ones left out). *)
Theorem callbacks_follow_the_transport
    (me : thread) (cc : callback) (_id : pystr) (w : world) :
  exists new k,
    trace (snd (subs me cc _id w)) = trace w ++ new
    /\ inbox (snd (subs me cc _id w)) = skipn k (inbox w)
    /\ received new = firstn k (inbox w)
    /\ subsequence (map (fun ir => Some (snd ir)) (callbacks new))
         (map loads (firstn k (inbox w))).
Proof.
  destruct (subs_run me cc _id w) as (new & k & [T I R C _ _ _ _ _ _ _ _]).
  exists new, k. auto.
Qed.

(** X13.  A run of the delivery loop sends nothing on the transport,
    except one [stop] frame for its own identifier when a terminal
    frame arrives while the stored thread is another one, and then the
    flag is cleared.  It never starts a thread, never draws from the
    random source, never touches the HTTP peer, leaves [_st_id] as it
    was, and every delay it makes is one second. *)
Theorem loop_sends_at_most_its_stop_frame
    (me : thread) (cc : callback) (_id : pystr) (w : world) :
  exists new,
    trace (snd (subs me cc _id w)) = trace w ++ new
    /\ (sent new = []
        \/ (sent new = [dumps (stop_frame _id)]
            /\ _subscription_running (snd (subs me cc _id w)) = false
            /\ exists t, _st_id w = Some t /\ t <> me))
    /\ _st_id (snd (subs me cc _id w)) = _st_id w
    /\ spawned (snd (subs me cc _id w)) = spawned w
    /\ rand_pos (snd (subs me cc _id w)) = rand_pos w
    /\ peer (snd (subs me cc _id w)) = peer w
    /\ Forall (fun s => s = 1%Z) (sleeps new).
Proof.
  destruct (subs_run me cc _id w) as (new & k & [T _ _ _ S St Sp Ra Pe Sl _ _]).
  exists new. auto 10.
Qed.



(** One iteration on a frame that is to be delivered. *)
Lemma iter_other_frame f me cc _id w text rest r ty :
  _subscription_running w = true -> inbox w = text :: rest ->
  loads text = Some r -> frame_type r = Some ty ->
  is_str ty (lit "ka") = false -> is_str ty (lit "error") = false ->
  is_str ty (lit "complete") = false ->
  subs_loop (S f) me cc _id w
  = match cc with
    | OnMessage => (Raise TypeError, set_inbox rest (log [EvRecv text] w))
    | UserCallback g =>
        match g _id r with
        | None =>
            subs_loop f me cc _id
              (set_inbox rest (log [EvRecv text; EvCallback _id r; EvSleep 1] w))
        | Some e =>
            (Raise e, set_inbox rest (log [EvRecv text; EvCallback _id r] w))
        end
    end.
Proof.
  intros Hrun Hin Hl Hty Hka He Hc.
  destruct (frame_type_members _ _ Hty) as (members & -> & Hd).
  rewrite subs_loop_S, Hrun, Hin, Hl, Hd, He, Hc, Hka. reflexivity.
Qed.

(** X15.  [subscribe] without a callback installs [self._on_message],
    which takes one argument, and the loop calls it with two: the first
    frame that is neither a keepalive nor terminal ends the thread with
    [TypeError].  Nothing is printed for it, the frame is lost, the
    flag stays set and no [stop] frame is sent. *)
Theorem default_callback_raises_type_error
    (q v h : json) (w0 w1 : world) (X text : pystr) (rest : list pystr)
    (r ty : json) :
  subscribe q v h None w0 = (Ok X, w1) ->
  inbox w1 = text :: rest ->
  loads text = Some r -> frame_type r = Some ty ->
  is_str ty (lit "ka") = false -> is_str ty (lit "error") = false ->
  is_str ty (lit "complete") = false ->
  exists t w2,
    _st_id w1 = Some t
    /\ run_thread t w1 = (Raise TypeError, w2)
    /\ trace w2 = trace w1 ++ [EvRecv text]
    /\ inbox w2 = rest
    /\ _subscription_running w2 = true.
Proof.
  intros Hsub Hin Hl Hty Hka He Hc.
  destruct (subscribe_inv _ _ _ _ _ _ _ Hsub) as (a & rest0 & Hin0).
  destruct (subscribe_ok q v h None w0 a rest0 Hin0)
    as (w' & Hs & Hst & _ & Hsp & _ & _ & _).
  rewrite Hsub in Hs. inversion Hs; subst w' X. clear Hs.
  exists (next_thread w0). eexists. split; [exact Hst|].
  rewrite (run_thread_spawned _ _ _ _ _ Hsp), subs_unfold.
  rewrite (iter_other_frame _ _ OnMessage _ _ text rest r ty);
    try assumption; try reflexivity.
  repeat split.
Qed.

Lemma default_callback_raises_type_error_witness :
  exists t w2,
    _st_id (snd (subscribe Samples.operation JNull JNull None Samples.w_scenario))
    = Some t
    /\ run_thread t
         (snd (subscribe Samples.operation JNull JNull None Samples.w_scenario))
       = (Raise TypeError, w2)
    /\ trace w2
       = trace (snd (subscribe Samples.operation JNull JNull None
                       Samples.w_scenario))
           ++ [EvRecv (dumps Samples.data1)]
    /\ inbox w2 = [dumps ka_frame; dumps Samples.data2; dumps Samples.complete]
    /\ _subscription_running w2 = true.
Proof.
  apply (default_callback_raises_type_error Samples.operation JNull JNull
           Samples.w_scenario _ Samples.X (dumps Samples.data1)
           [dumps ka_frame; dumps Samples.data2; dumps Samples.complete]
           Samples.data1 (JStr (lit "data")));
    vm_compute; reflexivity.
Defined.

(** X16.  A frame that the loop cannot read ends it: a text that is not
    JSON raises [JSONDecodeError], a [dict] without a [type] raises
    [KeyError], a JSON value that is not a [dict] raises [TypeError].
    The frame has been taken from the transport; nothing is printed or
    sent, the callback is not entered, and the flag stays set. *)
Theorem malformed_frame_ends_the_loop
    (f : nat) (me : thread) (cc : callback) (_id : pystr) (w : world)
    (text : pystr) (rest : list pystr) :
  _subscription_running w = true -> inbox w = text :: rest ->
  (loads text = None \/ exists r, loads text = Some r /\ frame_type r = None) ->
  subs_loop (S f) me cc _id w
  = (Raise (match loads text with
            | None => JSONDecodeError
            | Some r => if is_dict r then KeyError (lit "type") else TypeError
            end),
     set_inbox rest (log [EvRecv text] w)).
Proof.
  intros Hrun Hin Hbad. rewrite subs_loop_S, Hrun, Hin.
  destruct Hbad as [Hl|(r & Hl & Hty)]; rewrite Hl; [reflexivity|].
  destruct r as [| | | | | |members]; try reflexivity.
  simpl in Hty. rewrite Hty. reflexivity.
Qed.

Lemma malformed_frame_ends_the_loop_witness :
  subs_loop 1 1 (UserCallback Samples.quiet) Samples.X
    (with_running true (init [lit "{}"] Samples.src))
  = (Raise (match loads (lit "{}") with
            | None => JSONDecodeError
            | Some r => if is_dict r then KeyError (lit "type") else TypeError
            end),
     set_inbox []
       (log [EvRecv (lit "{}")] (with_running true (init [lit "{}"] Samples.src)))).
Proof.
  apply (malformed_frame_ends_the_loop 0 1 (UserCallback Samples.quiet) Samples.X
           (with_running true (init [lit "{}"] Samples.src)) (lit "{}") []).
  - reflexivity.
  - reflexivity.
  - right. exists (JObj []). split; vm_compute; reflexivity.
Defined.

(** X17.  An exception raised by the caller's callback is not caught:
    it ends the loop at once, before the delay.  The flag stays set,
    the frames that follow stay on the transport, and no [stop] frame
    is sent for the subscription. *)
Theorem callback_exception_ends_the_loop
    (f : nat) (me : thread) (g : pystr -> json -> option exn) (_id : pystr)
    (w : world) (text : pystr) (rest : list pystr) (r ty : json) (e : exn) :
  _subscription_running w = true -> inbox w = text :: rest ->
  loads text = Some r -> frame_type r = Some ty ->
  is_str ty (lit "ka") = false -> is_str ty (lit "error") = false ->
  is_str ty (lit "complete") = false ->
  g _id r = Some e ->
  subs_loop (S f) me (UserCallback g) _id w
  = (Raise e, set_inbox rest (log [EvRecv text; EvCallback _id r] w)).
Proof.
  intros Hrun Hin Hl Hty Hka He Hc Hg.
  rewrite (iter_other_frame _ _ (UserCallback g) _ _ text rest r ty);
    try assumption.
  now rewrite Hg.
Qed.

Lemma callback_exception_ends_the_loop_witness :
  subs_loop 2 1 (UserCallback (fun _ _ => Some (UserError (lit "boom")))) Samples.X
    (with_running true (init [dumps Samples.data1; dumps Samples.data2] Samples.src))
  = (Raise (UserError (lit "boom")),
     set_inbox [dumps Samples.data2]
       (log [EvRecv (dumps Samples.data1); EvCallback Samples.X Samples.data1]
          (with_running true
             (init [dumps Samples.data1; dumps Samples.data2] Samples.src)))).
Proof.
  apply (callback_exception_ends_the_loop 1 1
           (fun _ _ => Some (UserError (lit "boom"))) Samples.X
           (with_running true
              (init [dumps Samples.data1; dumps Samples.data2] Samples.src))
           (dumps Samples.data1) [dumps Samples.data2] Samples.data1
           (JStr (lit "data")) (UserError (lit "boom")));
    vm_compute; reflexivity.
Defined.

End LoopEdgeFacts.

(** ** The life of a subscription *)

Module LifecycleFacts.
Import TextFacts MonadFacts IdentFacts WsFacts LoopFacts WsEdgeFacts LoopEdgeFacts Ws.

(** The run of [query], by the number of frames the transport holds. *)
Lemma query_run q v h w :
  query q v h w
  = let i := EvSend (dumps (conn_init_frame h)) in
    let s := EvSend (dumps (start_frame (next_id w) (operation_payload h q v))) in
    let p := EvSend (dumps (stop_frame (next_id w))) in
    match inbox w with
    | [] => (Blocked, log [i] w)
    | [a] => (Blocked, set_inbox [] (drawn 6 (log [i; EvRecv a; s] w)))
    | [a; res] =>
        (Blocked, set_inbox [] (drawn 6 (log [i; EvRecv a; s; EvRecv res; p] w)))
    | a :: res :: c :: rest =>
        (Ok res,
         set_inbox rest (drawn 6 (log [i; EvRecv a; s; EvRecv res; p; EvRecv c] w)))
    end.
Proof.
  cbv zeta.
  destruct (inbox w) as [|a [|res [|c rest]]] eqn:Hin.
  - unfold query. now rewrite (bind_blocked _ _ _ _ (_conn_init_blocked h w Hin)).
  - unfold query.
    rewrite (bind_ok _ _ _ _ _ (_conn_init_ok h w a _ Hin)).
    rewrite (bind_ok _ _ _ _ _ (_start_ok _ _)).
    erewrite bind_blocked by (apply conn_recv_blocked; reflexivity).
    now autorewrite with world.
  - unfold query.
    rewrite (bind_ok _ _ _ _ _ (_conn_init_ok h w a _ Hin)).
    rewrite (bind_ok _ _ _ _ _ (_start_ok _ _)).
    erewrite bind_ok by (apply conn_recv_ok; reflexivity).
    unfold _stop.
    erewrite bind_blocked;
      [|erewrite bind_ok by apply conn_send_log;
        apply conn_recv_blocked; reflexivity].
    now autorewrite with world.
  - apply query_ok. exact Hin.
Qed.

Lemma subscribe_blocked q v h cb w :
  inbox w = [] ->
  subscribe q v h cb w = (Blocked, log [EvSend (dumps (conn_init_frame h))] w).
Proof.
  intros Hin. unfold subscribe.
  now rewrite (bind_blocked _ _ _ _ (_conn_init_blocked h w Hin)).
Qed.

(** X18.  [stop_subscribe] on a client that has not subscribed:
    [_st_id] is still [None], which has no [join], so the call raises
    [AttributeError] after clearing the flag; no [stop] frame is sent
    and nothing is received.  Calls of [query] do not change this:
    [query] leaves [_st_id] and the flag as they were. *)
Theorem stop_subscribe_before_subscribe (me : thread) (_id : pystr) (w : world) :
  _st_id w = None ->
  stop_subscribe me _id w = (Raise AttributeError, with_running false w)
  /\ (forall q v h,
        _st_id (snd (query q v h w)) = None
        /\ _subscription_running (snd (query q v h w)) = _subscription_running w).
Proof.
  intros Hst. split; [now apply stop_subscribe_unset|].
  intros q v h. rewrite query_run. cbv zeta.
  destruct (inbox w) as [|a [|res [|c rest]]]; cbn; auto.
Qed.

Lemma stop_subscribe_before_subscribe_witness :
  stop_subscribe 0 Samples.X (init [Samples.ack] Samples.src)
  = (Raise AttributeError, with_running false (init [Samples.ack] Samples.src)).
Proof.
  refine (proj1 (stop_subscribe_before_subscribe 0 Samples.X
                   (init [Samples.ack] Samples.src) _)).
  reflexivity.
Defined.



(** X20.  [subscribe] on a transport that delivers nothing never
    returns: it waits for the answer to [connection_init].  No [start]
    frame has been sent, no identifier drawn, no thread created or
    stored. *)
Theorem subscribe_on_silent_transport_blocks
    (q v h : json) (cb : option (pystr -> json -> option exn)) (w : world) :
  inbox w = [] ->
  exists w',
    subscribe q v h cb w = (Blocked, w')
    /\ trace w' = trace w ++ [EvSend (dumps (conn_init_frame h))]
    /\ _st_id w' = _st_id w /\ spawned w' = spawned w
    /\ next_thread w' = next_thread w /\ rand_pos w' = rand_pos w.
Proof.
  intros Hin. rewrite (subscribe_blocked q v h cb w Hin).
  eexists. split; [reflexivity|]. repeat split.
Qed.

Lemma subscribe_on_silent_transport_blocks_witness :
  exists w',
    subscribe Samples.operation JNull JNull None (init [] Samples.src)
    = (Blocked, w')
    /\ trace w' = [] ++ [EvSend (dumps (conn_init_frame JNull))]
    /\ _st_id w' = None /\ spawned w' = []
    /\ next_thread w' = 1 /\ rand_pos w' = 0.
Proof.
  apply (subscribe_on_silent_transport_blocks Samples.operation JNull JNull None
           (init [] Samples.src)).
  reflexivity.
Defined.



Lemma conn_init_text h : json_native h = true -> client_text (dumps (conn_init_frame h)).
Proof.
  intros Hh. exists (conn_init_frame h). split; [|reflexivity].
  apply CodecFacts.loads_dumps.
  cbn [json_native conn_init_frame forallb fst snd map]. rewrite Hh. reflexivity.
Qed.

Lemma start_text h q v w :
  json_native h = true -> json_native q = true -> json_native v = true ->
  client_text (dumps (start_frame (next_id w) (operation_payload h q v))).
Proof.
  intros Hh Hq Hv. eexists. split; [now apply start_frame_decodes|reflexivity].
Qed.

Lemma stop_text _id : str_native _id = true -> client_text (dumps (stop_frame _id)).
Proof.
  intros Hi. exists (stop_frame _id). split; [|reflexivity].
  apply CodecFacts.loads_dumps.
  cbn [json_native stop_frame forallb fst snd map]. rewrite Hi. reflexivity.
Qed.

(** X22.  For JSON operands, every text the client puts on the
    transport is the JSON text of a frame of type [connection_init],
    [start] or [stop]: this holds for whatever [query], [subscribe],
    [stop_subscribe] and the delivery loop send, whether they return,
    raise or wait. *)
Theorem client_sends_only_client_frames (q v h : json) (_id : pystr) :
  json_native h = true -> json_native q = true -> json_native v = true ->
  str_native _id = true ->
  (forall w, sends_client_frames w (snd (query q v h w)))
  /\ (forall cb w, sends_client_frames w (snd (subscribe q v h cb w)))
  /\ (forall me w, sends_client_frames w (snd (stop_subscribe me _id w)))
  /\ (forall me cc w, sends_client_frames w (snd (subs me cc _id w))).
Proof.
  intros Hh Hq Hv Hi.
  pose proof (conn_init_text h Hh) as Ci.
  pose proof (fun w => start_text h q v w Hh Hq Hv) as Cs.
  pose proof (fun w => stop_text (next_id w) (next_id_native w)) as Cp.
  pose proof (stop_text _id Hi) as Cp'.
  assert (Hsent : forall new,
             sent new = [] \/ (sent new = [dumps (stop_frame _id)]
                               /\ True) ->
             Forall client_text (sent new)).
  { intros new [->|(-> & _)]; [apply Forall_nil|].
    apply Forall_cons; [exact Cp'|apply Forall_nil]. }
  split; [|split; [|split]].
  - intros w. rewrite query_run. cbv zeta. unfold sends_client_frames.
    destruct (inbox w) as [|a [|res [|c rest]]]; eexists;
      (split; [reflexivity|]); cbn [sent].
    + apply Forall_cons; [exact Ci|apply Forall_nil].
    + apply Forall_cons; [exact Ci|].
      apply Forall_cons; [apply Cs|apply Forall_nil].
    + apply Forall_cons; [exact Ci|].
      apply Forall_cons; [apply Cs|].
      apply Forall_cons; [apply Cp|apply Forall_nil].
    + apply Forall_cons; [exact Ci|].
      apply Forall_cons; [apply Cs|].
      apply Forall_cons; [apply Cp|apply Forall_nil].
  - intros cb w. unfold sends_client_frames.
    destruct (inbox w) as [|a rest] eqn:Hin.
    + rewrite (subscribe_blocked q v h cb w Hin). eexists.
      split; [reflexivity|]. cbn [sent].
      apply Forall_cons; [exact Ci|apply Forall_nil].
    + destruct (subscribe_ok q v h cb w a rest Hin)
        as (w' & Hs & _ & _ & _ & _ & _ & Ht).
      rewrite Hs. eexists. split; [exact Ht|].
      cbn [sent].
      apply Forall_cons; [exact Ci|].
      apply Forall_cons; [apply Cs|apply Forall_nil].
  - intros me w.
    destruct (stop_subscribe_run me _id w) as (new & k & [T _ _ _ S _ _ _ _ _ _ _]).
    exists new. split; [exact T|].
    apply Hsent. destruct S as [S|(S & _)]; auto.
  - intros me cc w.
    destruct (subs_run me cc _id w) as (new & k & [T _ _ _ S _ _ _ _ _ _ _]).
    exists new. split; [exact T|].
    apply Hsent. destruct S as [S|(S & _)]; auto.
Qed.

Lemma client_sends_only_client_frames_witness :
  sends_client_frames (init [Samples.ack] Samples.src)
    (snd (query Samples.operation JNull JNull (init [Samples.ack] Samples.src))).
Proof.
  refine (proj1 (client_sends_only_client_frames Samples.operation JNull JNull
                   Samples.X _ _ _ _) _);
    reflexivity.
Defined.

End LifecycleFacts.

(** ** The delivery loop: waiting and delivery *)

Module DeliveryFacts.
Import TextFacts MonadFacts IdentFacts WsFacts LoopFacts WsEdgeFacts LoopEdgeFacts Ws.



(** X25.  The delivery loop does not look at the [id] of a frame.  A
    JSON frame that the peer encoded, whose [type] is neither [ka] nor
    terminal, reaches the callback decoded to the value that was
    encoded, together with the identifier of the loop's own
    subscription, whatever [id] the frame carries (another
    subscription's, or none); the loop then waits one second and goes
    on. *)
Theorem frame_of_any_id_is_delivered
    (f : nat) (me : thread) (g : pystr -> json -> option exn) (_id : pystr)
    (w : world) (r ty : json) (rest : list pystr) :
  _subscription_running w = true ->
  json_native r = true ->
  frame_type r = Some ty ->
  is_str ty (lit "ka") = false -> is_str ty (lit "error") = false ->
  is_str ty (lit "complete") = false ->
  inbox w = dumps r :: rest ->
  g _id r = None ->
  subs_loop (S f) me (UserCallback g) _id w
  = subs_loop f me (UserCallback g) _id
      (set_inbox rest
         (log [EvRecv (dumps r); EvCallback _id r; EvSleep 1] w)).
Proof.
  intros Hrun Hn Hty Hka He Hc Hin Hg.
  rewrite (iter_other_frame f me (UserCallback g) _id w (dumps r) rest r ty
             Hrun Hin (CodecFacts.loads_dumps r Hn) Hty Hka He Hc).
  now rewrite Hg.
Qed.

Lemma frame_of_any_id_is_delivered_witness :
  subs_loop 1 1 (UserCallback Samples.quiet) Samples.X
    (with_running true
       (init [dumps (server_frame (lit "other") (lit "data") JNull)] Samples.src))
  = subs_loop 0 1 (UserCallback Samples.quiet) Samples.X
      (set_inbox []
         (log [EvRecv (dumps (server_frame (lit "other") (lit "data") JNull));
               EvCallback Samples.X (server_frame (lit "other") (lit "data") JNull);
               EvSleep 1]
            (with_running true
               (init [dumps (server_frame (lit "other") (lit "data") JNull)]
                  Samples.src)))).
Proof.
  apply (frame_of_any_id_is_delivered 0 1 Samples.quiet Samples.X
           (with_running true
              (init [dumps (server_frame (lit "other") (lit "data") JNull)]
                 Samples.src))
           (server_frame (lit "other") (lit "data") JNull) (JStr (lit "data")) []);
    reflexivity.
Defined.

End DeliveryFacts.

(** ** The mutation documents *)

Module UserQueriesFacts.
Import UserQueries.

Lemma definitions_part_app pre x :
  existsb (N.eqb RPAREN) pre = true ->
  definitions_part (pre ++ x) = definitions_part pre.
Proof.
  induction pre as [|c pre IH]; [discriminate|].
  cbn [existsb app definitions_part]. rewrite (N.eqb_sym RPAREN c).
  destruct (c =? RPAREN)%N; cbn [orb]; [reflexivity|].
  intros H. now rewrite IH.
Qed.

Lemma selection_part_app pre x :
  existsb (N.eqb RPAREN) pre = true ->
  selection_part (pre ++ x) = selection_part pre ++ x.
Proof.
  induction pre as [|c pre IH]; [discriminate|].
  cbn [existsb app selection_part]. rewrite (N.eqb_sym RPAREN c).
  destruct (c =? RPAREN)%N; cbn [orb]; [reflexivity|].
  intros H. now rewrite IH.
Qed.

(** A character that is not part of a name ends the name being read. *)
Lemma variables_from_app a c b : forall cur,
  name_char c = false ->
  variables_from cur (a ++ c :: b)
  = variables_from cur a ++ variables_from None (c :: b).
Proof.
  induction a as [|x a IH]; intros cur Hc.
  - destruct cur as [acc|]; cbn [app variables_from]; [|reflexivity].
    rewrite Hc. reflexivity.
  - cbn [app variables_from].
    destruct cur as [acc|].
    + destruct (name_char x); [now apply IH|].
      destruct (x =? DOLLAR)%N; cbn [app]; f_equal; now apply IH.
    + destruct (x =? DOLLAR)%N; now apply IH.
Qed.

(** The variables of a document made of a head [P] that closes the
    variable definitions, an indentation, a fragment and a tail. *)
Lemma document_variables P F S :
  existsb (N.eqb RPAREN) P = true ->
  declared (P ++ lit "    " ++ F ++ nl :: S) = variables (definitions_part P)
  /\ used (P ++ lit "    " ++ F ++ nl :: S)
     = variables (selection_part P) ++ variables F ++ variables (nl :: S).
Proof.
  intros HP. unfold declared, used, variables.
  rewrite (definitions_part_app P _ HP), (selection_part_app P _ HP).
  split; [reflexivity|].
  change (lit "    " ++ F ++ nl :: S)
    with (SPACE :: SPACE :: SPACE :: SPACE :: F ++ nl :: S).
  rewrite (variables_from_app (selection_part P) SPACE _ None eq_refl).
  f_equal.
  change (variables_from None (SPACE :: SPACE :: SPACE :: SPACE :: F ++ nl :: S))
    with (variables_from None (F ++ nl :: S)).
  apply (variables_from_app F nl S None eq_refl).
Qed.

Lemma document_lists P F S d u :
  existsb (N.eqb RPAREN) P = true ->
  variables (definitions_part P) = d ->
  variables (selection_part P) = u ->
  variables (nl :: S) = [] ->
  declared (P ++ lit "    " ++ F ++ nl :: S) = d
  /\ used (P ++ lit "    " ++ F ++ nl :: S) = u ++ variables F.
Proof.
  intros HP Hd Hu Hs. destruct (document_variables P F S HP) as [D U].
  rewrite D, U, Hd, Hu, Hs, app_nil_r. auto.
Qed.

(** X23.  The variables of the mutation documents.  In six of the seven
    documents the arguments of the field use exactly the variables that
    the operation declares, in the order of their declaration (and
    after them whatever the included fragment uses).  In
    [GQL_CREATE_USER_FROM_EMAIL_IF_NOT_EXISTS] the argument
    [organizationRole] is given [$sorganizationRole], a variable the
    operation does not declare, and the declared [$organizationRole] is
    not used by the field. *)
Theorem user_mutation_variables (AUTH_PAYLOAD_FRAGMENT USER_FRAGMENT : pystr) :
  uses_what_it_declares (GQL_SIGN_IN AUTH_PAYLOAD_FRAGMENT) AUTH_PAYLOAD_FRAGMENT
  /\ Forall (fun doc => uses_what_it_declares (doc USER_FRAGMENT) USER_FRAGMENT)
       [GQL_CREATE_USER; GQL_UPDATE_USER; GQL_UPDATE_PASSWORD;
        GQL_RESET_PASSWORD; GQL_UPDATE_PROPERTIES_IN_USER]
  /\ declared (GQL_CREATE_USER_FROM_EMAIL_IF_NOT_EXISTS USER_FRAGMENT)
     = [lit "name"; lit "email"; lit "organizationRole"; lit "projectID"]
  /\ used (GQL_CREATE_USER_FROM_EMAIL_IF_NOT_EXISTS USER_FRAGMENT)
     = [lit "name"; lit "email"; lit "sorganizationRole"; lit "projectID"]
         ++ variables USER_FRAGMENT.
Proof.
  assert (Huse : forall P F S vars,
             existsb (N.eqb RPAREN) P = true ->
             variables (definitions_part P) = vars ->
             variables (selection_part P) = vars ->
             variables (nl :: S) = [] ->
             uses_what_it_declares (P ++ lit "    " ++ F ++ nl :: S) F).
  { intros P F S vars HP Hd Hu Hs. unfold uses_what_it_declares.
    destruct (document_lists P F S vars vars HP Hd Hu Hs) as [D U].
    now rewrite D, U. }
  split; [|split].
  - eapply Huse; vm_compute; reflexivity.
  - repeat constructor; eapply Huse; vm_compute; reflexivity.
  - apply document_lists; vm_compute; reflexivity.
Qed.

End UserQueriesFacts.
